(** * SurfBeam2: the field decoder, the derived metrics and the poll driver

    A shallow embedding of [SurfBeam2.h] / [SurfBeam2.cpp] (ViaSat SurfBeam 2
    modem monitor) and the properties of its specification.

    Conventions of the embedding

    - [QString] and [QByteArray] are [string]: the text is held by its bytes.
      The device pages are ASCII, where bytes and UTF-16 code units coincide;
      [Qt::CaseInsensitive] is modelled by folding the letters A-Z.
    - [uint8_t], [uint32_t], [uint64_t] are [Z], the wrap-around of a narrowing
      assignment written out with [Z.modulo].
    - [double] is [R]: real arithmetic, rounding is not modelled. [pow] is
      [Rpower], [fabs] is [Rabs].  The five percent functions and the two
      conversions of a level are also given over IEEE 754 binary64 (module
      [Binary64]), where they are evaluated bit for bit; [pow], a function of
      the C library, is a parameter there.  The quotients the form shows are
      computed and printed in binary64.
    - The object [SurfBeam2] is a record of its member variables; a member
      function is a function on that record. A slot that dereferences a reply
      pointer returns [None] when the reply has been destroyed.
    - The form [mMainUi] is a record of the labels and progress bars the class
      names; [updateContent] is a function on it, written statement by
      statement.  [QProgressBar::setValue] ignores a value outside the bar's
      range, as Qt documents it; the ranges come with the form [setupUi]
      builds. *)

From Stdlib Require Import ZArith List String Ascii Bool Lia Reals Lra DecimalString Floats.
From Stdlib Require DecimalPos DecimalN.
Import ListNotations.

Set Warnings "-inexact-float".

Open Scope string_scope.

(** ** Qt strings *)

Definition QString : Type := string.
Definition QStringList : Type := list QString.
Definition QByteArray : Type := string.

Inductive CaseSensitivity : Type := CaseInsensitive | CaseSensitive.

(** Case folding of one character: A-Z to a-z, every other byte unchanged. *)
Definition foldCase (c : ascii) : ascii :=
  let n := nat_of_ascii c in
  if (65 <=? n)%nat && (n <=? 90)%nat then ascii_of_nat (n + 32) else c.

Definition sameChar (cs : CaseSensitivity) (a b : ascii) : bool :=
  match cs with
  | CaseSensitive => Ascii.eqb a b
  | CaseInsensitive => Ascii.eqb (foldCase a) (foldCase b)
  end.

(** [startsWith cs p s]: [p] is a prefix of [s]. *)
Fixpoint startsWith (cs : CaseSensitivity) (p s : QString) : bool :=
  match p, s with
  | EmptyString, _ => true
  | String _ _, EmptyString => false
  | String a p', String b s' => sameChar cs a b && startsWith cs p' s'
  end.

(** [QString::contains( str, cs )]: [str] occurs somewhere in [s]. *)
Fixpoint contains (s str : QString) (cs : CaseSensitivity) : bool :=
  startsWith cs str s ||
  match s with
  | EmptyString => false
  | String _ s' => contains s' str cs
  end.

(** [QString::remove( QChar )]: every occurrence of the character is dropped. *)
Fixpoint remove (ch : ascii) (s : QString) : QString :=
  match s with
  | EmptyString => EmptyString
  | String c s' => if Ascii.eqb c ch then remove ch s' else String c (remove ch s')
  end.

(** [QString::split( sep )] for a separator that is not empty, with the
    default [Qt::KeepEmptyParts]: the text is scanned from the left, every
    occurrence of [sep] that does not overlap the previous one closes a
    segment, and the rest of the text is the last segment.  [skip] counts the
    characters of a separator that are still to be stepped over, [cur] is the
    segment read so far. *)
Fixpoint splitFrom (sep : QString) (skip : nat) (cur s : QString) : QStringList :=
  match s with
  | EmptyString => [cur]
  | String c s' =>
      match skip with
      | S k => splitFrom sep k cur s'
      | O =>
          if startsWith CaseSensitive sep s
          then cur :: splitFrom sep (String.length sep - 1) EmptyString s'
          else splitFrom sep 0 (cur ++ String c EmptyString) s'
      end
  end.

Definition split (s sep : QString) : QStringList := splitFrom sep 0 EmptyString s.

(** *** String to number

    [QString::toULongLong] in the C locale, base 10: white space around the
    number is ignored, one leading [+] is accepted, a [-] is not, and at
    least one digit and nothing but digits must follow.  When the text is not
    of that form, or the number does not fit the type, the result is 0. *)

Definition isSpace (c : ascii) : bool :=
  let n := nat_of_ascii c in ((9 <=? n)%nat && (n <=? 13)%nat) || (n =? 32)%nat.

Fixpoint trimLeft (s : QString) : QString :=
  match s with
  | EmptyString => EmptyString
  | String c s' => if isSpace c then trimLeft s' else s
  end.

(** The text without its trailing white space. *)
Fixpoint trimRight (s : QString) : QString :=
  match s with
  | EmptyString => EmptyString
  | String c s' =>
      match trimRight s' with
      | EmptyString => if isSpace c then EmptyString else String c EmptyString
      | t => String c t
      end
  end.

Definition trimmed (s : QString) : QString := trimRight (trimLeft s).

Definition digitValue (c : ascii) : option Z :=
  let n := nat_of_ascii c in
  if (48 <=? n)%nat && (n <=? 57)%nat then Some (Z.of_nat (n - 48)) else None.

(** The value of a run of decimal digits read after [acc]; [None] when a
    character is not a digit. *)
Fixpoint readDigits (acc : Z) (s : QString) : option Z :=
  match s with
  | EmptyString => Some acc
  | String c s' =>
      match digitValue c with
      | Some d => readDigits (10 * acc + d) s'
      | None => None
      end
  end.

Definition readUnsigned (s : QString) : option Z :=
  let body := match s with
              | String "+"%char s' => s'
              | _ => s
              end in
  match body with
  | EmptyString => None
  | _ => readDigits 0 body
  end.

Definition ULLONG_MAX : Z := 2 ^ 64 - 1.
Definition USHRT_MAX : Z := 2 ^ 16 - 1.

Definition toULongLong (s : QString) : Z :=
  match readUnsigned (trimmed s) with
  | Some n => if (n <=? ULLONG_MAX)%Z then n else 0%Z
  | None => 0%Z
  end.

(** The narrower conversions read an unsigned 64-bit number first and give 0
    when it does not fit the narrower type. *)
Definition toIntegral (max : Z) (s : QString) : Z :=
  let val := toULongLong s in if (val <=? max)%Z then val else 0%Z.

Definition toUShort (s : QString) : Z := toIntegral USHRT_MAX s.

(** Whether the text is a number [toULongLong] accepts. *)
Definition isNumeric (s : QString) : bool :=
  match readUnsigned (trimmed s) with
  | Some n => (n <=? ULLONG_MAX)%Z
  | None => false
  end.

(** ** Fixed-width unsigned integers *)

Definition uint8_t : Type := Z.
Definition uint32_t : Type := Z.
Definition uint64_t : Type := Z.
Definition double : Type := R.

(** The value an unsigned field of [bits] bits holds after [z] is assigned. *)
Definition wrap (bits : Z) (z : Z) : Z := z mod 2 ^ bits.

(** ** Constants and types of the class (SurfBeam2.h) *)

Definition FIELD_COUNT_MODEM : nat := 81.
Definition FIELD_COUNT_TRIA : nat := 84.
Definition FIELD_DELIMITER : QString := "##".

(** Small Greek mu, U+03BC, by its UTF-8 bytes. *)
Definition MU_SMALL : QString := "μ".

Inductive SatelliteStatusBeamColor : Type :=
| SATELLITE_STATUS_BEAM_COLOR_UNKNOWN
| SATELLITE_STATUS_BEAM_COLOR_BLUE
| SATELLITE_STATUS_BEAM_COLOR_ORANGE
| SATELLITE_STATUS_BEAM_COLOR_PURPLE
| SATELLITE_STATUS_BEAM_COLOR_GREEN
| SATELLITE_STATUS_BEAM_COLOR_COUNT.

Inductive ModemState : Type :=
| MODEM_STATE_UNKNOWN
| MODEM_STATE_SCANNING
| MODEM_STATE_RANGING
| MODEM_STATE_NETWORK_ENTRY
| MODEM_STATE_DHCP
| MODEM_STATE_ONLINE
| MODEM_STATE_COUNT.

Inductive ModemIndexes : Type :=
| MODEM_INDEX_IP_ADDRESS
| MODEM_INDEX_MAC_ADDRESS
| MODEM_INDEX_SW_VERSION
| MODEM_INDEX_HW_VERSION
| MODEM_INDEX_STATUS
| MODEM_INDEX_RX_PACKETS
| MODEM_INDEX_RX_BYTES
| MODEM_INDEX_TX_PACKETS
| MODEM_INDEX_TX_BYTES
| MODEM_INDEX_ONLINE_TIME
| MODEM_INDEX_LOSS_OF_SYNC_COUNT
| MODEM_INDEX_RX_SNR_DB
| MODEM_INDEX_RX_SNR_PERCENT
| MODEM_INDEX_SERIAL_NR
| MODEM_INDEX_RX_PWR_DBM
| MODEM_INDEX_RX_PWR_PERCENT
| MODEM_INDEX_CABLE_RESISTANCE_OHM
| MODEM_INDEX_CABLE_RESISTANCE_PERCENT
| MODEM_INDEX_ODU_TELEMETRY_STATUS
| MODEM_INDEX_CABLE_ATTEN_DB
| MODEM_INDEX_CABLE_ATTEN_PERCENT
| MODEM_INDEX_IFL_TYPE
| MODEM_INDEX_PART_NR
| MODEM_INDEX_MODEM_STATUS
| MODEM_INDEX_SATELLITE_STATUS
| MODEM_INDEX_CLIENT_SIDE_PROXY_STATUS
| MODEM_INDEX_CLIENT_SIDE_PROXY_HEALTH
| MODEM_INDEX_LAST_PAGE_LOAD_DURATION
| MODEM_INDEX_UPLINK_SYMBOL_RATE
| MODEM_INDEX_BDT_VERSION
| MODEM_INDEX_VENDOR
| MODEM_INDEX_DOWNLINK_SYMBOL_RATE
| MODEM_INDEX_DOWNLINK_MODULATION.

(** The value of each enumerator. *)
Definition modemIndexValue (e : ModemIndexes) : nat :=
  match e with
  | MODEM_INDEX_IP_ADDRESS => 0
  | MODEM_INDEX_MAC_ADDRESS => 1
  | MODEM_INDEX_SW_VERSION => 2
  | MODEM_INDEX_HW_VERSION => 3
  | MODEM_INDEX_STATUS => 4
  | MODEM_INDEX_RX_PACKETS => 5
  | MODEM_INDEX_RX_BYTES => 6
  | MODEM_INDEX_TX_PACKETS => 7
  | MODEM_INDEX_TX_BYTES => 8
  | MODEM_INDEX_ONLINE_TIME => 9
  | MODEM_INDEX_LOSS_OF_SYNC_COUNT => 10
  | MODEM_INDEX_RX_SNR_DB => 11
  | MODEM_INDEX_RX_SNR_PERCENT => 12
  | MODEM_INDEX_SERIAL_NR => 13
  | MODEM_INDEX_RX_PWR_DBM => 14
  | MODEM_INDEX_RX_PWR_PERCENT => 15
  | MODEM_INDEX_CABLE_RESISTANCE_OHM => 16
  | MODEM_INDEX_CABLE_RESISTANCE_PERCENT => 17
  | MODEM_INDEX_ODU_TELEMETRY_STATUS => 18
  | MODEM_INDEX_CABLE_ATTEN_DB => 19
  | MODEM_INDEX_CABLE_ATTEN_PERCENT => 20
  | MODEM_INDEX_IFL_TYPE => 21
  | MODEM_INDEX_PART_NR => 22
  | MODEM_INDEX_MODEM_STATUS => 23
  | MODEM_INDEX_SATELLITE_STATUS => 24
  | MODEM_INDEX_CLIENT_SIDE_PROXY_STATUS => 26
  | MODEM_INDEX_CLIENT_SIDE_PROXY_HEALTH => 27
  | MODEM_INDEX_LAST_PAGE_LOAD_DURATION => 30
  | MODEM_INDEX_UPLINK_SYMBOL_RATE => 32
  | MODEM_INDEX_BDT_VERSION => 40
  | MODEM_INDEX_VENDOR => 46
  | MODEM_INDEX_DOWNLINK_SYMBOL_RATE => 50
  | MODEM_INDEX_DOWNLINK_MODULATION => 51
  end.

Definition allModemIndexes : list ModemIndexes :=
  [ MODEM_INDEX_IP_ADDRESS; MODEM_INDEX_MAC_ADDRESS; MODEM_INDEX_SW_VERSION;
    MODEM_INDEX_HW_VERSION; MODEM_INDEX_STATUS; MODEM_INDEX_RX_PACKETS;
    MODEM_INDEX_RX_BYTES; MODEM_INDEX_TX_PACKETS; MODEM_INDEX_TX_BYTES;
    MODEM_INDEX_ONLINE_TIME; MODEM_INDEX_LOSS_OF_SYNC_COUNT; MODEM_INDEX_RX_SNR_DB;
    MODEM_INDEX_RX_SNR_PERCENT; MODEM_INDEX_SERIAL_NR; MODEM_INDEX_RX_PWR_DBM;
    MODEM_INDEX_RX_PWR_PERCENT; MODEM_INDEX_CABLE_RESISTANCE_OHM;
    MODEM_INDEX_CABLE_RESISTANCE_PERCENT; MODEM_INDEX_ODU_TELEMETRY_STATUS;
    MODEM_INDEX_CABLE_ATTEN_DB; MODEM_INDEX_CABLE_ATTEN_PERCENT; MODEM_INDEX_IFL_TYPE;
    MODEM_INDEX_PART_NR; MODEM_INDEX_MODEM_STATUS; MODEM_INDEX_SATELLITE_STATUS;
    MODEM_INDEX_CLIENT_SIDE_PROXY_STATUS; MODEM_INDEX_CLIENT_SIDE_PROXY_HEALTH;
    MODEM_INDEX_LAST_PAGE_LOAD_DURATION; MODEM_INDEX_UPLINK_SYMBOL_RATE;
    MODEM_INDEX_BDT_VERSION; MODEM_INDEX_VENDOR; MODEM_INDEX_DOWNLINK_SYMBOL_RATE;
    MODEM_INDEX_DOWNLINK_MODULATION ].

(** The [case] label a [switch( i )] over [ModemIndexes] jumps to; [None] is
    the [default] label. *)
Definition modemCaseOf (i : nat) : option ModemIndexes :=
  find (fun e => (modemIndexValue e =? i)%nat) allModemIndexes.

Inductive TriaIndexes : Type :=
| TRIA_INDEX_PWR_MODE
| TRIA_INDEX_POLARIZATION_TYPE
| TRIA_INDEX_TX_IF_PWR_DBM
| TRIA_INDEX_IFL_TYPE
| TRIA_INDEX_TEMPERATURE_C
| TRIA_INDEX_SERIAL_NR
| TRIA_INDEX_TX_RF_PWR_DBM
| TRIA_INDEX_FW_VERSION
| TRIA_INDEX_TX_IF_PWR_PERCENT
| TRIA_INDEX_TX_RF_PWR_PERCENT
| TRIA_INDEX_SATELLITE_STATUS
| TRIA_INDEX_VENDOR.

Definition triaIndexValue (e : TriaIndexes) : nat :=
  match e with
  | TRIA_INDEX_PWR_MODE => 4
  | TRIA_INDEX_POLARIZATION_TYPE => 5
  | TRIA_INDEX_TX_IF_PWR_DBM => 7
  | TRIA_INDEX_IFL_TYPE => 9
  | TRIA_INDEX_TEMPERATURE_C => 10
  | TRIA_INDEX_SERIAL_NR => 16
  | TRIA_INDEX_TX_RF_PWR_DBM => 17
  | TRIA_INDEX_FW_VERSION => 24
  | TRIA_INDEX_TX_IF_PWR_PERCENT => 25
  | TRIA_INDEX_TX_RF_PWR_PERCENT => 26
  | TRIA_INDEX_SATELLITE_STATUS => 29
  | TRIA_INDEX_VENDOR => 81
  end.

Definition allTriaIndexes : list TriaIndexes :=
  [ TRIA_INDEX_PWR_MODE; TRIA_INDEX_POLARIZATION_TYPE; TRIA_INDEX_TX_IF_PWR_DBM;
    TRIA_INDEX_IFL_TYPE; TRIA_INDEX_TEMPERATURE_C; TRIA_INDEX_SERIAL_NR;
    TRIA_INDEX_TX_RF_PWR_DBM; TRIA_INDEX_FW_VERSION; TRIA_INDEX_TX_IF_PWR_PERCENT;
    TRIA_INDEX_TX_RF_PWR_PERCENT; TRIA_INDEX_SATELLITE_STATUS; TRIA_INDEX_VENDOR ].

Definition triaCaseOf (i : nat) : option TriaIndexes :=
  find (fun e => (triaIndexValue e =? i)%nat) allTriaIndexes.

(** The struct [ModemInfo]. *)
Module ModemInfo.

Record t : Type := mk {
  IpAddress : QString;
  MacAddress : QString;
  SwVersion : QString;
  HwVersion : QString;
  ModemStatusLabel : QString;
  TxPackets : uint64_t;
  TxBytes : uint64_t;
  RxPackets : uint64_t;
  RxBytes : uint64_t;
  OnlineTime : QString;
  LossOfSyncCount : uint32_t;
  RxSnrDb : double;
  RxSnrPercent : uint8_t;
  SerialNumber : QString;
  RxPwrDbm : double;
  RxPwrPercent : uint8_t;
  CableResistanceOhm : double;
  CableResistancePercent : uint8_t;
  OutdoorUnitTelemetryStatus : QString;
  CableAttenuationDb : double;
  CableAttenuationPercent : uint8_t;
  InterFacilityLinkType : QString;
  PartNr : QString;
  ModemStatus : ModemState;
  SatStatusBeamColor : SatelliteStatusBeamColor;
  ClientSideProxyStatus : QString;
  ClientSideProxyHealth : QString;
  LastPageLoadDuration : QString;
  UplinkSymbolRate : uint32_t;
  BeamDataTableVersion : QString;
  Vendor : QString;
  DownlinkSymbolRate : uint32_t;
  DownlinkModulation : QString
}.

(** The assignment [r.proj = v]: the record rebuilt with [v] in the place of
    [proj r]. *)
Ltac assign proj :=
  let v := fresh "v" in
  let r := fresh "r" in
  intros v r;
  let whole := constr:(mk (IpAddress r) (MacAddress r) (SwVersion r) (HwVersion r)
      (ModemStatusLabel r) (TxPackets r) (TxBytes r) (RxPackets r) (RxBytes r) (OnlineTime
      r) (LossOfSyncCount r) (RxSnrDb r) (RxSnrPercent r) (SerialNumber r) (RxPwrDbm r)
      (RxPwrPercent r) (CableResistanceOhm r) (CableResistancePercent r)
      (OutdoorUnitTelemetryStatus r) (CableAttenuationDb r) (CableAttenuationPercent r)
      (InterFacilityLinkType r) (PartNr r) (ModemStatus r) (SatStatusBeamColor r)
      (ClientSideProxyStatus r) (ClientSideProxyHealth r) (LastPageLoadDuration r)
      (UplinkSymbolRate r) (BeamDataTableVersion r) (Vendor r) (DownlinkSymbolRate r)
      (DownlinkModulation r)) in
  lazymatch eval pattern (proj r) in whole with
  | ?f _ => let res := eval cbv beta in (f v) in exact res
  end.

Definition set_IpAddress : QString -> t -> t := ltac:(assign IpAddress).
Definition set_MacAddress : QString -> t -> t := ltac:(assign MacAddress).
Definition set_SwVersion : QString -> t -> t := ltac:(assign SwVersion).
Definition set_HwVersion : QString -> t -> t := ltac:(assign HwVersion).
Definition set_ModemStatusLabel : QString -> t -> t := ltac:(assign ModemStatusLabel).
Definition set_TxPackets : uint64_t -> t -> t := ltac:(assign TxPackets).
Definition set_TxBytes : uint64_t -> t -> t := ltac:(assign TxBytes).
Definition set_RxPackets : uint64_t -> t -> t := ltac:(assign RxPackets).
Definition set_RxBytes : uint64_t -> t -> t := ltac:(assign RxBytes).
Definition set_OnlineTime : QString -> t -> t := ltac:(assign OnlineTime).
Definition set_LossOfSyncCount : uint32_t -> t -> t := ltac:(assign LossOfSyncCount).
Definition set_RxSnrDb : double -> t -> t := ltac:(assign RxSnrDb).
Definition set_RxSnrPercent : uint8_t -> t -> t := ltac:(assign RxSnrPercent).
Definition set_SerialNumber : QString -> t -> t := ltac:(assign SerialNumber).
Definition set_RxPwrDbm : double -> t -> t := ltac:(assign RxPwrDbm).
Definition set_RxPwrPercent : uint8_t -> t -> t := ltac:(assign RxPwrPercent).
Definition set_CableResistanceOhm : double -> t -> t := ltac:(assign CableResistanceOhm).
Definition set_CableResistancePercent : uint8_t -> t -> t := ltac:(assign CableResistancePercent).
Definition set_OutdoorUnitTelemetryStatus : QString -> t -> t := ltac:(assign OutdoorUnitTelemetryStatus).
Definition set_CableAttenuationDb : double -> t -> t := ltac:(assign CableAttenuationDb).
Definition set_CableAttenuationPercent : uint8_t -> t -> t := ltac:(assign CableAttenuationPercent).
Definition set_InterFacilityLinkType : QString -> t -> t := ltac:(assign InterFacilityLinkType).
Definition set_PartNr : QString -> t -> t := ltac:(assign PartNr).
Definition set_ModemStatus : ModemState -> t -> t := ltac:(assign ModemStatus).
Definition set_SatStatusBeamColor : SatelliteStatusBeamColor -> t -> t := ltac:(assign SatStatusBeamColor).
Definition set_ClientSideProxyStatus : QString -> t -> t := ltac:(assign ClientSideProxyStatus).
Definition set_ClientSideProxyHealth : QString -> t -> t := ltac:(assign ClientSideProxyHealth).
Definition set_LastPageLoadDuration : QString -> t -> t := ltac:(assign LastPageLoadDuration).
Definition set_UplinkSymbolRate : uint32_t -> t -> t := ltac:(assign UplinkSymbolRate).
Definition set_BeamDataTableVersion : QString -> t -> t := ltac:(assign BeamDataTableVersion).
Definition set_Vendor : QString -> t -> t := ltac:(assign Vendor).
Definition set_DownlinkSymbolRate : uint32_t -> t -> t := ltac:(assign DownlinkSymbolRate).
Definition set_DownlinkModulation : QString -> t -> t := ltac:(assign DownlinkModulation).

End ModemInfo.

(** The struct [TriaInfo]. *)
Module TriaInfo.

Record t : Type := mk {
  PwrMode : QString;
  PolarizationType : QString;
  TxIfPwrDbm : double;
  InterFacilityLinkType : QString;
  TemperatureCelsius : double;
  SerialNumber : QString;
  TxRfPwrDbm : double;
  FwVersion : QString;
  TxIfPwrPercent : uint8_t;
  TxRfPwrPercent : uint8_t;
  SatStatusBeamColor : SatelliteStatusBeamColor;
  Vendor : QString
}.

(** The assignment [r.proj = v]: the record rebuilt with [v] in the place of
    [proj r]. *)
Ltac assign proj :=
  let v := fresh "v" in
  let r := fresh "r" in
  intros v r;
  let whole := constr:(mk (PwrMode r) (PolarizationType r) (TxIfPwrDbm r)
      (InterFacilityLinkType r) (TemperatureCelsius r) (SerialNumber r) (TxRfPwrDbm r)
      (FwVersion r) (TxIfPwrPercent r) (TxRfPwrPercent r) (SatStatusBeamColor r) (Vendor
      r)) in
  lazymatch eval pattern (proj r) in whole with
  | ?f _ => let res := eval cbv beta in (f v) in exact res
  end.

Definition set_PwrMode : QString -> t -> t := ltac:(assign PwrMode).
Definition set_PolarizationType : QString -> t -> t := ltac:(assign PolarizationType).
Definition set_TxIfPwrDbm : double -> t -> t := ltac:(assign TxIfPwrDbm).
Definition set_InterFacilityLinkType : QString -> t -> t := ltac:(assign InterFacilityLinkType).
Definition set_TemperatureCelsius : double -> t -> t := ltac:(assign TemperatureCelsius).
Definition set_SerialNumber : QString -> t -> t := ltac:(assign SerialNumber).
Definition set_TxRfPwrDbm : double -> t -> t := ltac:(assign TxRfPwrDbm).
Definition set_FwVersion : QString -> t -> t := ltac:(assign FwVersion).
Definition set_TxIfPwrPercent : uint8_t -> t -> t := ltac:(assign TxIfPwrPercent).
Definition set_TxRfPwrPercent : uint8_t -> t -> t := ltac:(assign TxRfPwrPercent).
Definition set_SatStatusBeamColor : SatelliteStatusBeamColor -> t -> t := ltac:(assign SatStatusBeamColor).
Definition set_Vendor : QString -> t -> t := ltac:(assign Vendor).

End TriaInfo.

(** ** Network replies

    [QNetworkAccessManager::get] creates a reply object and returns a pointer
    to it.  The manager is the list of the replies it has created, a pointer
    is a position in that list.  A reply keeps the bytes that arrived and
    were not read yet, the slots connected to its two signals, and where it is
    in its life: [deleteLater] only schedules the deletion, the event loop
    destroys the object later. *)

Inductive Slot : Type :=
| SLOT_httpFinishedModem
| SLOT_httpFinishedTria
| SLOT_httpReadyReadModem
| SLOT_httpReadyReadTria.

Inductive Lifetime : Type := Alive | DeleteLater | Destroyed.

Record QNetworkReply : Type := mkReply {
  onFinished : list Slot;
  onReadyRead : list Slot;
  unread : QByteArray;
  lifetime : Lifetime
}.

Definition ReplyPtr : Type := nat.
Definition QNetworkAccessManager : Type := list QNetworkReply.

(** The list with [x] at position [i]; the list itself when it has no such
    position. *)
Fixpoint replaceAt {A : Type} (i : nat) (x : A) (l : list A) : list A :=
  match l, i with
  | [], _ => []
  | _ :: l', O => x :: l'
  | y :: l', S i' => y :: replaceAt i' x l'
  end.

Definition setReply (h : ReplyPtr) (r : QNetworkReply) (q : QNetworkAccessManager)
  : QNetworkAccessManager := replaceAt h r q.

(** What a pointer points to; [None] for a pointer to no reply or to a
    destroyed one (using it is undefined in C++). *)
Definition deref (q : QNetworkAccessManager) (h : ReplyPtr) : option QNetworkReply :=
  match nth_error q h with
  | Some r => match lifetime r with
              | Destroyed => None
              | _ => Some r
              end
  | None => None
  end.

Definition newReply : QNetworkReply :=
  {| onFinished := []; onReadyRead := []; unread := EmptyString; lifetime := Alive |}.

Definition connectFinished (h : ReplyPtr) (s : Slot) (q : QNetworkAccessManager)
  : QNetworkAccessManager :=
  match nth_error q h with
  | Some r => setReply h {| onFinished := onFinished r ++ [s]; onReadyRead := onReadyRead r;
                            unread := unread r; lifetime := lifetime r |} q
  | None => q
  end.

Definition connectReadyRead (h : ReplyPtr) (s : Slot) (q : QNetworkAccessManager)
  : QNetworkAccessManager :=
  match nth_error q h with
  | Some r => setReply h {| onFinished := onFinished r; onReadyRead := onReadyRead r ++ [s];
                            unread := unread r; lifetime := lifetime r |} q
  | None => q
  end.

(** [QIODevice::readAll]: the reply after its unread bytes were taken. *)
Definition drained (r : QNetworkReply) : QNetworkReply :=
  {| onFinished := onFinished r; onReadyRead := onReadyRead r;
     unread := EmptyString; lifetime := lifetime r |}.

(** [QObject::deleteLater] on a reply that still exists. *)
Definition scheduled (r : QNetworkReply) : QNetworkReply :=
  {| onFinished := onFinished r; onReadyRead := onReadyRead r;
     unread := unread r; lifetime := DeleteLater |}.

Definition destroyed (r : QNetworkReply) : QNetworkReply :=
  {| onFinished := onFinished r; onReadyRead := onReadyRead r;
     unread := unread r; lifetime := Destroyed |}.

Definition received (bytes : QByteArray) (r : QNetworkReply) : QNetworkReply :=
  {| onFinished := onFinished r; onReadyRead := onReadyRead r;
     unread := unread r ++ bytes; lifetime := lifetime r |}.

(** ** The object: its member variables *)

Record SurfBeam2 : Type := mkSurfBeam2 {
  mModemRawStringsList : QStringList;
  mTriaRawStringsList : QStringList;
  mModemInfo : ModemInfo.t;
  mTriaInfo : TriaInfo.t;
  mQnam : QNetworkAccessManager;
  mReplyModem : ReplyPtr;
  mReplyTria : ReplyPtr;
  mByteArrayModem : QByteArray;
  mByteArrayTria : QByteArray
}.

Ltac assignMember proj :=
  let v := fresh "v" in
  let r := fresh "r" in
  intros v r;
  let whole := constr:(mkSurfBeam2 (mModemRawStringsList r) (mTriaRawStringsList r)
                         (mModemInfo r) (mTriaInfo r) (mQnam r) (mReplyModem r)
                         (mReplyTria r) (mByteArrayModem r) (mByteArrayTria r)) in
  lazymatch eval pattern (proj r) in whole with
  | ?f _ => let res := eval cbv beta in (f v) in exact res
  end.

Definition set_mModemRawStringsList : QStringList -> SurfBeam2 -> SurfBeam2 :=
  ltac:(assignMember mModemRawStringsList).
Definition set_mTriaRawStringsList : QStringList -> SurfBeam2 -> SurfBeam2 :=
  ltac:(assignMember mTriaRawStringsList).
Definition set_mModemInfo : ModemInfo.t -> SurfBeam2 -> SurfBeam2 :=
  ltac:(assignMember mModemInfo).
Definition set_mTriaInfo : TriaInfo.t -> SurfBeam2 -> SurfBeam2 :=
  ltac:(assignMember mTriaInfo).
Definition set_mQnam : QNetworkAccessManager -> SurfBeam2 -> SurfBeam2 :=
  ltac:(assignMember mQnam).
Definition set_mReplyModem : ReplyPtr -> SurfBeam2 -> SurfBeam2 :=
  ltac:(assignMember mReplyModem).
Definition set_mReplyTria : ReplyPtr -> SurfBeam2 -> SurfBeam2 :=
  ltac:(assignMember mReplyTria).
Definition set_mByteArrayModem : QByteArray -> SurfBeam2 -> SurfBeam2 :=
  ltac:(assignMember mByteArrayModem).
Definition set_mByteArrayTria : QByteArray -> SurfBeam2 -> SurfBeam2 :=
  ltac:(assignMember mByteArrayTria).

(** An assignment to a member of [mModemInfo], of [mTriaInfo]. *)
Definition inModemInfo (f : ModemInfo.t -> ModemInfo.t) (this : SurfBeam2) : SurfBeam2 :=
  set_mModemInfo (f (mModemInfo this)) this.

Definition inTriaInfo (f : TriaInfo.t -> TriaInfo.t) (this : SurfBeam2) : SurfBeam2 :=
  set_mTriaInfo (f (mTriaInfo this)) this.

(** ** Field decoder *)

(** The chain of [contains] tests of [case MODEM_INDEX_MODEM_STATUS]. *)
Definition modemStateFromString (stateString : QString) : ModemState :=
  if contains stateString "scanning" CaseInsensitive then MODEM_STATE_SCANNING
  else if contains stateString "ranging" CaseInsensitive then MODEM_STATE_RANGING
  else if contains stateString "network" CaseInsensitive then MODEM_STATE_NETWORK_ENTRY
  else if contains stateString "dhcp" CaseInsensitive then MODEM_STATE_DHCP
  else if contains stateString "online" CaseInsensitive then MODEM_STATE_ONLINE
  else MODEM_STATE_UNKNOWN.

(** The chain of [contains] tests of [case MODEM_INDEX_SATELLITE_STATUS] and
    of [case TRIA_INDEX_SATELLITE_STATUS], the same text in both. *)
Definition beamColorFromString (beamColorString : QString) : SatelliteStatusBeamColor :=
  if contains beamColorString "blue" CaseInsensitive then SATELLITE_STATUS_BEAM_COLOR_BLUE
  else if contains beamColorString "orange" CaseInsensitive
       then SATELLITE_STATUS_BEAM_COLOR_ORANGE
  else if contains beamColorString "purple" CaseInsensitive
       then SATELLITE_STATUS_BEAM_COLOR_PURPLE
  else if contains beamColorString "green" CaseInsensitive
       then SATELLITE_STATUS_BEAM_COLOR_GREEN
  else SATELLITE_STATUS_BEAM_COLOR_UNKNOWN.

(** ** Number to string

    [QString::number( double, format, precision )] for the formats the class
    uses.  ['f']: [precision] digits after the decimal point.  ['g']: at most
    [precision] significant digits, in exponent notation when the decimal
    exponent is below -4 or not below [precision], trailing zeros dropped.
    The value is rounded to the nearest number with that many digits, a tie to
    the even one. *)

Open Scope R_scope.

Inductive NumberFormat : Type := FormatF | FormatG.

Definition roundHalfEven (x : R) : Z :=
  let f := Zfloor x in
  let d := x - IZR f in
  if Rlt_dec d (1 / 2) then f
  else if Rlt_dec (1 / 2) d then (f + 1)%Z
  else if Z.even f then f else (f + 1)%Z.

Definition decimalDigits (n : Z) : string :=
  NilZero.string_of_uint (N.to_uint (Z.to_N n)).

Fixpoint zeros (n : nat) : string :=
  match n with
  | O => EmptyString
  | S k => String "0" (zeros k)
  end.

Definition padLeft (width : nat) (s : string) : string :=
  (zeros (width - String.length s) ++ s)%string.

(** The non-negative number [n / 10 ^ prec] written with [prec] decimals. *)
Definition fixedDigits (n : Z) (prec : nat) : string :=
  let scale := (10 ^ Z.of_nat prec)%Z in
  match prec with
  | O => decimalDigits n
  | _ => (decimalDigits (n / scale) ++ "." ++ padLeft prec (decimalDigits (n mod scale)))%string
  end.

Definition signOf (x : R) : string := if Rlt_dec x 0 then "-"%string else EmptyString.

Definition numberF (x : R) (prec : nat) : string :=
  (signOf x ++ fixedDigits (roundHalfEven (Rabs x * 10 ^ prec)) prec)%string.

(** A digit string without its trailing zeros. *)
Fixpoint dropTrailingZeros (s : string) : string :=
  match s with
  | EmptyString => EmptyString
  | String c s' =>
      match dropTrailingZeros s' with
      | EmptyString => if Ascii.eqb c "0" then EmptyString else String c EmptyString
      | t => String c t
      end
  end.

(** The fraction [digits] after an integer part, nothing when it is all zeros. *)
Definition withFraction (intPart digits : string) : string :=
  match dropTrailingZeros digits with
  | EmptyString => intPart
  | t => (intPart ++ "." ++ t)%string
  end.

Definition exponentText (e : Z) : string :=
  ((if (e <? 0)%Z then "e-" else "e+") ++ padLeft 2 (decimalDigits (Z.abs e)))%string.

Definition numberG (x : R) (precision : nat) : string :=
  let p := match precision with O => 1%nat | _ => precision end in
  if Req_dec_T x 0 then "0"%string
  else
    let e0 := Zfloor (ln (Rabs x) / ln 10) in
    let m0 := roundHalfEven (Rabs x * powerRZ 10 (Z.of_nat p - 1 - e0)) in
    let carry := (10 ^ Z.of_nat p <=? m0)%Z in
    let e := if carry then (e0 + 1)%Z else e0 in
    let m := if carry then (10 ^ (Z.of_nat p - 1))%Z else m0 in
    let body :=
      if ((e <? -4) || (Z.of_nat p <=? e))%Z
      then
        let ds := padLeft p (decimalDigits m) in
        match ds with
        | EmptyString => EmptyString
        | String d rest => (withFraction (String d EmptyString) rest ++ exponentText e)%string
        end
      else
        let decimals := Z.to_nat (Z.of_nat p - 1 - e) in
        let scale := (10 ^ Z.of_nat decimals)%Z in
        withFraction (decimalDigits (m / scale)) (padLeft decimals (decimalDigits (m mod scale)))
    in (signOf x ++ body)%string.

Definition QString_number (x : double) (format : NumberFormat) (precision : nat) : QString :=
  match format with
  | FormatF => numberF x precision
  | FormatG => numberG x precision
  end.

(** ** Derived-metric calculator *)

Definition convertDbmToWatts (aDbm : double) : double :=
  Rpower 10.0 (0.1 * (aDbm - 30.0)).

Definition convertDbmToQstring (aDbm : double) : QString :=
  let pwrWatts := convertDbmToWatts aDbm in
  if Rge_dec (Rabs pwrWatts) 1.0
  then (QString_number pwrWatts FormatF 3 ++ " W")%string
  else if Rge_dec (Rabs pwrWatts) 1.0e-3
  then (QString_number (pwrWatts * 1.0e3) FormatF 1 ++ " mW")%string
  else if Rge_dec (Rabs pwrWatts) 1.0e-6
  then (QString_number (pwrWatts * 1.0e6) FormatF 1 ++ " " ++ MU_SMALL ++ "W")%string
  else if Rge_dec (Rabs pwrWatts) 1.0e-9
  then (QString_number (pwrWatts * 1.0e9) FormatF 1 ++ " nW")%string
  else if Rge_dec (Rabs pwrWatts) 1.0e-12
  then (QString_number (pwrWatts * 1.0e12) FormatF 1 ++ " pW")%string
  else if Rge_dec (Rabs pwrWatts) 1.0e-15
  then (QString_number (pwrWatts * 1.0e15) FormatF 1 ++ " fW")%string
  else (QString_number pwrWatts FormatG 3 ++ " W")%string.

Definition getCableAttenuationPercent (aCableAttenuationDb : double) : double :=
  let percent := 0 in
  if Rge_dec aCableAttenuationDb 0.0 then aCableAttenuationDb * 6.66666 else percent.

Definition getRxPwrPercent (aRxPwrDbm : double) : double :=
  let percent := 0 in
  if Rge_dec aRxPwrDbm (-72.586) then 119.42208 + aRxPwrDbm * 1.64524 else percent.

Definition getRxSnrPercent (aRxSnrDb : double) : double :=
  let percent := 0 in
  if Rge_dec aRxSnrDb (-3.0) then 10.71429 + aRxSnrDb * 3.57143 else percent.

Definition getTxIfPwrPercent (aTxIfPwrDbm : double) : double :=
  let percent := 0 in
  if Rge_dec aTxIfPwrDbm (-35.5) then 137.86408 + aTxIfPwrDbm * 3.8835 else percent.

Definition getTxRfPwrPercent (aTxRfPwrDbm : double) : double :=
  let percent := 0 in
  if Rge_dec aTxRfPwrDbm 14.5 then -56.31068 + aTxRfPwrDbm * 3.8835 else percent.

Close Scope R_scope.

(** *** The percent functions in binary64

    The same five functions over the primitive floats: the constants are
    rounded to the nearest binary64 number, as a C++ compiler rounds them, and
    every operation rounds to nearest-even.  A comparison with a NaN is
    false, so a NaN input takes the [percent = 0] path. *)
Module Binary64.

Open Scope float_scope.

Definition getCableAttenuationPercent (aCableAttenuationDb : float) : float :=
  let percent := 0 in
  if 0.0 <=? aCableAttenuationDb then aCableAttenuationDb * 6.66666 else percent.

Definition getRxPwrPercent (aRxPwrDbm : float) : float :=
  let percent := 0 in
  if -72.586 <=? aRxPwrDbm then 119.42208 + aRxPwrDbm * 1.64524 else percent.

Definition getRxSnrPercent (aRxSnrDb : float) : float :=
  let percent := 0 in
  if -3.0 <=? aRxSnrDb then 10.71429 + aRxSnrDb * 3.57143 else percent.

Definition getTxIfPwrPercent (aTxIfPwrDbm : float) : float :=
  let percent := 0 in
  if -35.5 <=? aTxIfPwrDbm then 137.86408 + aTxIfPwrDbm * 3.8835 else percent.

Definition getTxRfPwrPercent (aTxRfPwrDbm : float) : float :=
  let percent := 0 in
  if 14.5 <=? aTxRfPwrDbm then -56.31068 + aTxRfPwrDbm * 3.8835 else percent.

(** The distance between two values is at most [tol]. *)
Definition within (tol x y : float) : bool := abs (x - y) <=? tol.

(** *** Integers and texts in binary64

    An unsigned integer that is converted to [double] is rounded to the
    nearest binary64 number, a tie to the even one; up to [2 ^ 53] the
    conversion is exact. *)
Definition ofZ (n : Z) : float := SF2Prim (binary_normalize prec emax n 0 false).

Definition ONE_KB : float := 1024.0.
Definition ONE_MB : float := ONE_KB * ONE_KB.
Definition ONE_GB : float := ONE_KB * ONE_MB.

(** The finite number with mantissa [m] and exponent [e] has the value
    [m * 2 ^ e]: the fraction [a / b] with a positive denominator. *)
Definition fraction (m : positive) (e : Z) : Z * Z :=
  if (0 <=? e)%Z then (Z.pos m * 2 ^ e, 1)%Z else (Z.pos m, 2 ^ (- e))%Z.

(** The fraction [a / b] rounded to the nearest integer, a tie to the even
    one, for [0 <= a] and [0 < b]. *)
Definition roundRatio (a b : Z) : Z :=
  let f := (a / b)%Z in
  let twice := (2 * (a mod b))%Z in
  if (twice <? b)%Z then f
  else if (b <? twice)%Z then (f + 1)%Z
  else if Z.even f then f else (f + 1)%Z.

(** [a / b * 10 ^ k], rounded. *)
Definition roundScaled (a b k : Z) : Z :=
  if (0 <=? k)%Z then roundRatio (a * 10 ^ k) b else roundRatio a (b * 10 ^ (- k)).

(** The decimal exponent of [a / b], for [0 < a] and [0 < b]: the [e] with
    [10 ^ e <= a / b < 10 ^ (e + 1)].  It is the difference of the numbers of
    digits of [a] and [b], or one less. *)
Definition decimalExponent (a b : Z) : Z :=
  let e := (Z.of_nat (String.length (decimalDigits a))
            - Z.of_nat (String.length (decimalDigits b)))%Z in
  let reached := if (0 <=? e)%Z then (b * 10 ^ e <=? a)%Z else (b <=? a * 10 ^ (- e))%Z in
  if reached then e else (e - 1)%Z.

(** The general format of the number with the [p] significant digits [m] and
    the decimal exponent [e]: in exponent notation when the exponent is below
    -4 or not below [p], trailing zeros dropped. *)
Definition generalText (p : nat) (m e : Z) : string :=
  if ((e <? -4) || (Z.of_nat p <=? e))%Z
  then
    let ds := padLeft p (decimalDigits m) in
    match ds with
    | EmptyString => EmptyString
    | String d rest => (withFraction (String d EmptyString) rest ++ exponentText e)%string
    end
  else
    let decimals := Z.to_nat (Z.of_nat p - 1 - e) in
    let scale := (10 ^ Z.of_nat decimals)%Z in
    withFraction (decimalDigits (m / scale)) (padLeft decimals (decimalDigits (m mod scale))).

(** The significant digits and the exponent of [a / b] in the general format
    with [precision] digits: a mantissa that rounds up to [10 ^ p] is carried
    into the exponent. *)
Definition generalDigits (a b : Z) (precision : nat) : Z * Z :=
  let p := match precision with O => 1%nat | _ => precision end in
  let e0 := decimalExponent a b in
  let m0 := roundScaled a b (Z.of_nat p - 1 - e0) in
  if (10 ^ Z.of_nat p <=? m0)%Z then ((10 ^ (Z.of_nat p - 1))%Z, (e0 + 1)%Z) else (m0, e0).

Definition minusSign (negative : bool) : string :=
  if negative then "-"%string else EmptyString.

(** [QString::number( double, format, precision )] on a binary64 number: the
    texts of [QString_number] for the value the number has, [inf] and [nan]
    for what is not a number.  The sign is the sign bit. *)
Definition number (x : float) (format : NumberFormat) (precision : nat) : QString :=
  match Prim2SF x with
  | S754_nan => "nan"%string
  | S754_infinity negative => (minusSign negative ++ "inf")%string
  | S754_zero negative =>
      (minusSign negative ++
       match format with
       | FormatF => fixedDigits 0 precision
       | FormatG => "0"
       end)%string
  | S754_finite negative m e =>
      let '(a, b) := fraction m e in
      (minusSign negative ++
       match format with
       | FormatF => fixedDigits (roundScaled a b (Z.of_nat precision)) precision
       | FormatG =>
           let '(digits, exponent) := generalDigits a b precision in
           generalText (match precision with O => 1%nat | _ => precision end) digits exponent
       end)%string
  end.

(** *** The conversion of a level in binary64

    [pow] is the function of the C library; the class calls it with the base
    10.0. *)
Section Power.

Variable pow : float -> float -> float.

Definition convertDbmToWatts (aDbm : float) : float :=
  pow 10.0 (0.1 * (aDbm - 30.0)).

Definition convertDbmToQstring (aDbm : float) : QString :=
  let pwrWatts := convertDbmToWatts aDbm in
  if 1.0 <=? abs pwrWatts
  then (number pwrWatts FormatF 3 ++ " W")%string
  else if 1.0e-3 <=? abs pwrWatts
  then (number (pwrWatts * 1.0e3) FormatF 1 ++ " mW")%string
  else if 1.0e-6 <=? abs pwrWatts
  then (number (pwrWatts * 1.0e6) FormatF 1 ++ " " ++ MU_SMALL ++ "W")%string
  else if 1.0e-9 <=? abs pwrWatts
  then (number (pwrWatts * 1.0e9) FormatF 1 ++ " nW")%string
  else if 1.0e-12 <=? abs pwrWatts
  then (number (pwrWatts * 1.0e12) FormatF 1 ++ " pW")%string
  else if 1.0e-15 <=? abs pwrWatts
  then (number (pwrWatts * 1.0e15) FormatF 1 ++ " fW")%string
  else (number pwrWatts FormatG 3 ++ " W")%string.

End Power.

Close Scope float_scope.

End Binary64.

(** *** The shape of a printed number *)





(** *** The value of a binary64 number

    The real number a finite binary64 number stands for; [0] for the others,
    which the printing functions treat beforehand. *)


Definition toR (x : float) : R :=
  match Prim2SF x with
  | S754_finite negative m e =>
      let magnitude := (IZR (Z.pos m) * powerRZ 2 e)%R in
      if negative then (- magnitude)%R else magnitude
  | _ => 0%R
  end.

(** ** The display

    The form [Ui::SurfBeam2] ([mMainUi]) is generated from a file that is not
    among the sources; it is the record of the widgets the class names.  A
    label holds its text and its style sheet, a progress bar its range, its
    value and its style sheet. *)

Module QLabel.

Record t : Type := mk {
  text : QString;
  styleSheet : QString
}.

Definition setText (s : QString) (w : t) : t :=
  {| text := s; styleSheet := styleSheet w |}.

Definition setStyleSheet (s : QString) (w : t) : t :=
  {| text := text w; styleSheet := s |}.

End QLabel.

Module QProgressBar.

Record t : Type := mk {
  minimum : Z;
  maximum : Z;
  value : Z;
  styleSheet : QString
}.

(** [QProgressBar::setValue]: a value outside the range is ignored, unless
    the range is 0 to 0, which makes the bar a busy indicator. *)
Definition setValue (v : Z) (w : t) : t :=
  if ((maximum w <? v) || (v <? minimum w))%Z
     && (negb (maximum w =? 0)%Z || negb (minimum w =? 0)%Z)
  then w
  else {| minimum := minimum w; maximum := maximum w; value := v;
          styleSheet := styleSheet w |}.

Definition setStyleSheet (s : QString) (w : t) : t :=
  {| minimum := minimum w; maximum := maximum w; value := value w; styleSheet := s |}.

End QProgressBar.

Module Ui.

Record t : Type := mk {
  modemStateLabel : QLabel.t;
  onlineTimeLabel : QLabel.t;
  ipAddressLabel : QLabel.t;
  oduTelemetryLabel : QLabel.t;
  modemColorLabel : QLabel.t;
  modemSerialNumberLabel : QLabel.t;
  partNumberLabel : QLabel.t;
  hardwareVersionLabel : QLabel.t;
  softwareVersionLabel : QLabel.t;
  macAddressLabel : QLabel.t;
  symbolRateFwdLabel : QLabel.t;
  symbolRateReturnLabel : QLabel.t;
  modulationLabel : QLabel.t;
  triaSerialNumberLabel : QLabel.t;
  firmwareVersionLabel : QLabel.t;
  temperatureLabel : QLabel.t;
  polarizationLabel : QLabel.t;
  triaColorLabel : QLabel.t;
  txPacketsLabel : QLabel.t;
  txBytesLabel : QLabel.t;
  txBytesStatic : QLabel.t;
  rxPacketsLabel : QLabel.t;
  rxBytesLabel : QLabel.t;
  rxBytesStatic : QLabel.t;
  rxSnrLabel : QLabel.t;
  rxRfPowerLabel : QLabel.t;
  txIfPowerLabel : QLabel.t;
  txRfPowerLabel : QLabel.t;
  cableAttenuationLabel : QLabel.t;
  cableResistanceLabel : QLabel.t;
  rxSnrProgressbar : QProgressBar.t;
  rxRfPowerProgressbar : QProgressBar.t;
  txIfPowerProgressbar : QProgressBar.t;
  txRfPowerProgressbar : QProgressBar.t;
  cableAttenuationProgressbar : QProgressBar.t;
  cableResistanceProgressbar : QProgressBar.t
}.

(** The call [mMainUi->proj->f( ... )]: the form rebuilt with [f] applied to
    the widget [proj]. *)
Ltac call proj :=
  let f := fresh "f" in
  let r := fresh "r" in
  intros f r;
  let whole := constr:(mk (modemStateLabel r) (onlineTimeLabel r) (ipAddressLabel r)
      (oduTelemetryLabel r) (modemColorLabel r) (modemSerialNumberLabel r) (partNumberLabel
      r) (hardwareVersionLabel r) (softwareVersionLabel r) (macAddressLabel r)
      (symbolRateFwdLabel r) (symbolRateReturnLabel r) (modulationLabel r)
      (triaSerialNumberLabel r) (firmwareVersionLabel r) (temperatureLabel r)
      (polarizationLabel r) (triaColorLabel r) (txPacketsLabel r) (txBytesLabel r)
      (txBytesStatic r) (rxPacketsLabel r) (rxBytesLabel r) (rxBytesStatic r) (rxSnrLabel r)
      (rxRfPowerLabel r) (txIfPowerLabel r) (txRfPowerLabel r) (cableAttenuationLabel r)
      (cableResistanceLabel r) (rxSnrProgressbar r) (rxRfPowerProgressbar r)
      (txIfPowerProgressbar r) (txRfPowerProgressbar r) (cableAttenuationProgressbar r)
      (cableResistanceProgressbar r)) in
  lazymatch eval pattern (proj r) in whole with
  | ?g _ => let res := eval cbv beta in (g (f (proj r))) in exact res
  end.

Definition on_modemStateLabel : (QLabel.t -> QLabel.t) -> t -> t := ltac:(call modemStateLabel).
Definition on_onlineTimeLabel : (QLabel.t -> QLabel.t) -> t -> t := ltac:(call onlineTimeLabel).
Definition on_ipAddressLabel : (QLabel.t -> QLabel.t) -> t -> t := ltac:(call ipAddressLabel).
Definition on_oduTelemetryLabel : (QLabel.t -> QLabel.t) -> t -> t := ltac:(call oduTelemetryLabel).
Definition on_modemColorLabel : (QLabel.t -> QLabel.t) -> t -> t := ltac:(call modemColorLabel).
Definition on_modemSerialNumberLabel : (QLabel.t -> QLabel.t) -> t -> t := ltac:(call modemSerialNumberLabel).
Definition on_partNumberLabel : (QLabel.t -> QLabel.t) -> t -> t := ltac:(call partNumberLabel).
Definition on_hardwareVersionLabel : (QLabel.t -> QLabel.t) -> t -> t := ltac:(call hardwareVersionLabel).
Definition on_softwareVersionLabel : (QLabel.t -> QLabel.t) -> t -> t := ltac:(call softwareVersionLabel).
Definition on_macAddressLabel : (QLabel.t -> QLabel.t) -> t -> t := ltac:(call macAddressLabel).
Definition on_symbolRateFwdLabel : (QLabel.t -> QLabel.t) -> t -> t := ltac:(call symbolRateFwdLabel).
Definition on_symbolRateReturnLabel : (QLabel.t -> QLabel.t) -> t -> t := ltac:(call symbolRateReturnLabel).
Definition on_modulationLabel : (QLabel.t -> QLabel.t) -> t -> t := ltac:(call modulationLabel).
Definition on_triaSerialNumberLabel : (QLabel.t -> QLabel.t) -> t -> t := ltac:(call triaSerialNumberLabel).
Definition on_firmwareVersionLabel : (QLabel.t -> QLabel.t) -> t -> t := ltac:(call firmwareVersionLabel).
Definition on_temperatureLabel : (QLabel.t -> QLabel.t) -> t -> t := ltac:(call temperatureLabel).
Definition on_polarizationLabel : (QLabel.t -> QLabel.t) -> t -> t := ltac:(call polarizationLabel).
Definition on_triaColorLabel : (QLabel.t -> QLabel.t) -> t -> t := ltac:(call triaColorLabel).
Definition on_txPacketsLabel : (QLabel.t -> QLabel.t) -> t -> t := ltac:(call txPacketsLabel).
Definition on_txBytesLabel : (QLabel.t -> QLabel.t) -> t -> t := ltac:(call txBytesLabel).
Definition on_txBytesStatic : (QLabel.t -> QLabel.t) -> t -> t := ltac:(call txBytesStatic).
Definition on_rxPacketsLabel : (QLabel.t -> QLabel.t) -> t -> t := ltac:(call rxPacketsLabel).
Definition on_rxBytesLabel : (QLabel.t -> QLabel.t) -> t -> t := ltac:(call rxBytesLabel).
Definition on_rxBytesStatic : (QLabel.t -> QLabel.t) -> t -> t := ltac:(call rxBytesStatic).
Definition on_rxSnrLabel : (QLabel.t -> QLabel.t) -> t -> t := ltac:(call rxSnrLabel).
Definition on_rxRfPowerLabel : (QLabel.t -> QLabel.t) -> t -> t := ltac:(call rxRfPowerLabel).
Definition on_txIfPowerLabel : (QLabel.t -> QLabel.t) -> t -> t := ltac:(call txIfPowerLabel).
Definition on_txRfPowerLabel : (QLabel.t -> QLabel.t) -> t -> t := ltac:(call txRfPowerLabel).
Definition on_cableAttenuationLabel : (QLabel.t -> QLabel.t) -> t -> t := ltac:(call cableAttenuationLabel).
Definition on_cableResistanceLabel : (QLabel.t -> QLabel.t) -> t -> t := ltac:(call cableResistanceLabel).
Definition on_rxSnrProgressbar : (QProgressBar.t -> QProgressBar.t) -> t -> t := ltac:(call rxSnrProgressbar).
Definition on_rxRfPowerProgressbar : (QProgressBar.t -> QProgressBar.t) -> t -> t := ltac:(call rxRfPowerProgressbar).
Definition on_txIfPowerProgressbar : (QProgressBar.t -> QProgressBar.t) -> t -> t := ltac:(call txIfPowerProgressbar).
Definition on_txRfPowerProgressbar : (QProgressBar.t -> QProgressBar.t) -> t -> t := ltac:(call txRfPowerProgressbar).
Definition on_cableAttenuationProgressbar : (QProgressBar.t -> QProgressBar.t) -> t -> t := ltac:(call cableAttenuationProgressbar).
Definition on_cableResistanceProgressbar : (QProgressBar.t -> QProgressBar.t) -> t -> t := ltac:(call cableResistanceProgressbar).

End Ui.

Open Scope R_scope.

(** Capital Greek omega, U+03A9, by its UTF-8 bytes. *)
Definition OMEGA_CAPITAL : QString := "Ω".

Definition ONE_KB : double := 1024.0.
Definition ONE_MB : double := ONE_KB * ONE_KB.
Definition ONE_GB : double := ONE_KB * ONE_MB.

(** [QString::number( n )] for an unsigned integer: its decimal digits. *)
Definition QString_number_unsigned (n : Z) : QString := decimalDigits n.

(** The style sheets of the progress bars: the chunk green, yellow, orange
    and red, on a grey ground. *)
Definition STYLE_CHUNK_GREEN : QString :=
  "QProgressBar { background-color: rgb( 191, 191, 191 ); border-radius: 5px; } QProgressBar::chunk { background-color: rgb( 0, 191, 0 ); border-radius: 5px; }".

Definition STYLE_CHUNK_YELLOW : QString :=
  "QProgressBar { background-color: rgb( 191, 191, 191 ); border-radius: 5px; } QProgressBar::chunk { background-color: rgb( 223, 223, 0 ); border-radius: 5px; }".

Definition STYLE_CHUNK_ORANGE : QString :=
  "QProgressBar { background-color: rgb( 191, 191, 191 ); border-radius: 5px; } QProgressBar::chunk { background-color: rgb( 255, 127, 0 ); border-radius: 5px; }".

Definition STYLE_CHUNK_RED : QString :=
  "QProgressBar { background-color: rgb( 191, 191, 191 ); border-radius: 5px; } QProgressBar::chunk { background-color: rgb( 223, 0, 0 ); border-radius: 5px; } ".

(** The constructor's part on the form: [setupUi] builds the widgets, then
    the six progress bars get their style sheet.  [built] stands for what
    [setupUi] builds. *)
Definition SurfBeam2_new_ui (built : Ui.t) : Ui.t :=
  let ui := built in
  let ui := Ui.on_rxSnrProgressbar (QProgressBar.setStyleSheet STYLE_CHUNK_GREEN) ui in
  let ui := Ui.on_rxRfPowerProgressbar (QProgressBar.setStyleSheet STYLE_CHUNK_GREEN) ui in
  let ui := Ui.on_txIfPowerProgressbar (QProgressBar.setStyleSheet STYLE_CHUNK_GREEN) ui in
  let ui := Ui.on_txRfPowerProgressbar (QProgressBar.setStyleSheet STYLE_CHUNK_GREEN) ui in
  let ui := Ui.on_cableAttenuationProgressbar (QProgressBar.setStyleSheet STYLE_CHUNK_GREEN) ui in
  let ui := Ui.on_cableResistanceProgressbar (QProgressBar.setStyleSheet STYLE_CHUNK_GREEN) ui in
  ui.

(** [updateContent]: every widget is set from the two records.  An unsigned
    member that meets a [double] is converted to it.  In a comparison with a
    whole constant that is decided on the integers ([IZR]): the conversion is
    monotone and a [double] holds the constant.  In a quotient the member is
    converted and divided in binary64 ([Binary64.ofZ]), and the quotient is
    what [QString::number] prints. *)
Definition updateContent (this : SurfBeam2) (ui : Ui.t) : Ui.t :=
  let mModemInfo := mModemInfo this in
  let mTriaInfo := mTriaInfo this in
  (* Modem State *)
  let ui := Ui.on_modemStateLabel (QLabel.setText (ModemInfo.ModemStatusLabel mModemInfo)) ui in
  let ui := Ui.on_onlineTimeLabel (QLabel.setText (ModemInfo.OnlineTime mModemInfo)) ui in
  let ui := Ui.on_ipAddressLabel (QLabel.setText (ModemInfo.IpAddress mModemInfo)) ui in
  let ui := Ui.on_oduTelemetryLabel
              (QLabel.setText (ModemInfo.OutdoorUnitTelemetryStatus mModemInfo)) ui in
  let '(colorString, ui) :=
    match ModemInfo.SatStatusBeamColor mModemInfo with
    | SATELLITE_STATUS_BEAM_COLOR_BLUE =>
        ("Blue"%string,
         Ui.on_modemColorLabel (QLabel.setStyleSheet "QLabel { color : blue; }") ui)
    | SATELLITE_STATUS_BEAM_COLOR_ORANGE =>
        ("Orange"%string,
         Ui.on_modemColorLabel (QLabel.setStyleSheet "QLabel { color : orange; }") ui)
    | SATELLITE_STATUS_BEAM_COLOR_PURPLE =>
        ("Purple"%string,
         Ui.on_modemColorLabel (QLabel.setStyleSheet "QLabel { color : purple; }") ui)
    | SATELLITE_STATUS_BEAM_COLOR_GREEN =>
        ("Green"%string,
         Ui.on_modemColorLabel (QLabel.setStyleSheet "QLabel { color : green; }") ui)
    | _ =>
        ("unknown"%string,
         Ui.on_modemColorLabel (QLabel.setStyleSheet "QLabel { color : black; }") ui)
    end in
  let ui := Ui.on_modemColorLabel (QLabel.setText colorString) ui in
  (* Modem Properties *)
  let ui := Ui.on_modemSerialNumberLabel
              (QLabel.setText (ModemInfo.SerialNumber mModemInfo)) ui in
  let ui := Ui.on_partNumberLabel (QLabel.setText (ModemInfo.PartNr mModemInfo)) ui in
  let ui := Ui.on_hardwareVersionLabel (QLabel.setText (ModemInfo.HwVersion mModemInfo)) ui in
  let ui := Ui.on_softwareVersionLabel (QLabel.setText (ModemInfo.SwVersion mModemInfo)) ui in
  let ui := Ui.on_macAddressLabel (QLabel.setText (ModemInfo.MacAddress mModemInfo)) ui in
  let uplinkSR :=
    if Rge_dec (IZR (ModemInfo.UplinkSymbolRate mModemInfo)) 1e6
    then (Binary64.number
            (Binary64.ofZ (ModemInfo.UplinkSymbolRate mModemInfo) / 1.0e6)%float FormatF 3
          ++ " MSym/s")%string
    else if Rge_dec (IZR (ModemInfo.UplinkSymbolRate mModemInfo)) 1e3
    then (Binary64.number
            (Binary64.ofZ (ModemInfo.UplinkSymbolRate mModemInfo) / 1.0e3)%float FormatF 3
          ++ " kSym/s")%string
    else (QString_number_unsigned (ModemInfo.UplinkSymbolRate mModemInfo) ++ " Sym/s")%string in
  let ui := Ui.on_symbolRateFwdLabel (QLabel.setText uplinkSR) ui in
  let downlinkSR :=
    if Rge_dec (IZR (ModemInfo.UplinkSymbolRate mModemInfo)) 1e6
    then (Binary64.number
            (Binary64.ofZ (ModemInfo.DownlinkSymbolRate mModemInfo) / 1.0e6)%float FormatF 3
          ++ " MSym/s")%string
    else if Rge_dec (IZR (ModemInfo.UplinkSymbolRate mModemInfo)) 1e3
    then (Binary64.number
            (Binary64.ofZ (ModemInfo.DownlinkSymbolRate mModemInfo) / 1.0e3)%float FormatF 3
          ++ " kSym/s")%string
    else (QString_number_unsigned (ModemInfo.DownlinkSymbolRate mModemInfo)
          ++ " Sym/s")%string in
  let ui := Ui.on_symbolRateReturnLabel (QLabel.setText downlinkSR) ui in
  let ui := Ui.on_modulationLabel
              (QLabel.setText (ModemInfo.DownlinkModulation mModemInfo)) ui in
  (* TRIA Properties *)
  let ui := Ui.on_triaSerialNumberLabel (QLabel.setText (TriaInfo.SerialNumber mTriaInfo)) ui in
  let ui := Ui.on_firmwareVersionLabel (QLabel.setText (TriaInfo.FwVersion mTriaInfo)) ui in
  let ui := Ui.on_temperatureLabel
              (QLabel.setText
                 (QString_number (TriaInfo.TemperatureCelsius mTriaInfo) FormatG 6
                  ++ " °C")%string) ui in
  let polString := "unknown"%string in
  let polString :=
    if contains (TriaInfo.PolarizationType mTriaInfo) "left" CaseInsensitive
    then "Circular Left"%string
    else if contains (TriaInfo.PolarizationType mTriaInfo) "right" CaseInsensitive
    then "Circular Right"%string
    else if contains (TriaInfo.PolarizationType mTriaInfo) "horiz" CaseInsensitive
    then "Horizontal"%string
    else if contains (TriaInfo.PolarizationType mTriaInfo) "vert" CaseInsensitive
    then "Vertical"%string
    else polString in
  let ui := Ui.on_polarizationLabel (QLabel.setText polString) ui in
  let '(colorString, ui) :=
    match TriaInfo.SatStatusBeamColor mTriaInfo with
    | SATELLITE_STATUS_BEAM_COLOR_BLUE =>
        ("Blue"%string,
         Ui.on_triaColorLabel (QLabel.setStyleSheet "QLabel { color : blue; }") ui)
    | SATELLITE_STATUS_BEAM_COLOR_ORANGE =>
        ("Orange"%string,
         Ui.on_triaColorLabel (QLabel.setStyleSheet "QLabel { color : orange; }") ui)
    | SATELLITE_STATUS_BEAM_COLOR_PURPLE =>
        ("Purple"%string,
         Ui.on_triaColorLabel (QLabel.setStyleSheet "QLabel { color : purple; }") ui)
    | SATELLITE_STATUS_BEAM_COLOR_GREEN =>
        ("Green"%string,
         Ui.on_triaColorLabel (QLabel.setStyleSheet "QLabel { color : green; }") ui)
    | _ =>
        ("unknown"%string,
         Ui.on_triaColorLabel (QLabel.setStyleSheet "QLabel { color : black; }") ui)
    end in
  let ui := Ui.on_triaColorLabel (QLabel.setText colorString) ui in
  (* Ethernet Tx *)
  let ui := Ui.on_txPacketsLabel
              (QLabel.setText (QString_number_unsigned (ModemInfo.TxPackets mModemInfo))) ui in
  let '(amount, units) :=
    if Rge_dec (IZR (ModemInfo.TxBytes mModemInfo)) ONE_GB
    then (Binary64.number
            (Binary64.ofZ (ModemInfo.TxBytes mModemInfo) / Binary64.ONE_GB)%float FormatF 3,
          "GBytes"%string)
    else if Rge_dec (IZR (ModemInfo.TxBytes mModemInfo)) ONE_MB
    then (Binary64.number
            (Binary64.ofZ (ModemInfo.TxBytes mModemInfo) / Binary64.ONE_MB)%float FormatF 3,
          "MBytes"%string)
    else if Rge_dec (IZR (ModemInfo.TxBytes mModemInfo)) ONE_KB
    then (Binary64.number
            (Binary64.ofZ (ModemInfo.TxBytes mModemInfo) / Binary64.ONE_KB)%float FormatF 3,
          "kBytes"%string)
    else (QString_number_unsigned (ModemInfo.TxBytes mModemInfo), "Bytes"%string) in
  let ui := Ui.on_txBytesLabel (QLabel.setText amount) ui in
  let ui := Ui.on_txBytesStatic (QLabel.setText units) ui in
  (* Ethernet Rx *)
  let ui := Ui.on_rxPacketsLabel
              (QLabel.setText (QString_number_unsigned (ModemInfo.RxPackets mModemInfo))) ui in
  let '(amount, units) :=
    if Rge_dec (IZR (ModemInfo.RxBytes mModemInfo)) ONE_GB
    then (Binary64.number
            (Binary64.ofZ (ModemInfo.RxBytes mModemInfo) / Binary64.ONE_GB)%float FormatF 3,
          "GBytes"%string)
    else if Rge_dec (IZR (ModemInfo.RxBytes mModemInfo)) ONE_MB
    then (Binary64.number
            (Binary64.ofZ (ModemInfo.RxBytes mModemInfo) / Binary64.ONE_MB)%float FormatF 3,
          "MBytes"%string)
    else if Rge_dec (IZR (ModemInfo.RxBytes mModemInfo)) ONE_KB
    then (Binary64.number
            (Binary64.ofZ (ModemInfo.RxBytes mModemInfo) / Binary64.ONE_KB)%float FormatF 3,
          "kBytes"%string)
    else (QString_number_unsigned (ModemInfo.RxBytes mModemInfo), "Bytes"%string) in
  let ui := Ui.on_rxBytesLabel (QLabel.setText amount) ui in
  let ui := Ui.on_rxBytesStatic (QLabel.setText units) ui in
  (* RF Rx *)
  let ui := Ui.on_rxSnrLabel
              (QLabel.setText
                 (QString_number (ModemInfo.RxSnrDb mModemInfo) FormatF 1 ++ " dB")%string) ui in
  let ui := Ui.on_rxSnrProgressbar
              (QProgressBar.setValue (ModemInfo.RxSnrPercent mModemInfo)) ui in
  let ui :=
    if Rge_dec (ModemInfo.RxSnrDb mModemInfo) 10
    then Ui.on_rxSnrProgressbar (QProgressBar.setStyleSheet STYLE_CHUNK_GREEN) ui
    else if Rge_dec (ModemInfo.RxSnrDb mModemInfo) 7
    then Ui.on_rxSnrProgressbar (QProgressBar.setStyleSheet STYLE_CHUNK_YELLOW) ui
    else if Rge_dec (ModemInfo.RxSnrDb mModemInfo) 4
    then Ui.on_rxSnrProgressbar (QProgressBar.setStyleSheet STYLE_CHUNK_ORANGE) ui
    else Ui.on_rxSnrProgressbar (QProgressBar.setStyleSheet STYLE_CHUNK_RED) ui in
  let ui := Ui.on_rxRfPowerLabel
              (QLabel.setText
                 (QString_number (ModemInfo.RxPwrDbm mModemInfo) FormatF 1 ++ " dBm / "
                  ++ convertDbmToQstring (ModemInfo.RxPwrDbm mModemInfo))%string) ui in
  let ui := Ui.on_rxRfPowerProgressbar
              (QProgressBar.setValue (ModemInfo.RxPwrPercent mModemInfo)) ui in
  (* RF Tx *)
  let ui := Ui.on_txIfPowerLabel
              (QLabel.setText
                 (QString_number (TriaInfo.TxIfPwrDbm mTriaInfo) FormatF 1 ++ " dBm / "
                  ++ convertDbmToQstring (TriaInfo.TxIfPwrDbm mTriaInfo))%string) ui in
  let ui := Ui.on_txIfPowerProgressbar
              (QProgressBar.setValue (TriaInfo.TxIfPwrPercent mTriaInfo)) ui in
  let ui := Ui.on_txRfPowerLabel
              (QLabel.setText
                 (QString_number (TriaInfo.TxRfPwrDbm mTriaInfo) FormatF 1 ++ " dBm / "
                  ++ convertDbmToQstring (TriaInfo.TxRfPwrDbm mTriaInfo))%string) ui in
  let ui := Ui.on_txRfPowerProgressbar
              (QProgressBar.setValue (TriaInfo.TxRfPwrPercent mTriaInfo)) ui in
  (* Cable *)
  let ui := Ui.on_cableAttenuationLabel
              (QLabel.setText
                 (QString_number (ModemInfo.CableAttenuationDb mModemInfo) FormatF 1
                  ++ " dB")%string) ui in
  let ui := Ui.on_cableAttenuationProgressbar
              (QProgressBar.setValue (ModemInfo.CableAttenuationPercent mModemInfo)) ui in
  let ui := Ui.on_cableResistanceLabel
              (QLabel.setText
                 (QString_number (ModemInfo.CableResistanceOhm mModemInfo) FormatF 1
                  ++ " " ++ OMEGA_CAPITAL)%string) ui in
  let ui := Ui.on_cableResistanceProgressbar
              (QProgressBar.setValue (ModemInfo.CableResistancePercent mModemInfo)) ui in
  ui.

(** *** What [updateContent] shows

    The texts and the style sheets [updateContent] sets, each as a function
    of the members it is computed from. *)

Definition colorName (c : SatelliteStatusBeamColor) : QString :=
  match c with
  | SATELLITE_STATUS_BEAM_COLOR_BLUE => "Blue"
  | SATELLITE_STATUS_BEAM_COLOR_ORANGE => "Orange"
  | SATELLITE_STATUS_BEAM_COLOR_PURPLE => "Purple"
  | SATELLITE_STATUS_BEAM_COLOR_GREEN => "Green"
  | _ => "unknown"
  end.

Definition colorStyle (c : SatelliteStatusBeamColor) : QString :=
  match c with
  | SATELLITE_STATUS_BEAM_COLOR_BLUE => "QLabel { color : blue; }"
  | SATELLITE_STATUS_BEAM_COLOR_ORANGE => "QLabel { color : orange; }"
  | SATELLITE_STATUS_BEAM_COLOR_PURPLE => "QLabel { color : purple; }"
  | SATELLITE_STATUS_BEAM_COLOR_GREEN => "QLabel { color : green; }"
  | _ => "QLabel { color : black; }"
  end.

(** The text of a symbol-rate label: the unit is chosen by [uplink], the
    number shown is [rate]. *)
Definition symbolRateText (uplink rate : uint32_t) : QString :=
  if Rge_dec (IZR uplink) 1e6
  then (Binary64.number (Binary64.ofZ rate / 1.0e6)%float FormatF 3 ++ " MSym/s")%string
  else if Rge_dec (IZR uplink) 1e3
  then (Binary64.number (Binary64.ofZ rate / 1.0e3)%float FormatF 3 ++ " kSym/s")%string
  else (QString_number_unsigned rate ++ " Sym/s")%string.

Definition temperatureText (celsius : double) : QString :=
  (QString_number celsius FormatG 6 ++ " °C")%string.

Definition polarizationText (polarizationType : QString) : QString :=
  if contains polarizationType "left" CaseInsensitive then "Circular Left"%string
  else if contains polarizationType "right" CaseInsensitive then "Circular Right"%string
  else if contains polarizationType "horiz" CaseInsensitive then "Horizontal"%string
  else if contains polarizationType "vert" CaseInsensitive then "Vertical"%string
  else "unknown"%string.

Definition bytesAmount (bytes : uint64_t) : QString :=
  if Rge_dec (IZR bytes) ONE_GB
  then Binary64.number (Binary64.ofZ bytes / Binary64.ONE_GB)%float FormatF 3
  else if Rge_dec (IZR bytes) ONE_MB
  then Binary64.number (Binary64.ofZ bytes / Binary64.ONE_MB)%float FormatF 3
  else if Rge_dec (IZR bytes) ONE_KB
  then Binary64.number (Binary64.ofZ bytes / Binary64.ONE_KB)%float FormatF 3
  else QString_number_unsigned bytes.

Definition bytesUnits (bytes : uint64_t) : QString :=
  if Rge_dec (IZR bytes) ONE_GB then "GBytes"%string
  else if Rge_dec (IZR bytes) ONE_MB then "MBytes"%string
  else if Rge_dec (IZR bytes) ONE_KB then "kBytes"%string
  else "Bytes"%string.

Definition snrStyle (aRxSnrDb : double) : QString :=
  if Rge_dec aRxSnrDb 10 then STYLE_CHUNK_GREEN
  else if Rge_dec aRxSnrDb 7 then STYLE_CHUNK_YELLOW
  else if Rge_dec aRxSnrDb 4 then STYLE_CHUNK_ORANGE
  else STYLE_CHUNK_RED.

(** A level with one decimal and its unit. *)
Definition levelText (x : double) (unit : QString) : QString :=
  (QString_number x FormatF 1 ++ unit)%string.

Definition powerText (aDbm : double) : QString :=
  (QString_number aDbm FormatF 1 ++ " dBm / " ++ convertDbmToQstring aDbm)%string.

(** The form [updateContent] leaves, widget by widget. *)
Definition rendered (this : SurfBeam2) (ui : Ui.t) : Ui.t :=
  {|   Ui.modemStateLabel :=
       QLabel.setText (ModemInfo.ModemStatusLabel (mModemInfo this)) (Ui.modemStateLabel ui);
     Ui.onlineTimeLabel :=
       QLabel.setText (ModemInfo.OnlineTime (mModemInfo this)) (Ui.onlineTimeLabel ui);
     Ui.ipAddressLabel :=
       QLabel.setText (ModemInfo.IpAddress (mModemInfo this)) (Ui.ipAddressLabel ui);
     Ui.oduTelemetryLabel :=
       QLabel.setText (ModemInfo.OutdoorUnitTelemetryStatus (mModemInfo this)) (Ui.oduTelemetryLabel ui);
     Ui.modemColorLabel :=
       QLabel.setText (colorName (ModemInfo.SatStatusBeamColor (mModemInfo this)))
         (QLabel.setStyleSheet (colorStyle (ModemInfo.SatStatusBeamColor (mModemInfo this))) (Ui.modemColorLabel ui));
     Ui.modemSerialNumberLabel :=
       QLabel.setText (ModemInfo.SerialNumber (mModemInfo this)) (Ui.modemSerialNumberLabel ui);
     Ui.partNumberLabel :=
       QLabel.setText (ModemInfo.PartNr (mModemInfo this)) (Ui.partNumberLabel ui);
     Ui.hardwareVersionLabel :=
       QLabel.setText (ModemInfo.HwVersion (mModemInfo this)) (Ui.hardwareVersionLabel ui);
     Ui.softwareVersionLabel :=
       QLabel.setText (ModemInfo.SwVersion (mModemInfo this)) (Ui.softwareVersionLabel ui);
     Ui.macAddressLabel :=
       QLabel.setText (ModemInfo.MacAddress (mModemInfo this)) (Ui.macAddressLabel ui);
     Ui.symbolRateFwdLabel :=
       QLabel.setText (symbolRateText (ModemInfo.UplinkSymbolRate (mModemInfo this)) (ModemInfo.UplinkSymbolRate (mModemInfo this))) (Ui.symbolRateFwdLabel ui);
     Ui.symbolRateReturnLabel :=
       QLabel.setText (symbolRateText (ModemInfo.UplinkSymbolRate (mModemInfo this)) (ModemInfo.DownlinkSymbolRate (mModemInfo this))) (Ui.symbolRateReturnLabel ui);
     Ui.modulationLabel :=
       QLabel.setText (ModemInfo.DownlinkModulation (mModemInfo this)) (Ui.modulationLabel ui);
     Ui.triaSerialNumberLabel :=
       QLabel.setText (TriaInfo.SerialNumber (mTriaInfo this)) (Ui.triaSerialNumberLabel ui);
     Ui.firmwareVersionLabel :=
       QLabel.setText (TriaInfo.FwVersion (mTriaInfo this)) (Ui.firmwareVersionLabel ui);
     Ui.temperatureLabel :=
       QLabel.setText (temperatureText (TriaInfo.TemperatureCelsius (mTriaInfo this))) (Ui.temperatureLabel ui);
     Ui.polarizationLabel :=
       QLabel.setText (polarizationText (TriaInfo.PolarizationType (mTriaInfo this))) (Ui.polarizationLabel ui);
     Ui.triaColorLabel :=
       QLabel.setText (colorName (TriaInfo.SatStatusBeamColor (mTriaInfo this)))
         (QLabel.setStyleSheet (colorStyle (TriaInfo.SatStatusBeamColor (mTriaInfo this))) (Ui.triaColorLabel ui));
     Ui.txPacketsLabel :=
       QLabel.setText (QString_number_unsigned (ModemInfo.TxPackets (mModemInfo this))) (Ui.txPacketsLabel ui);
     Ui.txBytesLabel :=
       QLabel.setText (bytesAmount (ModemInfo.TxBytes (mModemInfo this))) (Ui.txBytesLabel ui);
     Ui.txBytesStatic :=
       QLabel.setText (bytesUnits (ModemInfo.TxBytes (mModemInfo this))) (Ui.txBytesStatic ui);
     Ui.rxPacketsLabel :=
       QLabel.setText (QString_number_unsigned (ModemInfo.RxPackets (mModemInfo this))) (Ui.rxPacketsLabel ui);
     Ui.rxBytesLabel :=
       QLabel.setText (bytesAmount (ModemInfo.RxBytes (mModemInfo this))) (Ui.rxBytesLabel ui);
     Ui.rxBytesStatic :=
       QLabel.setText (bytesUnits (ModemInfo.RxBytes (mModemInfo this))) (Ui.rxBytesStatic ui);
     Ui.rxSnrLabel :=
       QLabel.setText (levelText (ModemInfo.RxSnrDb (mModemInfo this)) " dB") (Ui.rxSnrLabel ui);
     Ui.rxRfPowerLabel :=
       QLabel.setText (powerText (ModemInfo.RxPwrDbm (mModemInfo this))) (Ui.rxRfPowerLabel ui);
     Ui.txIfPowerLabel :=
       QLabel.setText (powerText (TriaInfo.TxIfPwrDbm (mTriaInfo this))) (Ui.txIfPowerLabel ui);
     Ui.txRfPowerLabel :=
       QLabel.setText (powerText (TriaInfo.TxRfPwrDbm (mTriaInfo this))) (Ui.txRfPowerLabel ui);
     Ui.cableAttenuationLabel :=
       QLabel.setText (levelText (ModemInfo.CableAttenuationDb (mModemInfo this)) " dB") (Ui.cableAttenuationLabel ui);
     Ui.cableResistanceLabel :=
       QLabel.setText (levelText (ModemInfo.CableResistanceOhm (mModemInfo this)) (" " ++ OMEGA_CAPITAL)) (Ui.cableResistanceLabel ui);
     Ui.rxSnrProgressbar :=
       QProgressBar.setStyleSheet (snrStyle (ModemInfo.RxSnrDb (mModemInfo this)))
         (QProgressBar.setValue (ModemInfo.RxSnrPercent (mModemInfo this)) (Ui.rxSnrProgressbar ui));
     Ui.rxRfPowerProgressbar :=
       QProgressBar.setValue (ModemInfo.RxPwrPercent (mModemInfo this)) (Ui.rxRfPowerProgressbar ui);
     Ui.txIfPowerProgressbar :=
       QProgressBar.setValue (TriaInfo.TxIfPwrPercent (mTriaInfo this)) (Ui.txIfPowerProgressbar ui);
     Ui.txRfPowerProgressbar :=
       QProgressBar.setValue (TriaInfo.TxRfPwrPercent (mTriaInfo this)) (Ui.txRfPowerProgressbar ui);
     Ui.cableAttenuationProgressbar :=
       QProgressBar.setValue (ModemInfo.CableAttenuationPercent (mModemInfo this)) (Ui.cableAttenuationProgressbar ui);
     Ui.cableResistanceProgressbar :=
       QProgressBar.setValue (ModemInfo.CableResistancePercent (mModemInfo this)) (Ui.cableResistanceProgressbar ui) |}.

(** The members of the two records [updateContent] reads. *)
Definition shownMembers (this : SurfBeam2) :=
  let modem := mModemInfo this in
  let tria := mTriaInfo this in
  ((ModemInfo.ModemStatusLabel modem, ModemInfo.OnlineTime modem, ModemInfo.IpAddress modem,
    ModemInfo.OutdoorUnitTelemetryStatus modem, ModemInfo.SatStatusBeamColor modem,
    ModemInfo.SerialNumber modem, ModemInfo.PartNr modem, ModemInfo.HwVersion modem,
    ModemInfo.SwVersion modem, ModemInfo.MacAddress modem),
   (ModemInfo.UplinkSymbolRate modem, ModemInfo.DownlinkSymbolRate modem,
    ModemInfo.DownlinkModulation modem, ModemInfo.TxPackets modem, ModemInfo.TxBytes modem,
    ModemInfo.RxPackets modem, ModemInfo.RxBytes modem),
   (ModemInfo.RxSnrDb modem, ModemInfo.RxSnrPercent modem, ModemInfo.RxPwrDbm modem,
    ModemInfo.RxPwrPercent modem, ModemInfo.CableAttenuationDb modem,
    ModemInfo.CableAttenuationPercent modem, ModemInfo.CableResistanceOhm modem,
    ModemInfo.CableResistancePercent modem),
   (TriaInfo.SerialNumber tria, TriaInfo.FwVersion tria, TriaInfo.TemperatureCelsius tria,
    TriaInfo.PolarizationType tria, TriaInfo.SatStatusBeamColor tria,
    TriaInfo.TxIfPwrDbm tria, TriaInfo.TxIfPwrPercent tria, TriaInfo.TxRfPwrDbm tria,
    TriaInfo.TxRfPwrPercent tria)).

(** The form with the values of its progress bars left out. *)
Definition unvalued (w : QProgressBar.t) : QProgressBar.t :=
  {| QProgressBar.minimum := QProgressBar.minimum w;
     QProgressBar.maximum := QProgressBar.maximum w;
     QProgressBar.value := 0%Z;
     QProgressBar.styleSheet := QProgressBar.styleSheet w |}.

Definition withoutValues (ui : Ui.t) : Ui.t :=
  let ui := Ui.on_rxSnrProgressbar unvalued ui in
  let ui := Ui.on_rxRfPowerProgressbar unvalued ui in
  let ui := Ui.on_txIfPowerProgressbar unvalued ui in
  let ui := Ui.on_txRfPowerProgressbar unvalued ui in
  let ui := Ui.on_cableAttenuationProgressbar unvalued ui in
  let ui := Ui.on_cableResistanceProgressbar unvalued ui in
  ui.

(** A progress bar after [setValue( percent )]: its range is kept; it shows
    [percent] when the range holds it, and keeps its value when it does not
    (a range from 0 to 0 holds every value). *)
Definition barFollows (percent : Z) (before after : QProgressBar.t) : Prop :=
  QProgressBar.minimum after = QProgressBar.minimum before /\
  QProgressBar.maximum after = QProgressBar.maximum before /\
  ((QProgressBar.minimum before <= percent <= QProgressBar.maximum before)%Z ->
   QProgressBar.value after = percent) /\
  ((percent < QProgressBar.minimum before \/ QProgressBar.maximum before < percent)%Z ->
   (QProgressBar.minimum before <> 0 \/ QProgressBar.maximum before <> 0)%Z ->
   QProgressBar.value after = QProgressBar.value before).

Close Scope R_scope.

(** ** The specification's reading of the decode rules

    Definitions that follow the words of the specification, to be compared
    with the code above. *)

Inductive DecodeError : Type := SchemaMismatch | NumericFormatError | TransportError.

(** "Unsigned integer with grouping: strip all [,] characters, then parse as
    an unsigned 64-bit integer; fails with NumericFormatError if non-numeric
    after stripping." *)
Definition unsignedWithGrouping_spec (raw : QString) : DecodeError + Z :=
  let stripped := remove ","%char raw in
  if isNumeric stripped then inr (toULongLong stripped) else inl NumericFormatError.

(** "Percentage: strip trailing [%], parse as unsigned 16-bit integer." *)
Fixpoint stripTrailingPercent (s : QString) : QString :=
  match s with
  | EmptyString => EmptyString
  | String c EmptyString => if Ascii.eqb c "%" then EmptyString else s
  | String c s' => String c (stripTrailingPercent s')
  end.

Definition percentage_spec (raw : QString) : Z := toUShort (stripTrailingPercent raw).

(** "Categorical text: case-insensitive substring match against a fixed
    ordered list of keywords; first match in list order wins; no match gives
    the Unknown member." *)
Fixpoint firstMatch {A : Type} (keywords : list (QString * A)) (unknown : A)
  (value : QString) : A :=
  match keywords with
  | [] => unknown
  | (keyword, member) :: rest =>
      if contains value keyword CaseInsensitive then member
      else firstMatch rest unknown value
  end.

Definition modemStatusKeywords : list (QString * ModemState) :=
  [ ("scanning", MODEM_STATE_SCANNING); ("ranging", MODEM_STATE_RANGING);
    ("network", MODEM_STATE_NETWORK_ENTRY); ("dhcp", MODEM_STATE_DHCP);
    ("online", MODEM_STATE_ONLINE) ].

Definition beamColorKeywords : list (QString * SatelliteStatusBeamColor) :=
  [ ("blue", SATELLITE_STATUS_BEAM_COLOR_BLUE); ("orange", SATELLITE_STATUS_BEAM_COLOR_ORANGE);
    ("purple", SATELLITE_STATUS_BEAM_COLOR_PURPLE); ("green", SATELLITE_STATUS_BEAM_COLOR_GREEN) ].

(** The text with its letters folded to lower case. *)
Fixpoint folded (s : QString) : QString :=
  match s with
  | EmptyString => EmptyString
  | String c s' => String (foldCase c) (folded s')
  end.

(** The distance between two values is at most [tol]. *)
Definition within (tol x y : R) : Prop := (Rabs (x - y) <= tol)%R.

(** ** Sample data

    An instance of the two parameters of the decoder: [unsigned long] of 64
    bits, and a reader of plain decimal numbers ([-55.2], [9.5]) for
    [QString::toDouble]. *)

Definition ULONG_MAX_LP64 : Z := 2 ^ 64 - 1.

Fixpoint readFraction (num scale : Z) (s : QString) : option (Z * Z) :=
  match s with
  | EmptyString => Some (num, scale)
  | String c s' =>
      match digitValue c with
      | Some d => readFraction (10 * num + d) (10 * scale) s'
      | None => None
      end
  end.

Fixpoint readMantissa (num : Z) (s : QString) : option (Z * Z) :=
  match s with
  | EmptyString => Some (num, 1%Z)
  | String c s' =>
      if Ascii.eqb c "." then readFraction num 1 s'
      else match digitValue c with
           | Some d => readMantissa (10 * num + d) s'
           | None => None
           end
  end.

Definition plainDecimal (s : QString) : double :=
  let t := trimmed s in
  let negative := startsWith CaseSensitive "-" t in
  let body := match t with
              | String c t' => if Ascii.eqb c "-" || Ascii.eqb c "+" then t' else t
              | EmptyString => t
              end in
  match body, readMantissa 0 body with
  | String _ _, Some (n, scale) =>
      ((if negative then -1 else 1) * IZR n / IZR scale)%R
  | _, _ => 0%R
  end.


(** A modem page of 81 fields and an outdoor-unit page of 84 fields. *)
Definition sampleModemFields : QStringList :=
  ([ "192.168.100.1"; "00:A0:BC:12:34:56"; "UT_3.7.8.9.5"; "UT_7 P3_V1"; "Online";
    "1,234,567"; "987,654,321"; "765,432"; "123,456,789"; "000:01:02:03"; "2";
    "9.5"; "45%"; "1234567890"; "-55.2"; "47%"; "2.1"; "10%"; "Active"; "5.0";
    "33%"; "Single"; "1119922"; "Online"; "Purple"; ""; "Enabled"; "Good"; ""; "";
    "1.2"; ""; "625000"; ""; ""; ""; ""; ""; ""; ""; "12"; ""; ""; ""; ""; "";
    "ViaSat"; ""; ""; ""; "10000000"; "8PSK" ] ++ repeat "" 29)%list.

Definition sampleTriaFields : QStringList :=
  ([ ""; ""; ""; ""; "High"; "Left"; ""; "-12.5"; ""; "Single"; "31.0" ]
  ++ repeat "" 5 ++ [ "TRIA0001"; "38.2" ] ++ repeat "" 6
  ++ [ "1.2.3"; "59%"; "92%"; ""; ""; "Purple" ] ++ repeat "" 51
  ++ [ "ViaSat"; ""; "" ])%list.

Definition sampleModemPage : QByteArray := String.concat FIELD_DELIMITER sampleModemFields.
Definition sampleTriaPage : QByteArray := String.concat FIELD_DELIMITER sampleTriaFields.

Definition blankModemInfo : ModemInfo.t :=
  ModemInfo.mk "" "" "" "" "" 0%Z 0%Z 0%Z 0%Z "" 0%Z 0%R 0%Z "" 0%R 0%Z 0%R 0%Z "" 0%R 0%Z
    "" "" MODEM_STATE_UNKNOWN SATELLITE_STATUS_BEAM_COLOR_UNKNOWN "" "" "" 0%Z "" "" 0%Z "".

Definition blankTriaInfo : TriaInfo.t :=
  TriaInfo.mk "" "" 0%R "" 0%R "" 0%R "" 0%Z 0%Z SATELLITE_STATUS_BEAM_COLOR_UNKNOWN "".

(** A form as [setupUi] may build it: labels without text, bars from 0 to 100
    at 0. *)
Definition blankLabel : QLabel.t :=
  {| QLabel.text := EmptyString; QLabel.styleSheet := EmptyString |}.

Definition blankBar : QProgressBar.t :=
  {| QProgressBar.minimum := 0; QProgressBar.maximum := 100; QProgressBar.value := 0;
     QProgressBar.styleSheet := EmptyString |}.

Definition blankUi : Ui.t :=
  Ui.mk blankLabel blankLabel blankLabel blankLabel blankLabel blankLabel blankLabel
    blankLabel blankLabel blankLabel blankLabel blankLabel blankLabel blankLabel blankLabel
    blankLabel blankLabel blankLabel blankLabel blankLabel blankLabel blankLabel blankLabel
    blankLabel blankLabel blankLabel blankLabel blankLabel blankLabel blankLabel
    blankBar blankBar blankBar blankBar blankBar blankBar.

Section Decoder.

(** [QString::toDouble] belongs to Qt, and the width of [unsigned long]
    (what [QString::toULong] returns) to the platform: both are parameters. *)
Variable toDouble : QString -> double.
Variable ULONG_MAX : Z.

Definition toULong (s : QString) : Z := toIntegral ULONG_MAX s.

(** One pass of the loop body of [updateModemInfo]: the [switch( i )]. *)
Definition updateModemInfo_body (i : nat) (this : SurfBeam2) : SurfBeam2 :=
  let at_i := nth i (mModemRawStringsList this) EmptyString in
  match modemCaseOf i with
  | Some MODEM_INDEX_IP_ADDRESS => inModemInfo (ModemInfo.set_IpAddress at_i) this
  | Some MODEM_INDEX_MAC_ADDRESS => inModemInfo (ModemInfo.set_MacAddress at_i) this
  | Some MODEM_INDEX_SW_VERSION => inModemInfo (ModemInfo.set_SwVersion at_i) this
  | Some MODEM_INDEX_HW_VERSION => inModemInfo (ModemInfo.set_HwVersion at_i) this
  | Some MODEM_INDEX_STATUS => inModemInfo (ModemInfo.set_ModemStatusLabel at_i) this
  | Some MODEM_INDEX_TX_PACKETS =>
      let rawString := remove ","%char at_i in
      inModemInfo (ModemInfo.set_TxPackets (toULongLong rawString)) this
  | Some MODEM_INDEX_TX_BYTES =>
      let rawString := remove ","%char at_i in
      inModemInfo (ModemInfo.set_TxBytes (toULongLong rawString)) this
  | Some MODEM_INDEX_RX_PACKETS =>
      let rawString := remove ","%char at_i in
      inModemInfo (ModemInfo.set_RxPackets (toULongLong rawString)) this
  | Some MODEM_INDEX_RX_BYTES =>
      let rawString := remove ","%char at_i in
      inModemInfo (ModemInfo.set_RxBytes (toULongLong rawString)) this
  | Some MODEM_INDEX_ONLINE_TIME => inModemInfo (ModemInfo.set_OnlineTime at_i) this
  | Some MODEM_INDEX_LOSS_OF_SYNC_COUNT =>
      inModemInfo (ModemInfo.set_LossOfSyncCount (wrap 32 (toULongLong at_i))) this
  | Some MODEM_INDEX_RX_SNR_DB => inModemInfo (ModemInfo.set_RxSnrDb (toDouble at_i)) this
  | Some MODEM_INDEX_RX_SNR_PERCENT =>
      let rawString := remove "%"%char at_i in
      inModemInfo (ModemInfo.set_RxSnrPercent (wrap 8 (toUShort rawString))) this
  | Some MODEM_INDEX_SERIAL_NR => inModemInfo (ModemInfo.set_SerialNumber at_i) this
  | Some MODEM_INDEX_RX_PWR_DBM => inModemInfo (ModemInfo.set_RxPwrDbm (toDouble at_i)) this
  | Some MODEM_INDEX_RX_PWR_PERCENT =>
      let rawString := remove "%"%char at_i in
      inModemInfo (ModemInfo.set_RxPwrPercent (wrap 8 (toUShort rawString))) this
  | Some MODEM_INDEX_CABLE_RESISTANCE_OHM =>
      inModemInfo (ModemInfo.set_CableResistanceOhm (toDouble at_i)) this
  | Some MODEM_INDEX_CABLE_RESISTANCE_PERCENT =>
      let rawString := remove "%"%char at_i in
      inModemInfo (ModemInfo.set_CableResistancePercent (wrap 8 (toUShort rawString))) this
  | Some MODEM_INDEX_ODU_TELEMETRY_STATUS =>
      inModemInfo (ModemInfo.set_OutdoorUnitTelemetryStatus at_i) this
  | Some MODEM_INDEX_CABLE_ATTEN_DB =>
      inModemInfo (ModemInfo.set_CableAttenuationDb (toDouble at_i)) this
  | Some MODEM_INDEX_CABLE_ATTEN_PERCENT =>
      let rawString := remove "%"%char at_i in
      inModemInfo (ModemInfo.set_CableAttenuationPercent (wrap 8 (toUShort rawString))) this
  | Some MODEM_INDEX_IFL_TYPE => inModemInfo (ModemInfo.set_InterFacilityLinkType at_i) this
  | Some MODEM_INDEX_PART_NR => inModemInfo (ModemInfo.set_PartNr at_i) this
  | Some MODEM_INDEX_MODEM_STATUS =>
      let stateString := at_i in
      inModemInfo (ModemInfo.set_ModemStatus (modemStateFromString stateString)) this
  | Some MODEM_INDEX_SATELLITE_STATUS =>
      let beamColorString := at_i in
      inModemInfo (ModemInfo.set_SatStatusBeamColor (beamColorFromString beamColorString)) this
  | Some MODEM_INDEX_CLIENT_SIDE_PROXY_STATUS =>
      inModemInfo (ModemInfo.set_ClientSideProxyStatus at_i) this
  | Some MODEM_INDEX_CLIENT_SIDE_PROXY_HEALTH =>
      inModemInfo (ModemInfo.set_ClientSideProxyHealth at_i) this
  | Some MODEM_INDEX_LAST_PAGE_LOAD_DURATION =>
      inModemInfo (ModemInfo.set_LastPageLoadDuration at_i) this
  | Some MODEM_INDEX_UPLINK_SYMBOL_RATE =>
      inModemInfo (ModemInfo.set_UplinkSymbolRate (wrap 32 (toULong at_i))) this
  | Some MODEM_INDEX_BDT_VERSION => inModemInfo (ModemInfo.set_BeamDataTableVersion at_i) this
  | Some MODEM_INDEX_VENDOR => inModemInfo (ModemInfo.set_Vendor at_i) this
  | Some MODEM_INDEX_DOWNLINK_SYMBOL_RATE =>
      inModemInfo (ModemInfo.set_DownlinkSymbolRate (wrap 32 (toULong at_i))) this
  | Some MODEM_INDEX_DOWNLINK_MODULATION =>
      inModemInfo (ModemInfo.set_DownlinkModulation at_i) this
  | None => this
  end.

(** [for( int i = 0; i < mModemRawStringsList.size(); i++ )]: the body never
    changes the list, so the bound is the size at entry. *)
Definition updateModemInfo (this : SurfBeam2) : SurfBeam2 :=
  fold_left (fun st i => updateModemInfo_body i st)
            (seq 0 (List.length (mModemRawStringsList this))) this.

Definition updateTriaInfo_body (i : nat) (this : SurfBeam2) : SurfBeam2 :=
  let at_i := nth i (mTriaRawStringsList this) EmptyString in
  match triaCaseOf i with
  | Some TRIA_INDEX_PWR_MODE => inTriaInfo (TriaInfo.set_PwrMode at_i) this
  | Some TRIA_INDEX_POLARIZATION_TYPE => inTriaInfo (TriaInfo.set_PolarizationType at_i) this
  | Some TRIA_INDEX_TX_IF_PWR_DBM => inTriaInfo (TriaInfo.set_TxIfPwrDbm (toDouble at_i)) this
  | Some TRIA_INDEX_IFL_TYPE => inTriaInfo (TriaInfo.set_InterFacilityLinkType at_i) this
  | Some TRIA_INDEX_TEMPERATURE_C =>
      inTriaInfo (TriaInfo.set_TemperatureCelsius (toDouble at_i)) this
  | Some TRIA_INDEX_SERIAL_NR => inTriaInfo (TriaInfo.set_SerialNumber at_i) this
  | Some TRIA_INDEX_TX_RF_PWR_DBM => inTriaInfo (TriaInfo.set_TxRfPwrDbm (toDouble at_i)) this
  | Some TRIA_INDEX_FW_VERSION => inTriaInfo (TriaInfo.set_FwVersion at_i) this
  | Some TRIA_INDEX_TX_IF_PWR_PERCENT =>
      let rawString := remove "%"%char at_i in
      inTriaInfo (TriaInfo.set_TxIfPwrPercent (wrap 8 (toUShort rawString))) this
  | Some TRIA_INDEX_TX_RF_PWR_PERCENT =>
      let rawString := remove "%"%char at_i in
      inTriaInfo (TriaInfo.set_TxRfPwrPercent (wrap 8 (toUShort rawString))) this
  | Some TRIA_INDEX_SATELLITE_STATUS =>
      let beamColorString := at_i in
      inTriaInfo (TriaInfo.set_SatStatusBeamColor (beamColorFromString beamColorString)) this
  | Some TRIA_INDEX_VENDOR => inTriaInfo (TriaInfo.set_Vendor at_i) this
  | None => this
  end.

Definition updateTriaInfo (this : SurfBeam2) : SurfBeam2 :=
  fold_left (fun st i => updateTriaInfo_body i st)
            (seq 0 (List.length (mTriaRawStringsList this))) this.

(** ** Poll driver: the slots *)

(** [httpFinishedModem]: the accumulated bytes are split, the record is
    decoded when the number of segments is the expected one, and the reply
    [mReplyModem] points to is asked for its error and scheduled for deletion. *)
Definition httpFinishedModem (this : SurfBeam2) : option SurfBeam2 :=
  let rawString := mByteArrayModem this in
  let this := set_mModemRawStringsList (split rawString FIELD_DELIMITER) this in
  let this := if (FIELD_COUNT_MODEM =? List.length (mModemRawStringsList this))%nat
              then updateModemInfo this
              else this in
  match deref (mQnam this) (mReplyModem this) with
  | Some r => Some (set_mQnam (setReply (mReplyModem this) (scheduled r) (mQnam this)) this)
  | None => None
  end.

Definition httpFinishedTria (this : SurfBeam2) : option SurfBeam2 :=
  let rawString := mByteArrayTria this in
  let this := set_mTriaRawStringsList (split rawString FIELD_DELIMITER) this in
  let this := if (FIELD_COUNT_TRIA =? List.length (mTriaRawStringsList this))%nat
              then updateTriaInfo this
              else this in
  match deref (mQnam this) (mReplyTria this) with
  | Some r => Some (set_mQnam (setReply (mReplyTria this) (scheduled r) (mQnam this)) this)
  | None => None
  end.

(** [mByteArrayModem += mReplyModem->readAll()]. *)
Definition httpReadyReadModem (this : SurfBeam2) : option SurfBeam2 :=
  match deref (mQnam this) (mReplyModem this) with
  | Some r =>
      let this := set_mQnam (setReply (mReplyModem this) (drained r) (mQnam this)) this in
      Some (set_mByteArrayModem (mByteArrayModem this ++ unread r) this)
  | None => None
  end.

Definition httpReadyReadTria (this : SurfBeam2) : option SurfBeam2 :=
  match deref (mQnam this) (mReplyTria this) with
  | Some r =>
      let this := set_mQnam (setReply (mReplyTria this) (drained r) (mQnam this)) this in
      Some (set_mByteArrayTria (mByteArrayTria this ++ unread r) this)
  | None => None
  end.

Definition startCgiRequest (this : SurfBeam2) : SurfBeam2 :=
  let this := set_mByteArrayModem EmptyString this in
  let this := set_mReplyModem (List.length (mQnam this))
                (set_mQnam (mQnam this ++ [newReply])%list this) in
  let this := set_mQnam (connectFinished (mReplyModem this) SLOT_httpFinishedModem
                           (mQnam this)) this in
  let this := set_mQnam (connectReadyRead (mReplyModem this) SLOT_httpReadyReadModem
                           (mQnam this)) this in
  let this := set_mByteArrayTria EmptyString this in
  let this := set_mReplyTria (List.length (mQnam this))
                (set_mQnam (mQnam this ++ [newReply])%list this) in
  let this := set_mQnam (connectFinished (mReplyTria this) SLOT_httpFinishedTria
                           (mQnam this)) this in
  let this := set_mQnam (connectReadyRead (mReplyTria this) SLOT_httpReadyReadTria
                           (mQnam this)) this in
  this.

(** *** The event loop

    What the event loop delivers to the object: the timer's [timeout], bytes
    that arrived for a reply (the reply then emits [readyRead]), the end of a
    reply (it emits [finished]), and the deferred deletion of a reply that was
    scheduled with [deleteLater].  A reply that was destroyed emits nothing. *)

Inductive Event : Type :=
| Timeout
| Arrived (h : ReplyPtr) (bytes : QByteArray)
| Completed (h : ReplyPtr)
| DeferredDelete (h : ReplyPtr).

Definition invoke (s : Slot) (this : SurfBeam2) : option SurfBeam2 :=
  match s with
  | SLOT_httpFinishedModem => httpFinishedModem this
  | SLOT_httpFinishedTria => httpFinishedTria this
  | SLOT_httpReadyReadModem => httpReadyReadModem this
  | SLOT_httpReadyReadTria => httpReadyReadTria this
  end.

(** A signal runs the slots connected to it, in the order of connection. *)
Fixpoint emit (slots : list Slot) (this : SurfBeam2) : option SurfBeam2 :=
  match slots with
  | [] => Some this
  | s :: rest => match invoke s this with
                 | Some this' => emit rest this'
                 | None => None
                 end
  end.

Definition step (this : SurfBeam2) (e : Event) : option SurfBeam2 :=
  match e with
  | Timeout => Some (startCgiRequest this)
  | Arrived h bytes =>
      match deref (mQnam this) h with
      | Some r => emit (onReadyRead r)
                       (set_mQnam (setReply h (received bytes r) (mQnam this)) this)
      | None => Some this
      end
  | Completed h =>
      match deref (mQnam this) h with
      | Some r => emit (onFinished r) this
      | None => Some this
      end
  | DeferredDelete h =>
      match nth_error (mQnam this) h with
      | Some r => match lifetime r with
                  | DeleteLater => Some (set_mQnam (setReply h (destroyed r) (mQnam this)) this)
                  | _ => Some this
                  end
      | None => Some this
      end
  end.

Fixpoint run (this : SurfBeam2) (events : list Event) : option SurfBeam2 :=
  match events with
  | [] => Some this
  | e :: rest => match step this e with
                 | Some this' => run this' rest
                 | None => None
                 end
  end.

(** The constructor: the timer is started and [startCgiRequest] is called
    once.  The scalar members of the two records are not initialised by the
    source; [modem] and [tria] stand for what they hold. *)
Definition SurfBeam2_new (modem : ModemInfo.t) (tria : TriaInfo.t) : SurfBeam2 :=
  startCgiRequest
    {| mModemRawStringsList := []; mTriaRawStringsList := [];
       mModemInfo := modem; mTriaInfo := tria; mQnam := [];
       mReplyModem := 0; mReplyTria := 0;
       mByteArrayModem := EmptyString; mByteArrayTria := EmptyString |}.

(** *** What a decode of a full page yields

    The record [updateModemInfo] leaves for a list of 81 segments: every
    member is assigned, from the segment at its index. *)
Definition modemRecordOf (l : QStringList) : ModemInfo.t :=
  let seg i := nth i l EmptyString in
  {| ModemInfo.IpAddress := seg 0;
     ModemInfo.MacAddress := seg 1;
     ModemInfo.SwVersion := seg 2;
     ModemInfo.HwVersion := seg 3;
     ModemInfo.ModemStatusLabel := seg 4;
     ModemInfo.TxPackets := toULongLong (remove ","%char (seg 7));
     ModemInfo.TxBytes := toULongLong (remove ","%char (seg 8));
     ModemInfo.RxPackets := toULongLong (remove ","%char (seg 5));
     ModemInfo.RxBytes := toULongLong (remove ","%char (seg 6));
     ModemInfo.OnlineTime := seg 9;
     ModemInfo.LossOfSyncCount := wrap 32 (toULongLong (seg 10));
     ModemInfo.RxSnrDb := toDouble (seg 11);
     ModemInfo.RxSnrPercent := wrap 8 (toUShort (remove "%"%char (seg 12)));
     ModemInfo.SerialNumber := seg 13;
     ModemInfo.RxPwrDbm := toDouble (seg 14);
     ModemInfo.RxPwrPercent := wrap 8 (toUShort (remove "%"%char (seg 15)));
     ModemInfo.CableResistanceOhm := toDouble (seg 16);
     ModemInfo.CableResistancePercent := wrap 8 (toUShort (remove "%"%char (seg 17)));
     ModemInfo.OutdoorUnitTelemetryStatus := seg 18;
     ModemInfo.CableAttenuationDb := toDouble (seg 19);
     ModemInfo.CableAttenuationPercent := wrap 8 (toUShort (remove "%"%char (seg 20)));
     ModemInfo.InterFacilityLinkType := seg 21;
     ModemInfo.PartNr := seg 22;
     ModemInfo.ModemStatus := modemStateFromString (seg 23);
     ModemInfo.SatStatusBeamColor := beamColorFromString (seg 24);
     ModemInfo.ClientSideProxyStatus := seg 26;
     ModemInfo.ClientSideProxyHealth := seg 27;
     ModemInfo.LastPageLoadDuration := seg 30;
     ModemInfo.UplinkSymbolRate := wrap 32 (toULong (seg 32));
     ModemInfo.BeamDataTableVersion := seg 40;
     ModemInfo.Vendor := seg 46;
     ModemInfo.DownlinkSymbolRate := wrap 32 (toULong (seg 50));
     ModemInfo.DownlinkModulation := seg 51 |}.

Definition triaRecordOf (l : QStringList) : TriaInfo.t :=
  let seg i := nth i l EmptyString in
  {| TriaInfo.PwrMode := seg 4;
     TriaInfo.PolarizationType := seg 5;
     TriaInfo.TxIfPwrDbm := toDouble (seg 7);
     TriaInfo.InterFacilityLinkType := seg 9;
     TriaInfo.TemperatureCelsius := toDouble (seg 10);
     TriaInfo.SerialNumber := seg 16;
     TriaInfo.TxRfPwrDbm := toDouble (seg 17);
     TriaInfo.FwVersion := seg 24;
     TriaInfo.TxIfPwrPercent := wrap 8 (toUShort (remove "%"%char (seg 25)));
     TriaInfo.TxRfPwrPercent := wrap 8 (toUShort (remove "%"%char (seg 26)));
     TriaInfo.SatStatusBeamColor := beamColorFromString (seg 29);
     TriaInfo.Vendor := seg 81 |}.

(** The members [updateModemInfo] leaves alone are all but [mModemInfo];
    those [updateTriaInfo] leaves alone are all but [mTriaInfo]. *)
Definition outsideModemInfo (this : SurfBeam2) :=
  (mModemRawStringsList this, mTriaRawStringsList this, mTriaInfo this, mQnam this,
   mReplyModem this, mReplyTria this, mByteArrayModem this, mByteArrayTria this).

Definition outsideTriaInfo (this : SurfBeam2) :=
  (mModemRawStringsList this, mTriaRawStringsList this, mModemInfo this, mQnam this,
   mReplyModem this, mReplyTria this, mByteArrayModem this, mByteArrayTria this).

(** *** Superseded replies

    A reply is tracked while [mReplyModem] or [mReplyTria] points to it; the
    next [startCgiRequest] supersedes it. *)
Definition tracked (this : SurfBeam2) (h : ReplyPtr) : bool :=
  (h =? mReplyModem this)%nat || (h =? mReplyTria this)%nat.

Definition records (this : SurfBeam2) : ModemInfo.t * TriaInfo.t :=
  (mModemInfo this, mTriaInfo this).

(** The pointer a slot uses. *)
Definition slotPointer (this : SurfBeam2) (s : Slot) : ReplyPtr :=
  match s with
  | SLOT_httpFinishedModem | SLOT_httpReadyReadModem => mReplyModem this
  | SLOT_httpFinishedTria | SLOT_httpReadyReadTria => mReplyTria this
  end.

(** The reply [h] still exists, and a slot that its [readyRead] runs uses a
    pointer to a reply that has been destroyed. *)
Definition readsDeleted (this : SurfBeam2) (h : ReplyPtr) : bool :=
  match deref (mQnam this) h with
  | Some r => existsb (fun s => match deref (mQnam this) (slotPointer this s) with
                                | Some _ => false
                                | None => true
                                end) (onReadyRead r)
  | None => false
  end.

(** The event loop as the specification words it: whatever a superseded
    reply sends is discarded. *)
Definition stepDiscarding (this : SurfBeam2) (e : Event) : option SurfBeam2 :=
  match e with
  | Arrived h _ | Completed h => if tracked this h then step this e else Some this
  | _ => step this e
  end.

Fixpoint runDiscarding (this : SurfBeam2) (events : list Event) : option SurfBeam2 :=
  match events with
  | [] => Some this
  | e :: rest => match stepDiscarding this e with
                 | Some this' => runDiscarding this' rest
                 | None => None
                 end
  end.

(** The event with its bytes taken away when it comes from a reply that is
    not tracked. *)
Definition withoutStalePayload (this : SurfBeam2) (e : Event) : Event :=
  match e with
  | Arrived h bytes => if tracked this h then e else Arrived h EmptyString
  | _ => e
  end.

Fixpoint runScrubbed (this : SurfBeam2) (events : list Event) : option SurfBeam2 :=
  match events with
  | [] => Some this
  | e :: rest => match step this (withoutStalePayload this e) with
                 | Some this' => runScrubbed this' rest
                 | None => None
                 end
  end.

(** *** Runs that differ in what superseded replies carried

    Two replies agree when they differ at most in their unread bytes, and
    not even in those when [sameBytes] is set.  Two objects agree when their
    members are the same except for the unread bytes of replies that are not
    tracked. *)
Definition replyAgree (sameBytes : bool) (ra rb : QNetworkReply) : Prop :=
  onFinished ra = onFinished rb /\ onReadyRead ra = onReadyRead rb /\
  lifetime ra = lifetime rb /\ (sameBytes = true -> unread ra = unread rb).

Definition storeAgree (sameBytes : ReplyPtr -> bool) (qa qb : QNetworkAccessManager) : Prop :=
  forall h, match nth_error qa h, nth_error qb h with
            | Some ra, Some rb => replyAgree (sameBytes h) ra rb
            | None, None => True
            | _, _ => False
            end.

(** What the display can show and what the next decode starts from. *)
Definition visible (this : SurfBeam2) :=
  (mModemInfo this, mTriaInfo this, mModemRawStringsList this, mTriaRawStringsList this,
   mByteArrayModem this, mByteArrayTria this).

Definition agree (a b : SurfBeam2) : Prop :=
  visible a = visible b /\ mReplyModem a = mReplyModem b /\ mReplyTria a = mReplyTria b /\
  storeAgree (tracked a) (mQnam a) (mQnam b).

Definition optionAgree (oa ob : option SurfBeam2) : Prop :=
  match oa, ob with
  | Some a, Some b => agree a b
  | None, None => True
  | _, _ => False
  end.

(** The two replies a call of [startCgiRequest] creates and connects. *)
Definition modemReply : QNetworkReply :=
  {| onFinished := [SLOT_httpFinishedModem]; onReadyRead := [SLOT_httpReadyReadModem];
     unread := EmptyString; lifetime := Alive |}.

Definition triaReply : QNetworkReply :=
  {| onFinished := [SLOT_httpFinishedTria]; onReadyRead := [SLOT_httpReadyReadTria];
     unread := EmptyString; lifetime := Alive |}.

(** *** The objects the event loop can reach

    Every reply is connected to the two slots of one pipeline, the reply a
    pointer tracks is connected to the slots of the pointer's pipeline, and
    between two events the tracked replies hold no unread bytes. *)
Definition modemSlots (r : QNetworkReply) : Prop :=
  onFinished r = [SLOT_httpFinishedModem] /\ onReadyRead r = [SLOT_httpReadyReadModem].

Definition triaSlots (r : QNetworkReply) : Prop :=
  onFinished r = [SLOT_httpFinishedTria] /\ onReadyRead r = [SLOT_httpReadyReadTria].

Definition connected (this : SurfBeam2) : Prop :=
  (forall h r, nth_error (mQnam this) h = Some r -> modemSlots r \/ triaSlots r) /\
  (forall r, nth_error (mQnam this) (mReplyModem this) = Some r -> modemSlots r) /\
  (forall r, nth_error (mQnam this) (mReplyTria this) = Some r -> triaSlots r).

Definition drained_at (h : ReplyPtr) (this : SurfBeam2) : Prop :=
  forall r, nth_error (mQnam this) h = Some r -> unread r = EmptyString.

Definition settled (this : SurfBeam2) : Prop :=
  connected this /\ drained_at (mReplyModem this) this /\ drained_at (mReplyTria this) this.

(** *** Sample runs

    The object after its constructor; the two pointers are 0 and 1.  A page
    that arrived on the first modem (outdoor-unit) reply, and the object after
    the reply then finished. *)
Definition started : SurfBeam2 := SurfBeam2_new blankModemInfo blankTriaInfo.

Definition orStarted (o : option SurfBeam2) : SurfBeam2 :=
  match o with
  | Some this => this
  | None => started
  end.

Definition modemPageArrived (page : QByteArray) : SurfBeam2 :=
  orStarted (step started (Arrived 0 page)).

Definition modemPageDecoded (page : QByteArray) : SurfBeam2 :=
  orStarted (httpFinishedModem (modemPageArrived page)).

Definition triaPageArrived (page : QByteArray) : SurfBeam2 :=
  orStarted (step started (Arrived 1 page)).

Definition triaPageDecoded (page : QByteArray) : SurfBeam2 :=
  orStarted (httpFinishedTria (triaPageArrived page)).

(** The sample modem page with another text in one of its fields. *)
Definition modemPageWith (i : nat) (value : QString) : QByteArray :=
  String.concat FIELD_DELIMITER (replaceAt i value sampleModemFields).

(** A second cycle starts before the first modem reply has finished; the
    first 81 fields of an 82-field page arrive on the second reply, the first
    reply finishes, and then the second reply delivers its last field and
    finishes. *)
Definition overrunEvents : list Event :=
  [ Timeout; Arrived 2 sampleModemPage; Completed 0; Arrived 2 "##x"; Completed 2 ].

(** *** Counting and ordering

    The timer ticks among the events, and where a reply is in its life. *)
Fixpoint timeouts (events : list Event) : nat :=
  match events with
  | [] => 0
  | Timeout :: rest => S (timeouts rest)
  | _ :: rest => timeouts rest
  end.

Definition lifetimeRank (l : Lifetime) : nat :=
  match l with
  | Alive => 0
  | DeleteLater => 1
  | Destroyed => 2
  end.

(** The manager [q'] holds every reply of [q], at the same position, with the
    same connections and no earlier in its life. *)
Definition extends (q q' : QNetworkAccessManager) : Prop :=
  forall h r,
    nth_error q h = Some r ->
    exists r', nth_error q' h = Some r' /\
               onFinished r' = onFinished r /\ onReadyRead r' = onReadyRead r /\
               (lifetimeRank (lifetime r) <= lifetimeRank (lifetime r'))%nat.

(** The pieces that arrive for the reply [h], in the order they arrive. *)
Fixpoint arrivedOn (h : ReplyPtr) (events : list Event) : list QByteArray :=
  match events with
  | [] => []
  | Arrived h' bytes :: rest =>
      if (h' =? h)%nat then bytes :: arrivedOn h rest else arrivedOn h rest
  | _ :: rest => arrivedOn h rest
  end.

(** The events of one poll cycle without an overrun, after its tick: no
    further tick, and no signal but those of the two replies [modem] and
    [tria] of the tick, in any order; a reply ends once, emits nothing after
    its end, and both have ended when the cycle is over.  Deferred deletions
    come at any time.  [endedModem] and [endedTria] tell which of the two
    replies has ended before the events. *)
Fixpoint orderly (modem tria : ReplyPtr) (endedModem endedTria : bool) (events : list Event)
  : bool :=
  match events with
  | [] => endedModem && endedTria
  | Timeout :: _ => false
  | Arrived h _ :: rest =>
      (if (h =? modem)%nat then negb endedModem
       else if (h =? tria)%nat then negb endedTria
       else false)
      && orderly modem tria endedModem endedTria rest
  | Completed h :: rest =>
      if (h =? modem)%nat then negb endedModem && orderly modem tria true endedTria rest
      else if (h =? tria)%nat then negb endedTria && orderly modem tria endedModem true rest
      else false
  | DeferredDelete _ :: rest => orderly modem tria endedModem endedTria rest
  end.

(** What one pipeline shows when the cycle is over: what it showed before
    when its reply had ended, and the decode of its page when not. *)
Definition shownAfter {Info : Type} (ended : bool) (expected : nat)
  (recordOf : QStringList -> Info) (page : QByteArray) (before : QStringList * Info)
  : QStringList * Info :=
  if ended then before
  else let segments := split page FIELD_DELIMITER in
       (segments, if (List.length segments =? expected)%nat
                  then recordOf segments else snd before).

(** *** The object with its form

    The slots on the object together with [mMainUi]: a finished-slot calls
    [updateContent] after a decode, no other slot touches the form. *)
Definition Window : Type := (SurfBeam2 * Ui.t)%type.

Definition httpFinishedModem_ui (w : Window) : option Window :=
  let (this, ui) := w in
  let rawString := mByteArrayModem this in
  let this := set_mModemRawStringsList (split rawString FIELD_DELIMITER) this in
  let (this, ui) := if (FIELD_COUNT_MODEM =? List.length (mModemRawStringsList this))%nat
                    then let this := updateModemInfo this in (this, updateContent this ui)
                    else (this, ui) in
  match deref (mQnam this) (mReplyModem this) with
  | Some r =>
      Some (set_mQnam (setReply (mReplyModem this) (scheduled r) (mQnam this)) this, ui)
  | None => None
  end.

Definition httpFinishedTria_ui (w : Window) : option Window :=
  let (this, ui) := w in
  let rawString := mByteArrayTria this in
  let this := set_mTriaRawStringsList (split rawString FIELD_DELIMITER) this in
  let (this, ui) := if (FIELD_COUNT_TRIA =? List.length (mTriaRawStringsList this))%nat
                    then let this := updateTriaInfo this in (this, updateContent this ui)
                    else (this, ui) in
  match deref (mQnam this) (mReplyTria this) with
  | Some r =>
      Some (set_mQnam (setReply (mReplyTria this) (scheduled r) (mQnam this)) this, ui)
  | None => None
  end.

Definition invoke_ui (s : Slot) (w : Window) : option Window :=
  match s with
  | SLOT_httpFinishedModem => httpFinishedModem_ui w
  | SLOT_httpFinishedTria => httpFinishedTria_ui w
  | SLOT_httpReadyReadModem =>
      option_map (fun this => (this, snd w)) (httpReadyReadModem (fst w))
  | SLOT_httpReadyReadTria =>
      option_map (fun this => (this, snd w)) (httpReadyReadTria (fst w))
  end.

Fixpoint emit_ui (slots : list Slot) (w : Window) : option Window :=
  match slots with
  | [] => Some w
  | s :: rest => match invoke_ui s w with
                 | Some w' => emit_ui rest w'
                 | None => None
                 end
  end.

Definition step_ui (w : Window) (e : Event) : option Window :=
  let (this, ui) := w in
  match e with
  | Timeout => Some (startCgiRequest this, ui)
  | Arrived h bytes =>
      match deref (mQnam this) h with
      | Some r => emit_ui (onReadyRead r)
                          (set_mQnam (setReply h (received bytes r) (mQnam this)) this, ui)
      | None => Some w
      end
  | Completed h =>
      match deref (mQnam this) h with
      | Some r => emit_ui (onFinished r) w
      | None => Some w
      end
  | DeferredDelete h =>
      match nth_error (mQnam this) h with
      | Some r => match lifetime r with
                  | DeleteLater =>
                      Some (set_mQnam (setReply h (destroyed r) (mQnam this)) this, ui)
                  | _ => Some w
                  end
      | None => Some w
      end
  end.

Fixpoint run_ui (w : Window) (events : list Event) : option Window :=
  match events with
  | [] => Some w
  | e :: rest => match step_ui w e with
                 | Some w' => run_ui w' rest
                 | None => None
                 end
  end.

(** The window after its constructor; [built] stands for what [setupUi]
    builds. *)
Definition Window_new (modem : ModemInfo.t) (tria : TriaInfo.t) (built : Ui.t) : Window :=
  (SurfBeam2_new modem tria, SurfBeam2_new_ui built).

(** The form shows the two records of the object: it is the form [before]
    (the one the constructor left, when nothing was decoded yet), or its
    labels, its style sheets and the ranges of its bars are the ones
    [updateContent] gives for the records the object holds. *)
Definition showsRecords (before : Ui.t) (w : Window) : Prop :=
  snd w = before \/
  withoutValues (snd w) = withoutValues (updateContent (fst w) before).

(** *** Sample windows

    The sample object with the blank form, and the window after a page that
    arrived on the first modem reply was decoded and shown. *)
Definition orWindow (o : option Window) : Window :=
  match o with
  | Some w => w
  | None => (started, blankUi)
  end.

Definition modemPageShown (page : QByteArray) : Window :=
  orWindow (httpFinishedModem_ui (modemPageArrived page, blankUi)).

(** ** Properties of the field decoder *)

Lemma fold_left_keeps {A B C : Type} (f : A -> B -> A) (g : A -> C) :
  (forall a b, g (f a b) = g a) ->
  forall l a, g (fold_left f l a) = g a.
Proof.
  intros Hstep l; induction l as [|b l IH]; intros a; cbn [fold_left].
  - reflexivity.
  - rewrite IH. apply Hstep.
Qed.

Lemma updateModemInfo_body_frame (i : nat) (this : SurfBeam2) :
  outsideModemInfo (updateModemInfo_body i this) = outsideModemInfo this.
Proof.
  unfold updateModemInfo_body.
  destruct (modemCaseOf i) as [[]|]; reflexivity.
Qed.

Lemma updateTriaInfo_body_frame (i : nat) (this : SurfBeam2) :
  outsideTriaInfo (updateTriaInfo_body i this) = outsideTriaInfo this.
Proof.
  unfold updateTriaInfo_body.
  destruct (triaCaseOf i) as [[]|]; reflexivity.
Qed.

Lemma updateModemInfo_frame (this : SurfBeam2) :
  outsideModemInfo (updateModemInfo this) = outsideModemInfo this.
Proof.
  unfold updateModemInfo.
  apply (fold_left_keeps (fun st i => updateModemInfo_body i st) outsideModemInfo).
  intros a b; apply updateModemInfo_body_frame.
Qed.

Lemma updateTriaInfo_frame (this : SurfBeam2) :
  outsideTriaInfo (updateTriaInfo this) = outsideTriaInfo this.
Proof.
  unfold updateTriaInfo.
  apply (fold_left_keeps (fun st i => updateTriaInfo_body i st) outsideTriaInfo).
  intros a b; apply updateTriaInfo_body_frame.
Qed.

Ltac unroll_list l H :=
  repeat (destruct l as [|? l]; [discriminate H|]; cbn [List.length] in H;
          apply Nat.succ_inj in H);
  destruct l; [clear H|discriminate H].

Lemma updateModemInfo_full (this : SurfBeam2) :
  List.length (mModemRawStringsList this) = FIELD_COUNT_MODEM ->
  mModemInfo (updateModemInfo this) = modemRecordOf (mModemRawStringsList this).
Proof.
  destruct this as [l lt m t q rm rt bm bt]; cbn [mModemRawStringsList].
  unfold FIELD_COUNT_MODEM; intros H.
  unroll_list l H.
  reflexivity.
Qed.

Lemma updateTriaInfo_full (this : SurfBeam2) :
  List.length (mTriaRawStringsList this) = FIELD_COUNT_TRIA ->
  mTriaInfo (updateTriaInfo this) = triaRecordOf (mTriaRawStringsList this).
Proof.
  destruct this as [lm l m t q rm rt bm bt]; cbn [mTriaRawStringsList].
  unfold FIELD_COUNT_TRIA; intros H.
  unroll_list l H.
  reflexivity.
Qed.

Lemma httpFinishedModem_inv (this this' : SurfBeam2) :
  httpFinishedModem this = Some this' ->
  let segments := split (mByteArrayModem this) FIELD_DELIMITER in
  let decoded := set_mModemRawStringsList segments this in
  (mModemInfo this', mTriaInfo this') =
  if (FIELD_COUNT_MODEM =? List.length segments)%nat
  then (mModemInfo (updateModemInfo decoded), mTriaInfo this)
  else (mModemInfo this, mTriaInfo this).
Proof.
  unfold httpFinishedModem; cbn zeta.
  set (decoded := set_mModemRawStringsList _ this).
  change (mModemRawStringsList decoded) with (split (mByteArrayModem this) FIELD_DELIMITER).
  destruct (FIELD_COUNT_MODEM =? _)%nat.
  - destruct (deref _ _); [|discriminate].
    intros [= <-].
    pose proof (updateModemInfo_frame decoded) as F.
    unfold outsideModemInfo in F. injection F as _ _ Ft _ _ _ _ _.
    cbn [mModemInfo mTriaInfo set_mQnam]. rewrite Ft. reflexivity.
  - destruct (deref _ _); [|discriminate].
    intros [= <-]. reflexivity.
Qed.

Lemma httpFinishedTria_inv (this this' : SurfBeam2) :
  httpFinishedTria this = Some this' ->
  let segments := split (mByteArrayTria this) FIELD_DELIMITER in
  let decoded := set_mTriaRawStringsList segments this in
  (mModemInfo this', mTriaInfo this') =
  if (FIELD_COUNT_TRIA =? List.length segments)%nat
  then (mModemInfo this, mTriaInfo (updateTriaInfo decoded))
  else (mModemInfo this, mTriaInfo this).
Proof.
  unfold httpFinishedTria; cbn zeta.
  set (decoded := set_mTriaRawStringsList _ this).
  change (mTriaRawStringsList decoded) with (split (mByteArrayTria this) FIELD_DELIMITER).
  destruct (FIELD_COUNT_TRIA =? _)%nat.
  - destruct (deref _ _); [|discriminate].
    intros [= <-].
    pose proof (updateTriaInfo_frame decoded) as F.
    unfold outsideTriaInfo in F. injection F as _ _ Fm _ _ _ _ _.
    cbn [mModemInfo mTriaInfo set_mQnam]. rewrite Fm. reflexivity.
  - destruct (deref _ _); [|discriminate].
    intros [= <-]. reflexivity.
Qed.

Lemma httpFinishedModem_decoded (this this' : SurfBeam2) :
  httpFinishedModem this = Some this' ->
  List.length (split (mByteArrayModem this) FIELD_DELIMITER) = FIELD_COUNT_MODEM ->
  mModemInfo this' = modemRecordOf (split (mByteArrayModem this) FIELD_DELIMITER).
Proof.
  intros Hrun Hlen. pose proof (httpFinishedModem_inv _ _ Hrun) as Hinv.
  cbn zeta in Hinv. rewrite Hlen, Nat.eqb_refl in Hinv.
  injection Hinv as -> _.
  now rewrite updateModemInfo_full.
Qed.

Lemma httpFinishedTria_decoded (this this' : SurfBeam2) :
  httpFinishedTria this = Some this' ->
  List.length (split (mByteArrayTria this) FIELD_DELIMITER) = FIELD_COUNT_TRIA ->
  mTriaInfo this' = triaRecordOf (split (mByteArrayTria this) FIELD_DELIMITER).
Proof.
  intros Hrun Hlen. pose proof (httpFinishedTria_inv _ _ Hrun) as Hinv.
  cbn zeta in Hinv. rewrite Hlen, Nat.eqb_refl in Hinv.
  injection Hinv as _ ->.
  now rewrite updateTriaInfo_full.
Qed.

(** The two finished-slots return whenever the reply they use exists. *)
Lemma httpFinishedModem_returns (this : SurfBeam2) :
  deref (mQnam this) (mReplyModem this) <> None -> httpFinishedModem this <> None.
Proof.
  intros Halive. unfold httpFinishedModem. cbn zeta.
  set (decoded := set_mModemRawStringsList _ this).
  assert (Hsame : forall st, outsideModemInfo st = outsideModemInfo decoded ->
                             deref (mQnam st) (mReplyModem st) <> None).
  { intros st H. unfold outsideModemInfo in H.
    injection H as _ _ _ Hq Hm _ _ _. rewrite Hq, Hm. exact Halive. }
  destruct (FIELD_COUNT_MODEM =? _)%nat.
  - specialize (Hsame _ (updateModemInfo_frame decoded)).
    destruct (deref (mQnam (updateModemInfo decoded)) _); [discriminate|now elim Hsame].
  - specialize (Hsame decoded eq_refl).
    destruct (deref (mQnam decoded) _); [discriminate|now elim Hsame].
Qed.

Lemma httpFinishedTria_returns (this : SurfBeam2) :
  deref (mQnam this) (mReplyTria this) <> None -> httpFinishedTria this <> None.
Proof.
  intros Halive. unfold httpFinishedTria. cbn zeta.
  set (decoded := set_mTriaRawStringsList _ this).
  assert (Hsame : forall st, outsideTriaInfo st = outsideTriaInfo decoded ->
                             deref (mQnam st) (mReplyTria st) <> None).
  { intros st H. unfold outsideTriaInfo in H.
    injection H as _ _ _ Hq _ Ht _ _. rewrite Hq, Ht. exact Halive. }
  destruct (FIELD_COUNT_TRIA =? _)%nat.
  - specialize (Hsame _ (updateTriaInfo_frame decoded)).
    destruct (deref (mQnam (updateTriaInfo decoded)) _); [discriminate|now elim Hsame].
  - specialize (Hsame decoded eq_refl).
    destruct (deref (mQnam decoded) _); [discriminate|now elim Hsame].
Qed.

(** C1. When the number of [##]-separated segments of a modem response is not
    81 (an outdoor-unit response: not 84), the finished-slot takes the path the
    specification calls SchemaMismatch: the record held before is the record
    held after.  The record changes only when the count is the expected one,
    and then every member is assigned from the segments.  The slot returns
    whenever the reply it uses has not been destroyed. *)
Theorem schema_mismatch_keeps_record (this this' : SurfBeam2) :
  (httpFinishedModem this = Some this' ->
   let segments := split (mByteArrayModem this) FIELD_DELIMITER in
   (List.length segments <> 81 -> mModemInfo this' = mModemInfo this) /\
   (mModemInfo this' <> mModemInfo this -> List.length segments = 81) /\
   (List.length segments = 81 -> mModemInfo this' = modemRecordOf segments)) /\
  (httpFinishedTria this = Some this' ->
   let segments := split (mByteArrayTria this) FIELD_DELIMITER in
   (List.length segments <> 84 -> mTriaInfo this' = mTriaInfo this) /\
   (mTriaInfo this' <> mTriaInfo this -> List.length segments = 84) /\
   (List.length segments = 84 -> mTriaInfo this' = triaRecordOf segments)) /\
  (deref (mQnam this) (mReplyModem this) <> None -> httpFinishedModem this <> None) /\
  (deref (mQnam this) (mReplyTria this) <> None -> httpFinishedTria this <> None).
Proof.
  split; [|split; [|split]];
    [intros Hrun segments|intros Hrun segments
     |apply httpFinishedModem_returns|apply httpFinishedTria_returns].
  - pose proof (httpFinishedModem_inv _ _ Hrun) as Hinv; cbn zeta in Hinv.
    fold segments in Hinv.
    assert (Hkeep : List.length segments <> 81 -> mModemInfo this' = mModemInfo this).
    { intros Hne. apply Nat.eqb_neq in Hne. rewrite Nat.eqb_sym in Hne.
      unfold FIELD_COUNT_MODEM in Hinv. rewrite Hne in Hinv. now injection Hinv. }
    repeat split.
    + exact Hkeep.
    + intros Hchanged. destruct (Nat.eq_dec (List.length segments) 81) as [E|E]; auto.
      elim Hchanged; auto.
    + intros Hlen. now apply httpFinishedModem_decoded.
  - pose proof (httpFinishedTria_inv _ _ Hrun) as Hinv; cbn zeta in Hinv.
    fold segments in Hinv.
    assert (Hkeep : List.length segments <> 84 -> mTriaInfo this' = mTriaInfo this).
    { intros Hne. apply Nat.eqb_neq in Hne. rewrite Nat.eqb_sym in Hne.
      unfold FIELD_COUNT_TRIA in Hinv. rewrite Hne in Hinv. now injection Hinv. }
    repeat split.
    + exact Hkeep.
    + intros Hchanged. destruct (Nat.eq_dec (List.length segments) 84) as [E|E]; auto.
      elim Hchanged; auto.
    + intros Hlen. now apply httpFinishedTria_decoded.
Qed.

(** C10. Decoding a modem response leaves [mTriaInfo] as it was, decoding an
    outdoor-unit response leaves [mModemInfo] as it was; the same holds for
    the two finished-slots that call the decoders. *)
Theorem decoders_keep_the_other_record (this : SurfBeam2) :
  mTriaInfo (updateModemInfo this) = mTriaInfo this /\
  mModemInfo (updateTriaInfo this) = mModemInfo this /\
  (forall this', httpFinishedModem this = Some this' -> mTriaInfo this' = mTriaInfo this) /\
  (forall this', httpFinishedTria this = Some this' -> mModemInfo this' = mModemInfo this).
Proof.
  repeat split.
  - pose proof (updateModemInfo_frame this) as F. unfold outsideModemInfo in F.
    now injection F.
  - pose proof (updateTriaInfo_frame this) as F. unfold outsideTriaInfo in F.
    now injection F.
  - intros this' Hrun. pose proof (httpFinishedModem_inv _ _ Hrun) as Hinv.
    cbn zeta in Hinv. destruct (_ =? _)%nat; now injection Hinv.
  - intros this' Hrun. pose proof (httpFinishedTria_inv _ _ Hrun) as Hinv.
    cbn zeta in Hinv. destruct (_ =? _)%nat; now injection Hinv.
Qed.

(** *** Numbers with grouping and percentages *)

Lemma toULongLong_not_numeric (s : QString) : isNumeric s = false -> toULongLong s = 0%Z.
Proof.
  unfold isNumeric, toULongLong.
  destruct (readUnsigned (trimmed s)) as [n|]; [|reflexivity].
  now intros ->.
Qed.

Lemma toULongLong_range (s : QString) : (0 <= toULongLong s <= ULLONG_MAX)%Z.
Proof.
  assert (Hd : forall c d, digitValue c = Some d -> (0 <= d)%Z).
  { intros c d. unfold digitValue.
    destruct (_ && _); [intros [= <-]; lia | discriminate]. }
  assert (Hr : forall t acc n, (0 <= acc)%Z -> readDigits acc t = Some n -> (0 <= n)%Z).
  { induction t as [|c t IH]; cbn [readDigits]; intros acc n Hacc.
    - now intros [= <-].
    - destruct (digitValue c) as [d|] eqn:E; [|discriminate].
      apply IH. specialize (Hd _ _ E). lia. }
  unfold toULongLong, ULLONG_MAX.
  destruct (readUnsigned (trimmed s)) as [n|] eqn:E; [|lia].
  destruct (n <=? 2 ^ 64 - 1)%Z eqn:L; [|lia].
  apply Z.leb_le in L. split; [|exact L].
  unfold readUnsigned in E.
  destruct (match trimmed s with String "+"%char s' => s' | _ => trimmed s end);
    [discriminate|].
  eapply Hr; [|exact E]. lia.
Qed.

Lemma toUShort_range (s : QString) : (0 <= toUShort s <= USHRT_MAX)%Z.
Proof.
  unfold toUShort, toIntegral. cbn zeta.
  pose proof (toULongLong_range s).
  destruct (toULongLong s <=? USHRT_MAX)%Z eqn:L.
  - apply Z.leb_le in L. lia.
  - unfold USHRT_MAX. lia.
Qed.

Lemma wrap_small (bits z : Z) : (0 <= z < 2 ^ bits)%Z -> wrap bits z = z.
Proof. intros H. unfold wrap. now apply Z.mod_small. Qed.

(** C2 as the code has it.  For a modem page of 81 segments the four counters
    (segments 5 to 8) are read after every [,] was removed; where the
    specification's rule gives NumericFormatError the code stores 0, and in
    either case the decode goes on: every member of the record is assigned. *)
Theorem grouped_counters_decode (this this' : SurfBeam2) :
  httpFinishedModem this = Some this' ->
  let segments := split (mByteArrayModem this) FIELD_DELIMITER in
  List.length segments = 81 ->
  let counter i := match unsignedWithGrouping_spec (nth i segments EmptyString) with
                   | inr n => n
                   | inl _ => 0%Z
                   end in
  ModemInfo.RxPackets (mModemInfo this') = counter 5 /\
  ModemInfo.RxBytes (mModemInfo this') = counter 6 /\
  ModemInfo.TxPackets (mModemInfo this') = counter 7 /\
  ModemInfo.TxBytes (mModemInfo this') = counter 8 /\
  (forall i, (0 <= counter i <= 2 ^ 64 - 1)%Z) /\
  mModemInfo this' = modemRecordOf segments.
Proof.
  intros Hrun segments Hlen counter.
  assert (Hc : forall i, counter i = toULongLong (remove ","%char (nth i segments EmptyString))).
  { intros i. unfold counter, unsignedWithGrouping_spec. cbn zeta.
    destruct (isNumeric _) eqn:E; [reflexivity|].
    symmetry. now apply toULongLong_not_numeric. }
  rewrite (httpFinishedModem_decoded _ _ Hrun Hlen). fold segments.
  rewrite !Hc. repeat split; try reflexivity.
  - rewrite Hc. apply toULongLong_range.
  - rewrite Hc. apply toULongLong_range.
Qed.

(** C8 as the code has it.  A percentage member holds the segment's number
    after every [%] was removed, read as an unsigned 16-bit integer and
    reduced modulo 256 by the 8-bit member.  No range is checked; a number
    below 256 is stored as it was read, and when the only [%] is the trailing
    one this is the value the specification's rule gives. *)
Theorem percent_fields_decode (this this' : SurfBeam2) :
  (httpFinishedModem this = Some this' ->
   let segments := split (mByteArrayModem this) FIELD_DELIMITER in
   let stored i := wrap 8 (toUShort (remove "%"%char (nth i segments EmptyString))) in
   List.length segments = 81 ->
   ModemInfo.RxSnrPercent (mModemInfo this') = stored 12 /\
   ModemInfo.RxPwrPercent (mModemInfo this') = stored 15 /\
   ModemInfo.CableResistancePercent (mModemInfo this') = stored 17 /\
   ModemInfo.CableAttenuationPercent (mModemInfo this') = stored 20) /\
  (httpFinishedTria this = Some this' ->
   let segments := split (mByteArrayTria this) FIELD_DELIMITER in
   let stored i := wrap 8 (toUShort (remove "%"%char (nth i segments EmptyString))) in
   List.length segments = 84 ->
   TriaInfo.TxIfPwrPercent (mTriaInfo this') = stored 25 /\
   TriaInfo.TxRfPwrPercent (mTriaInfo this') = stored 26) /\
  (forall raw : QString,
     let parsed := toUShort (remove "%"%char raw) in
     (0 <= parsed <= 65535)%Z /\
     (0 <= wrap 8 parsed <= 255)%Z /\
     (parsed <= 255 -> wrap 8 parsed = parsed)%Z /\
     (remove "%"%char raw = stripTrailingPercent raw -> parsed <= 255 ->
      wrap 8 parsed = percentage_spec raw)%Z).
Proof.
  split; [|split].
  - intros Hrun segments stored Hlen.
    rewrite (httpFinishedModem_decoded _ _ Hrun Hlen). repeat split.
  - intros Hrun segments stored Hlen.
    rewrite (httpFinishedTria_decoded _ _ Hrun Hlen). repeat split.
  - intros raw parsed.
    pose proof (toUShort_range (remove "%"%char raw)) as Hr.
    fold parsed in Hr. unfold USHRT_MAX in Hr.
    assert (Hw : (0 <= wrap 8 parsed < 2 ^ 8)%Z)
      by (unfold wrap; apply Z.mod_pos_bound; lia).
    repeat split; try lia.
    + intros Hle. apply wrap_small. lia.
    + intros Heq Hle. unfold percentage_spec. rewrite <- Heq. fold parsed.
      apply wrap_small. lia.
Qed.

(** *** Categorical fields *)

Lemma foldCase_idem (c : ascii) : foldCase (foldCase c) = foldCase c.
Proof. destruct c as [[] [] [] [] [] [] [] []]; reflexivity. Qed.

Lemma startsWith_folded (p s : QString) :
  startsWith CaseInsensitive p (folded s) = startsWith CaseInsensitive p s /\
  startsWith CaseInsensitive (folded p) s = startsWith CaseInsensitive p s.
Proof.
  revert s; induction p as [|a p IH]; intros s.
  - destruct s; split; reflexivity.
  - destruct s as [|b s]; [split; reflexivity|].
    cbn [startsWith folded sameChar]. rewrite !foldCase_idem.
    destruct (IH s) as [-> ->]. split; reflexivity.
Qed.

Lemma contains_folded (s kw : QString) :
  contains (folded s) kw CaseInsensitive = contains s kw CaseInsensitive /\
  contains s (folded kw) CaseInsensitive = contains s kw CaseInsensitive.
Proof.
  induction s as [|c s [IH1 IH2]].
  - cbn [contains folded].
    destruct (startsWith_folded kw EmptyString) as [_ ->]. split; reflexivity.
  - cbn [contains folded]. rewrite IH1, IH2.
    change (String (foldCase c) (folded s)) with (folded (String c s)).
    destruct (startsWith_folded kw (String c s)) as [-> ->]. split; reflexivity.
Qed.

Lemma firstMatch_none {A : Type} (keywords : list (QString * A)) (unknown : A)
  (value : QString) :
  (forall keyword member, In (keyword, member) keywords ->
                          contains value keyword CaseInsensitive = false) ->
  firstMatch keywords unknown value = unknown.
Proof.
  induction keywords as [|[kw m] rest IH]; intros Hnone; cbn [firstMatch].
  - reflexivity.
  - rewrite (Hnone kw m) by (left; reflexivity).
    apply IH. intros k x Hin. apply (Hnone k x). now right.
Qed.

(** C7 as the code has it.  The two chains of tests are the first match, in
    list order, of a case-insensitive substring search over the keyword
    lists; a value that contains no keyword gives the Unknown member, and the
    result is always a member of the enumeration.  A status that contains
    ONLINE in any letter case gives the Online state when it contains none of
    the four keywords tested before it; the word alone, in any letter case,
    always does. *)
Theorem categorical_fields_decode (this this' : SurfBeam2) :
  (forall value,
     modemStateFromString value = firstMatch modemStatusKeywords MODEM_STATE_UNKNOWN value /\
     beamColorFromString value =
       firstMatch beamColorKeywords SATELLITE_STATUS_BEAM_COLOR_UNKNOWN value) /\
  (forall value,
     (forall keyword member, In (keyword, member) modemStatusKeywords ->
                             contains value keyword CaseInsensitive = false) ->
     modemStateFromString value = MODEM_STATE_UNKNOWN) /\
  (forall value,
     (forall keyword member, In (keyword, member) beamColorKeywords ->
                             contains value keyword CaseInsensitive = false) ->
     beamColorFromString value = SATELLITE_STATUS_BEAM_COLOR_UNKNOWN) /\
  (forall value,
     contains value "ONLINE" CaseInsensitive = true ->
     contains value "scanning" CaseInsensitive = false ->
     contains value "ranging" CaseInsensitive = false ->
     contains value "network" CaseInsensitive = false ->
     contains value "dhcp" CaseInsensitive = false ->
     modemStateFromString value = MODEM_STATE_ONLINE) /\
  (forall value, folded value = "online" -> modemStateFromString value = MODEM_STATE_ONLINE) /\
  (httpFinishedModem this = Some this' ->
   let segments := split (mByteArrayModem this) FIELD_DELIMITER in
   List.length segments = 81 ->
   ModemInfo.ModemStatus (mModemInfo this') =
     modemStateFromString (nth 23 segments EmptyString) /\
   ModemInfo.SatStatusBeamColor (mModemInfo this') =
     beamColorFromString (nth 24 segments EmptyString)) /\
  (httpFinishedTria this = Some this' ->
   let segments := split (mByteArrayTria this) FIELD_DELIMITER in
   List.length segments = 84 ->
   TriaInfo.SatStatusBeamColor (mTriaInfo this') =
     beamColorFromString (nth 29 segments EmptyString)).
Proof.
  assert (Hspec : forall value,
     modemStateFromString value = firstMatch modemStatusKeywords MODEM_STATE_UNKNOWN value /\
     beamColorFromString value =
       firstMatch beamColorKeywords SATELLITE_STATUS_BEAM_COLOR_UNKNOWN value)
    by (intros value; split; reflexivity).
  split; [exact Hspec|].
  split; [intros value Hnone; rewrite (proj1 (Hspec value)); now apply firstMatch_none|].
  split; [intros value Hnone; rewrite (proj2 (Hspec value)); now apply firstMatch_none|].
  split.
  { intros value Hon H1 H2 H3 H4.
    destruct (contains_folded value "ONLINE") as [_ Hk].
    change (folded "ONLINE") with "online" in Hk. rewrite Hon in Hk.
    unfold modemStateFromString. now rewrite H1, H2, H3, H4, Hk. }
  split.
  { intros value Hword. unfold modemStateFromString.
    rewrite <- !(proj1 (contains_folded value _)), Hword. reflexivity. }
  split.
  - intros Hrun segments Hlen.
    rewrite (httpFinishedModem_decoded _ _ Hrun Hlen). split; reflexivity.
  - intros Hrun segments Hlen.
    rewrite (httpFinishedTria_decoded _ _ Hrun Hlen). reflexivity.
Qed.

(** ** Properties of the poll driver *)

Open Scope list_scope.

Lemma nth_error_replaceAt {A : Type} (l : list A) (i j : nat) (x : A) :
  nth_error (replaceAt i x l) j =
  if (i =? j)%nat then match nth_error l j with Some _ => Some x | None => None end
  else nth_error l j.
Proof.
  revert i j; induction l as [|y l IH]; intros i j.
  - destruct i, j; cbn; try reflexivity. now destruct (i =? j)%nat.
  - destruct i, j; cbn [replaceAt nth_error Nat.eqb]; try reflexivity. apply IH.
Qed.

Lemma replaceAt_same {A : Type} (l : list A) (i : nat) (x : A) :
  nth_error l i = Some x -> replaceAt i x l = l.
Proof.
  revert i; induction l as [|y l IH]; intros [|i]; cbn; try discriminate.
  - now intros [= ->].
  - intros H. now rewrite IH.
Qed.

Lemma replaceAt_last {A : Type} (l : list A) (x y : A) :
  replaceAt (List.length l) y (l ++ [x])%list = (l ++ [y])%list.
Proof. induction l as [|z l IH]; cbn; [reflexivity|]. now rewrite IH. Qed.

Lemma nth_error_last {A : Type} (l : list A) (x : A) :
  nth_error (l ++ [x])%list (List.length l) = Some x.
Proof. induction l as [|z l IH]; cbn; [reflexivity|exact IH]. Qed.

Lemma connectFinished_last (q : QNetworkAccessManager) (r : QNetworkReply) (s : Slot) :
  connectFinished (List.length q) s (q ++ [r])%list =
  (q ++ [{| onFinished := onFinished r ++ [s]; onReadyRead := onReadyRead r;
            unread := unread r; lifetime := lifetime r |}])%list.
Proof. unfold connectFinished, setReply. now rewrite nth_error_last, replaceAt_last. Qed.

Lemma connectReadyRead_last (q : QNetworkAccessManager) (r : QNetworkReply) (s : Slot) :
  connectReadyRead (List.length q) s (q ++ [r])%list =
  (q ++ [{| onFinished := onFinished r; onReadyRead := onReadyRead r ++ [s];
            unread := unread r; lifetime := lifetime r |}])%list.
Proof. unfold connectReadyRead, setReply. now rewrite nth_error_last, replaceAt_last. Qed.

Lemma startCgiRequest_eq (this : SurfBeam2) :
  startCgiRequest this =
  {| mModemRawStringsList := mModemRawStringsList this;
     mTriaRawStringsList := mTriaRawStringsList this;
     mModemInfo := mModemInfo this; mTriaInfo := mTriaInfo this;
     mQnam := (mQnam this ++ [modemReply; triaReply])%list;
     mReplyModem := List.length (mQnam this);
     mReplyTria := S (List.length (mQnam this));
     mByteArrayModem := EmptyString; mByteArrayTria := EmptyString |}.
Proof.
  destruct this as [lm lt m t q rm rt bm bt].
  unfold startCgiRequest.
  cbn [set_mByteArrayModem set_mByteArrayTria set_mQnam set_mReplyModem set_mReplyTria
       mModemRawStringsList mTriaRawStringsList mModemInfo mTriaInfo mQnam mReplyModem
       mReplyTria mByteArrayModem mByteArrayTria].
  rewrite connectFinished_last, connectReadyRead_last.
  cbn [onFinished onReadyRead unread lifetime newReply app].
  fold modemReply.
  rewrite connectFinished_last, connectReadyRead_last.
  cbn [onFinished onReadyRead unread lifetime newReply app].
  fold triaReply.
  rewrite length_app, Nat.add_1_r, <- app_assoc.
  reflexivity.
Qed.

Lemma replyAgree_refl (k : bool) (r : QNetworkReply) : replyAgree k r r.
Proof. repeat split. Qed.

Lemma storeAgree_length tr qa qb : storeAgree tr qa qb -> List.length qa = List.length qb.
Proof.
  intros H.
  assert (Hab : (List.length qb <= List.length qa)%nat).
  { specialize (H (List.length qa)).
    rewrite (proj2 (nth_error_None qa _) (Nat.le_refl _)) in H.
    destruct (nth_error qb (List.length qa)) eqn:E; [contradiction|].
    now apply nth_error_None in E. }
  assert (Hba : (List.length qa <= List.length qb)%nat).
  { specialize (H (List.length qb)).
    rewrite (proj2 (nth_error_None qb _) (Nat.le_refl _)) in H.
    destruct (nth_error qa (List.length qb)) eqn:E; [contradiction|].
    now apply nth_error_None in E. }
  lia.
Qed.

Lemma storeAgree_deref tr qa qb h :
  storeAgree tr qa qb ->
  match deref qa h, deref qb h with
  | Some ra, Some rb => replyAgree (tr h) ra rb
  | None, None => True
  | _, _ => False
  end.
Proof.
  intros H. specialize (H h). unfold deref.
  destruct (nth_error qa h) as [ra|], (nth_error qb h) as [rb|]; try contradiction; auto.
  pose proof H as (_ & _ & Hl & _). rewrite <- Hl.
  destruct (lifetime ra); auto.
Qed.

Lemma storeAgree_replaceAt tr qa qb h ra rb :
  storeAgree tr qa qb -> replyAgree (tr h) ra rb ->
  storeAgree tr (replaceAt h ra qa) (replaceAt h rb qb).
Proof.
  intros H R j. rewrite !nth_error_replaceAt. specialize (H j).
  destruct (h =? j)%nat eqn:E; [|exact H].
  apply Nat.eqb_eq in E; subst j.
  destruct (nth_error qa h), (nth_error qb h); auto.
Qed.

Lemma storeAgree_app tr tr' qa qb ext :
  storeAgree tr qa qb ->
  (forall h, (h < List.length qa)%nat -> tr' h = true -> tr h = true) ->
  storeAgree tr' (qa ++ ext) (qb ++ ext).
Proof.
  intros H Hw j. pose proof (storeAgree_length _ _ _ H) as Hlen.
  destruct (Nat.lt_ge_cases j (List.length qa)) as [Hlt|Hge].
  - rewrite !nth_error_app1 by lia. specialize (H j).
    destruct (nth_error qa j) as [ra|], (nth_error qb j) as [rb|]; auto.
    destruct H as (H1 & H2 & H3 & H4). repeat split; auto.
  - rewrite !nth_error_app2 by lia. rewrite Hlen.
    destruct (nth_error ext (j - List.length qb)); auto using replyAgree_refl.
Qed.

Lemma agree_refl (a : SurfBeam2) : agree a a.
Proof.
  repeat split. intros h. destruct (nth_error (mQnam a) h); auto using replyAgree_refl.
Qed.

Lemma agree_tracked a b h : agree a b -> tracked b h = tracked a h.
Proof. intros (_ & Hm & Ht & _). unfold tracked. now rewrite Hm, Ht. Qed.

(** The record a decode leaves depends on the segments and on the record
    before, on nothing else. *)
Lemma updateModemInfo_body_cong (i : nat) (a b : SurfBeam2) :
  (mModemRawStringsList a, mModemInfo a) = (mModemRawStringsList b, mModemInfo b) ->
  (mModemRawStringsList (updateModemInfo_body i a), mModemInfo (updateModemInfo_body i a)) =
  (mModemRawStringsList (updateModemInfo_body i b), mModemInfo (updateModemInfo_body i b)).
Proof.
  intros [= Hl Hm]. unfold updateModemInfo_body. cbn zeta. rewrite Hl.
  destruct (modemCaseOf i) as [[]|];
    unfold inModemInfo; cbn [mModemRawStringsList mModemInfo set_mModemInfo];
    now rewrite ?Hl, ?Hm.
Qed.

Lemma updateTriaInfo_body_cong (i : nat) (a b : SurfBeam2) :
  (mTriaRawStringsList a, mTriaInfo a) = (mTriaRawStringsList b, mTriaInfo b) ->
  (mTriaRawStringsList (updateTriaInfo_body i a), mTriaInfo (updateTriaInfo_body i a)) =
  (mTriaRawStringsList (updateTriaInfo_body i b), mTriaInfo (updateTriaInfo_body i b)).
Proof.
  intros [= Hl Hm]. unfold updateTriaInfo_body. cbn zeta. rewrite Hl.
  destruct (triaCaseOf i) as [[]|];
    unfold inTriaInfo; cbn [mTriaRawStringsList mTriaInfo set_mTriaInfo];
    now rewrite ?Hl, ?Hm.
Qed.

Lemma fold_left_cong {A B C : Type} (f : A -> B -> A) (g : A -> C) :
  (forall a a' b, g a = g a' -> g (f a b) = g (f a' b)) ->
  forall l a a', g a = g a' -> g (fold_left f l a) = g (fold_left f l a').
Proof.
  intros Hstep l; induction l as [|b l IH]; intros a a' H; cbn [fold_left]; auto.
Qed.

Lemma updateModemInfo_cong (a b : SurfBeam2) :
  mModemRawStringsList a = mModemRawStringsList b -> mModemInfo a = mModemInfo b ->
  mModemInfo (updateModemInfo a) = mModemInfo (updateModemInfo b).
Proof.
  intros Hl Hm. unfold updateModemInfo. rewrite Hl.
  pose proof (fold_left_cong (fun st i => updateModemInfo_body i st)
                (fun st => (mModemRawStringsList st, mModemInfo st))) as H.
  cbn beta in H.
  specialize (H (fun x y i => updateModemInfo_body_cong i x y)
                (seq 0 (List.length (mModemRawStringsList b))) a b).
  rewrite Hl, Hm in H. specialize (H eq_refl). now injection H.
Qed.

Lemma updateTriaInfo_cong (a b : SurfBeam2) :
  mTriaRawStringsList a = mTriaRawStringsList b -> mTriaInfo a = mTriaInfo b ->
  mTriaInfo (updateTriaInfo a) = mTriaInfo (updateTriaInfo b).
Proof.
  intros Hl Hm. unfold updateTriaInfo. rewrite Hl.
  pose proof (fold_left_cong (fun st i => updateTriaInfo_body i st)
                (fun st => (mTriaRawStringsList st, mTriaInfo st))) as H.
  cbn beta in H.
  specialize (H (fun x y i => updateTriaInfo_body_cong i x y)
                (seq 0 (List.length (mTriaRawStringsList b))) a b).
  rewrite Hl, Hm in H. specialize (H eq_refl). now injection H.
Qed.

Ltac simpl_members :=
  cbn [mModemRawStringsList mTriaRawStringsList mModemInfo mTriaInfo mQnam mReplyModem
       mReplyTria mByteArrayModem mByteArrayTria set_mModemRawStringsList
       set_mTriaRawStringsList set_mModemInfo set_mTriaInfo set_mQnam set_mReplyModem
       set_mReplyTria set_mByteArrayModem set_mByteArrayTria].

(** Reduces [agree a' b'] to the agreement of the two stores. *)
Ltac agree_intro :=
  cbn [optionAgree]; unfold agree, visible, setReply; simpl_members;
  split; [congruence | split; [congruence | split; [congruence|]]].

Lemma tracked_modem (a : SurfBeam2) : tracked a (mReplyModem a) = true.
Proof. unfold tracked. now rewrite Nat.eqb_refl. Qed.

Lemma tracked_tria (a : SurfBeam2) : tracked a (mReplyTria a) = true.
Proof. unfold tracked. rewrite Nat.eqb_refl. apply orb_true_r. Qed.

Lemma httpReadyReadModem_agree (a b : SurfBeam2) :
  agree a b -> optionAgree (httpReadyReadModem a) (httpReadyReadModem b).
Proof.
  intros (Hv & Hm & Ht & Hs). unfold httpReadyReadModem.
  pose proof (storeAgree_deref _ _ _ (mReplyModem a) Hs) as Hd.
  rewrite <- Hm.
  destruct (deref (mQnam a) (mReplyModem a)) as [ra|],
           (deref (mQnam b) (mReplyModem a)) as [rb|]; try contradiction; [|exact I].
  destruct Hd as (H1 & H2 & H3 & H4). specialize (H4 (tracked_modem a)).
  injection Hv as Hv1 Hv2 Hv3 Hv4 Hv5 Hv6.
  agree_intro.
  apply storeAgree_replaceAt; [exact Hs|]. repeat split; auto.
Qed.

Lemma httpReadyReadTria_agree (a b : SurfBeam2) :
  agree a b -> optionAgree (httpReadyReadTria a) (httpReadyReadTria b).
Proof.
  intros (Hv & Hm & Ht & Hs). unfold httpReadyReadTria.
  pose proof (storeAgree_deref _ _ _ (mReplyTria a) Hs) as Hd.
  rewrite <- Ht.
  destruct (deref (mQnam a) (mReplyTria a)) as [ra|],
           (deref (mQnam b) (mReplyTria a)) as [rb|]; try contradiction; [|exact I].
  destruct Hd as (H1 & H2 & H3 & H4). specialize (H4 (tracked_tria a)).
  injection Hv as Hv1 Hv2 Hv3 Hv4 Hv5 Hv6.
  agree_intro.
  apply storeAgree_replaceAt; [exact Hs|]. repeat split; auto.
Qed.

Lemma updateModemInfo_agree (a b : SurfBeam2) :
  agree a b -> agree (updateModemInfo a) (updateModemInfo b).
Proof.
  intros (Hv & Hm & Ht & Hs).
  pose proof (updateModemInfo_frame a) as Fa. pose proof (updateModemInfo_frame b) as Fb.
  unfold outsideModemInfo in Fa, Fb.
  injection Fa as Fa1 Fa2 Fa3 Fa4 Fa5 Fa6 Fa7 Fa8.
  injection Fb as Fb1 Fb2 Fb3 Fb4 Fb5 Fb6 Fb7 Fb8.
  injection Hv as Hv1 Hv2 Hv3 Hv4 Hv5 Hv6.
  unfold agree, visible, tracked.
  rewrite Fa1, Fa2, Fa3, Fa4, Fa5, Fa6, Fa7, Fa8, Fb1, Fb2, Fb3, Fb4, Fb5, Fb6, Fb7, Fb8.
  rewrite (updateModemInfo_cong a b Hv3 Hv1).
  repeat split; try congruence. exact Hs.
Qed.

Lemma updateTriaInfo_agree (a b : SurfBeam2) :
  agree a b -> agree (updateTriaInfo a) (updateTriaInfo b).
Proof.
  intros (Hv & Hm & Ht & Hs).
  pose proof (updateTriaInfo_frame a) as Fa. pose proof (updateTriaInfo_frame b) as Fb.
  unfold outsideTriaInfo in Fa, Fb.
  injection Fa as Fa1 Fa2 Fa3 Fa4 Fa5 Fa6 Fa7 Fa8.
  injection Fb as Fb1 Fb2 Fb3 Fb4 Fb5 Fb6 Fb7 Fb8.
  injection Hv as Hv1 Hv2 Hv3 Hv4 Hv5 Hv6.
  unfold agree, visible, tracked.
  rewrite Fa1, Fa2, Fa3, Fa4, Fa5, Fa6, Fa7, Fa8, Fb1, Fb2, Fb3, Fb4, Fb5, Fb6, Fb7, Fb8.
  rewrite (updateTriaInfo_cong a b Hv4 Hv2).
  repeat split; try congruence. exact Hs.
Qed.

Lemma set_mModemRawStringsList_agree (l : QStringList) (a b : SurfBeam2) :
  agree a b -> agree (set_mModemRawStringsList l a) (set_mModemRawStringsList l b).
Proof.
  intros (Hv & Hm & Ht & Hs). injection Hv as Hv1 Hv2 Hv3 Hv4 Hv5 Hv6.
  agree_intro. exact Hs.
Qed.

Lemma set_mTriaRawStringsList_agree (l : QStringList) (a b : SurfBeam2) :
  agree a b -> agree (set_mTriaRawStringsList l a) (set_mTriaRawStringsList l b).
Proof.
  intros (Hv & Hm & Ht & Hs). injection Hv as Hv1 Hv2 Hv3 Hv4 Hv5 Hv6.
  agree_intro. exact Hs.
Qed.

(** Scheduling the tracked reply for deletion keeps two objects in agreement. *)
Lemma deleteLater_agree (h : ReplyPtr) (a b : SurfBeam2) :
  agree a b ->
  optionAgree
    match deref (mQnam a) h with
    | Some r => Some (set_mQnam (setReply h (scheduled r) (mQnam a)) a)
    | None => None
    end
    match deref (mQnam b) h with
    | Some r => Some (set_mQnam (setReply h (scheduled r) (mQnam b)) b)
    | None => None
    end.
Proof.
  intros (Hv & Hm & Ht & Hs).
  pose proof (storeAgree_deref _ _ _ h Hs) as Hd.
  destruct (deref (mQnam a) h) as [ra|], (deref (mQnam b) h) as [rb|];
    try contradiction; [|exact I].
  destruct Hd as (H1 & H2 & H3 & H4).
  injection Hv as Hv1 Hv2 Hv3 Hv4 Hv5 Hv6.
  agree_intro.
  apply storeAgree_replaceAt; [exact Hs|]. repeat split; auto.
Qed.

Lemma httpFinishedModem_agree (a b : SurfBeam2) :
  agree a b -> optionAgree (httpFinishedModem a) (httpFinishedModem b).
Proof.
  intros H. unfold httpFinishedModem. cbn zeta.
  assert (Hbuf : mByteArrayModem a = mByteArrayModem b)
    by (destruct H as (Hv & _); now injection Hv).
  rewrite <- Hbuf.
  set (l := split (mByteArrayModem a) FIELD_DELIMITER).
  pose proof (set_mModemRawStringsList_agree l a b H) as H1.
  change (mModemRawStringsList (set_mModemRawStringsList l a)) with l.
  change (mModemRawStringsList (set_mModemRawStringsList l b)) with l.
  destruct (FIELD_COUNT_MODEM =? List.length l)%nat.
  - pose proof (updateModemInfo_agree _ _ H1) as H2.
    replace (mReplyModem (updateModemInfo (set_mModemRawStringsList l b)))
      with (mReplyModem (updateModemInfo (set_mModemRawStringsList l a)))
      by (now destruct H2 as (_ & ? & _)).
    now apply deleteLater_agree.
  - replace (mReplyModem (set_mModemRawStringsList l b))
      with (mReplyModem (set_mModemRawStringsList l a))
      by (now destruct H1 as (_ & ? & _)).
    now apply deleteLater_agree.
Qed.

Lemma httpFinishedTria_agree (a b : SurfBeam2) :
  agree a b -> optionAgree (httpFinishedTria a) (httpFinishedTria b).
Proof.
  intros H. unfold httpFinishedTria. cbn zeta.
  assert (Hbuf : mByteArrayTria a = mByteArrayTria b)
    by (destruct H as (Hv & _); now injection Hv).
  rewrite <- Hbuf.
  set (l := split (mByteArrayTria a) FIELD_DELIMITER).
  pose proof (set_mTriaRawStringsList_agree l a b H) as H1.
  change (mTriaRawStringsList (set_mTriaRawStringsList l a)) with l.
  change (mTriaRawStringsList (set_mTriaRawStringsList l b)) with l.
  destruct (FIELD_COUNT_TRIA =? List.length l)%nat.
  - pose proof (updateTriaInfo_agree _ _ H1) as H2.
    replace (mReplyTria (updateTriaInfo (set_mTriaRawStringsList l b)))
      with (mReplyTria (updateTriaInfo (set_mTriaRawStringsList l a)))
      by (now destruct H2 as (_ & _ & ? & _)).
    now apply deleteLater_agree.
  - replace (mReplyTria (set_mTriaRawStringsList l b))
      with (mReplyTria (set_mTriaRawStringsList l a))
      by (now destruct H1 as (_ & _ & ? & _)).
    now apply deleteLater_agree.
Qed.

Lemma emit_agree (slots : list Slot) (a b : SurfBeam2) :
  agree a b -> optionAgree (emit slots a) (emit slots b).
Proof.
  revert a b; induction slots as [|s rest IH]; intros a b H; cbn [emit].
  - exact H.
  - assert (Hs : optionAgree (invoke s a) (invoke s b)).
    { destruct s; cbn [invoke];
        auto using httpFinishedModem_agree, httpFinishedTria_agree,
                   httpReadyReadModem_agree, httpReadyReadTria_agree. }
    destruct (invoke s a) as [a'|], (invoke s b) as [b'|]; try contradiction; auto.
Qed.

Lemma startCgiRequest_agree (a b : SurfBeam2) :
  agree a b -> agree (startCgiRequest a) (startCgiRequest b).
Proof.
  intros (Hv & Hm & Ht & Hs). rewrite !startCgiRequest_eq.
  pose proof (storeAgree_length _ _ _ Hs) as Hlen.
  injection Hv as Hv1 Hv2 Hv3 Hv4 Hv5 Hv6.
  agree_intro.
  apply (storeAgree_app (tracked a)); [exact Hs|].
  intros h Hlt. unfold tracked at 1.
  cbn [mReplyModem mReplyTria].
  intros Hor. apply orb_true_iff in Hor. destruct Hor as [E|E]; apply Nat.eqb_eq in E; lia.
Qed.

Lemma step_agree (a b : SurfBeam2) (e : Event) :
  agree a b -> optionAgree (step a e) (step b (withoutStalePayload b e)).
Proof.
  intros H. pose proof H as (Hv & Hm & Ht & Hs).
  destruct e as [|h bytes|h|h]; cbn [withoutStalePayload].
  - cbn [step optionAgree]. now apply startCgiRequest_agree.
  - assert (Hstep : forall bytes',
              (tracked a h = true -> bytes' = bytes) ->
              optionAgree (step a (Arrived h bytes)) (step b (Arrived h bytes'))).
    { intros bytes' Hb. cbn [step].
      pose proof (storeAgree_deref _ _ _ h Hs) as Hd.
      destruct (deref (mQnam a) h) as [ra|], (deref (mQnam b) h) as [rb|];
        try contradiction; [|exact H].
      destruct Hd as (H1 & H2 & H3 & H4). rewrite <- H2.
      apply emit_agree.
      injection Hv as Hv1 Hv2 Hv3 Hv4 Hv5 Hv6.
      agree_intro.
      apply storeAgree_replaceAt; [exact Hs|].
      repeat split; auto. cbn [unread received].
      intros Htr. now rewrite (H4 Htr), (Hb Htr). }
    rewrite (agree_tracked a b h H).
    destruct (tracked a h) eqn:E; apply Hstep; auto. discriminate.
  - cbn [step].
    pose proof (storeAgree_deref _ _ _ h Hs) as Hd.
    destruct (deref (mQnam a) h) as [ra|], (deref (mQnam b) h) as [rb|];
      try contradiction; [|exact H].
    destruct Hd as (H1 & H2 & H3 & H4). rewrite <- H1.
    now apply emit_agree.
  - cbn [step]. pose proof (Hs h) as Hh.
    destruct (nth_error (mQnam a) h) as [ra|], (nth_error (mQnam b) h) as [rb|];
      try contradiction; [|exact H].
    destruct Hh as (H1 & H2 & H3 & H4). rewrite <- H3.
    destruct (lifetime ra); try exact H.
    injection Hv as Hv1 Hv2 Hv3 Hv4 Hv5 Hv6.
    agree_intro.
    apply storeAgree_replaceAt; [exact Hs|]. repeat split; auto.
Qed.

Lemma run_agree (events : list Event) (a b : SurfBeam2) :
  agree a b -> optionAgree (run a events) (runScrubbed b events).
Proof.
  revert a b; induction events as [|e rest IH]; intros a b H; cbn [run runScrubbed].
  - exact H.
  - pose proof (step_agree a b e H) as Hs.
    destruct (step a e) as [a'|], (step b (withoutStalePayload b e)) as [b'|];
      try contradiction; auto.
Qed.

(** *** A superseded reply's bytes in a reachable object *)

Lemma append_empty (s : string) : (s ++ "")%string = s.
Proof. induction s as [|c s IH]; cbn; [reflexivity|now rewrite IH]. Qed.

Lemma slots_exclusive (r : QNetworkReply) : modemSlots r -> triaSlots r -> False.
Proof. intros (H & _) (H' & _). rewrite H in H'. discriminate. Qed.

Lemma deref_Some (q : QNetworkAccessManager) (h : ReplyPtr) (r : QNetworkReply) :
  deref q h = Some r -> nth_error q h = Some r.
Proof.
  unfold deref. destruct (nth_error q h) as [x|]; [|discriminate].
  destruct (lifetime x); congruence.
Qed.

(** Replacing a reply by one with the same connections keeps [connected]. *)
Lemma connected_replace (this this' : SurfBeam2) (h : ReplyPtr) (r r' : QNetworkReply) :
  connected this -> nth_error (mQnam this) h = Some r ->
  onFinished r' = onFinished r -> onReadyRead r' = onReadyRead r ->
  mQnam this' = replaceAt h r' (mQnam this) ->
  mReplyModem this' = mReplyModem this -> mReplyTria this' = mReplyTria this ->
  connected this'.
Proof.
  intros (Hall & Hm & Ht) Hr Hf Hrr Hq Hpm Hpt.
  assert (Hsame : forall j x, nth_error (mQnam this') j = Some x ->
            exists y, nth_error (mQnam this) j = Some y /\
                      onFinished x = onFinished y /\ onReadyRead x = onReadyRead y).
  { intros j x. rewrite Hq, nth_error_replaceAt.
    destruct (h =? j)%nat eqn:E.
    - apply Nat.eqb_eq in E; subst j. rewrite Hr. intros [= <-]. eauto.
    - intros Hx. eauto. }
  unfold connected, modemSlots, triaSlots in *. rewrite Hpm, Hpt.
  split; [|split].
  - intros j x Hx. destruct (Hsame j x Hx) as (y & Hy & -> & ->). eauto.
  - intros x Hx. destruct (Hsame _ _ Hx) as (y & Hy & -> & ->). now apply Hm.
  - intros x Hx. destruct (Hsame _ _ Hx) as (y & Hy & -> & ->). now apply Ht.
Qed.

(** After a reply was replaced, a position holds no unread bytes when it is
    the replaced one and the new reply has none, or when it held none before
    and the new reply has no more than the old. *)
Lemma drained_replace (this this' : SurfBeam2) (h p : ReplyPtr) (r r' : QNetworkReply) :
  nth_error (mQnam this) h = Some r ->
  mQnam this' = replaceAt h r' (mQnam this) ->
  (h = p -> unread r' = EmptyString) ->
  (h <> p -> drained_at p this) ->
  drained_at p this'.
Proof.
  intros Hr Hq Hnew Hold x. rewrite Hq, nth_error_replaceAt.
  destruct (h =? p)%nat eqn:E.
  - apply Nat.eqb_eq in E. subst p. rewrite Hr. intros [= <-]. now apply Hnew.
  - apply Nat.eqb_neq in E. intros Hx. now apply (Hold E).
Qed.

Lemma settled_replace_same (this this' : SurfBeam2) (h : ReplyPtr) (r r' : QNetworkReply) :
  settled this -> nth_error (mQnam this) h = Some r ->
  onFinished r' = onFinished r -> onReadyRead r' = onReadyRead r -> unread r' = unread r ->
  mQnam this' = replaceAt h r' (mQnam this) ->
  mReplyModem this' = mReplyModem this -> mReplyTria this' = mReplyTria this ->
  settled this'.
Proof.
  intros (Hc & Hdm & Hdt) Hr Hf Hrr Hu Hq Hpm Hpt.
  split; [|split].
  - eapply connected_replace; eauto.
  - rewrite Hpm. eapply drained_replace; eauto.
    intros ->. rewrite Hu. now apply Hdm.
  - rewrite Hpt. eapply drained_replace; eauto.
    intros ->. rewrite Hu. now apply Hdt.
Qed.

Lemma settled_startCgiRequest (this : SurfBeam2) :
  (forall h r, nth_error (mQnam this) h = Some r -> modemSlots r \/ triaSlots r) ->
  settled (startCgiRequest this).
Proof.
  intros Hall. rewrite startCgiRequest_eq.
  unfold settled, connected, drained_at.
  cbn [mQnam mReplyModem mReplyTria].
  assert (Hm : nth_error (mQnam this ++ [modemReply; triaReply]) (List.length (mQnam this))
               = Some modemReply).
  { rewrite nth_error_app2 by lia. now rewrite Nat.sub_diag. }
  assert (Ht : nth_error (mQnam this ++ [modemReply; triaReply]) (S (List.length (mQnam this)))
               = Some triaReply).
  { rewrite nth_error_app2 by lia.
    replace (S (List.length (mQnam this)) - List.length (mQnam this))%nat with 1%nat by lia.
    reflexivity. }
  rewrite Hm, Ht.
  split; [split; [|split]|split].
  - intros h r. destruct (Nat.lt_ge_cases h (List.length (mQnam this))) as [Hlt|Hge].
    + rewrite nth_error_app1 by lia. apply Hall.
    + rewrite nth_error_app2 by lia.
      destruct (h - List.length (mQnam this))%nat as [|[|[|k]]]; cbn.
      * intros [= <-]. left. split; reflexivity.
      * intros [= <-]. right. split; reflexivity.
      * discriminate.
      * discriminate.
  - intros r [= <-]. split; reflexivity.
  - intros r [= <-]. split; reflexivity.
  - intros r [= <-]. reflexivity.
  - intros r [= <-]. reflexivity.
Qed.

Lemma settled_httpReadyReadModem (this this' : SurfBeam2) :
  connected this -> drained_at (mReplyTria this) this ->
  httpReadyReadModem this = Some this' -> settled this'.
Proof.
  intros Hc Hdt. unfold httpReadyReadModem.
  destruct (deref (mQnam this) (mReplyModem this)) as [r|] eqn:E; [|discriminate].
  apply deref_Some in E. intros [= <-].
  split; [|split].
  - eapply (connected_replace this _ (mReplyModem this) r (drained r)); eauto; reflexivity.
  - eapply (drained_replace this _ (mReplyModem this) _ r (drained r)); eauto; try reflexivity.
    intros Hne. now elim Hne.
  - eapply (drained_replace this _ (mReplyModem this) _ r (drained r)); eauto; reflexivity.
Qed.

Lemma settled_httpReadyReadTria (this this' : SurfBeam2) :
  connected this -> drained_at (mReplyModem this) this ->
  httpReadyReadTria this = Some this' -> settled this'.
Proof.
  intros Hc Hdm. unfold httpReadyReadTria.
  destruct (deref (mQnam this) (mReplyTria this)) as [r|] eqn:E; [|discriminate].
  apply deref_Some in E. intros [= <-].
  split; [|split].
  - eapply (connected_replace this _ (mReplyTria this) r (drained r)); eauto; reflexivity.
  - eapply (drained_replace this _ (mReplyTria this) _ r (drained r)); eauto; reflexivity.
  - eapply (drained_replace this _ (mReplyTria this) _ r (drained r)); eauto; try reflexivity.
    intros Hne. now elim Hne.
Qed.

(** What a finished-slot leaves of the manager and of the two pointers: the
    reply it used is scheduled for deletion, nothing else changes. *)
Lemma httpFinishedModem_shape (this this' : SurfBeam2) :
  httpFinishedModem this = Some this' ->
  exists r, nth_error (mQnam this) (mReplyModem this) = Some r /\
            mQnam this' = replaceAt (mReplyModem this) (scheduled r) (mQnam this) /\
            mReplyModem this' = mReplyModem this /\ mReplyTria this' = mReplyTria this.
Proof.
  unfold httpFinishedModem. cbn zeta.
  set (decoded := set_mModemRawStringsList _ this).
  assert (Hmid : forall mid, outsideModemInfo mid = outsideModemInfo decoded ->
            match deref (mQnam mid) (mReplyModem mid) with
            | Some r => Some (set_mQnam (setReply (mReplyModem mid) (scheduled r) (mQnam mid)) mid)
            | None => None
            end = Some this' ->
            exists r, nth_error (mQnam this) (mReplyModem this) = Some r /\
              mQnam this' = replaceAt (mReplyModem this) (scheduled r) (mQnam this) /\
              mReplyModem this' = mReplyModem this /\ mReplyTria this' = mReplyTria this).
  { intros mid H. unfold outsideModemInfo in H.
    injection H as _ _ _ Hq Hm Ht _ _. rewrite Hq, Hm.
    change (mQnam decoded) with (mQnam this).
    change (mReplyModem decoded) with (mReplyModem this).
    destruct (deref (mQnam this) (mReplyModem this)) as [r|] eqn:E; [|discriminate].
    apply deref_Some in E. intros [= <-]. exists r.
    cbn [mQnam mReplyModem mReplyTria set_mQnam]. rewrite Hm, Ht. repeat split; auto. }
  destruct (FIELD_COUNT_MODEM =? _)%nat.
  - apply Hmid. apply updateModemInfo_frame.
  - apply Hmid. reflexivity.
Qed.

Lemma httpFinishedTria_shape (this this' : SurfBeam2) :
  httpFinishedTria this = Some this' ->
  exists r, nth_error (mQnam this) (mReplyTria this) = Some r /\
            mQnam this' = replaceAt (mReplyTria this) (scheduled r) (mQnam this) /\
            mReplyModem this' = mReplyModem this /\ mReplyTria this' = mReplyTria this.
Proof.
  unfold httpFinishedTria. cbn zeta.
  set (decoded := set_mTriaRawStringsList _ this).
  assert (Hmid : forall mid, outsideTriaInfo mid = outsideTriaInfo decoded ->
            match deref (mQnam mid) (mReplyTria mid) with
            | Some r => Some (set_mQnam (setReply (mReplyTria mid) (scheduled r) (mQnam mid)) mid)
            | None => None
            end = Some this' ->
            exists r, nth_error (mQnam this) (mReplyTria this) = Some r /\
              mQnam this' = replaceAt (mReplyTria this) (scheduled r) (mQnam this) /\
              mReplyModem this' = mReplyModem this /\ mReplyTria this' = mReplyTria this).
  { intros mid H. unfold outsideTriaInfo in H.
    injection H as _ _ _ Hq Hm Ht _ _. rewrite Hq, Ht.
    change (mQnam decoded) with (mQnam this).
    change (mReplyTria decoded) with (mReplyTria this).
    destruct (deref (mQnam this) (mReplyTria this)) as [r|] eqn:E; [|discriminate].
    apply deref_Some in E. intros [= <-]. exists r.
    cbn [mQnam mReplyModem mReplyTria set_mQnam]. rewrite Hm, Ht. repeat split; auto. }
  destruct (FIELD_COUNT_TRIA =? _)%nat.
  - apply Hmid. apply updateTriaInfo_frame.
  - apply Hmid. reflexivity.
Qed.

Lemma settled_invoke_finished (this this' : SurfBeam2) (s : Slot) :
  settled this -> s = SLOT_httpFinishedModem \/ s = SLOT_httpFinishedTria ->
  invoke s this = Some this' -> settled this'.
Proof.
  intros Hs [-> | ->]; cbn [invoke]; intros Hrun.
  - destruct (httpFinishedModem_shape _ _ Hrun) as (r & Hr & Hq & Hpm & Hpt).
    eapply (settled_replace_same this this' _ r (scheduled r)); eauto.
  - destruct (httpFinishedTria_shape _ _ Hrun) as (r & Hr & Hq & Hpm & Hpt).
    eapply (settled_replace_same this this' _ r (scheduled r)); eauto.
Qed.

Lemma settled_step (this this' : SurfBeam2) (e : Event) :
  settled this -> step this e = Some this' -> settled this'.
Proof.
  intros Hs. pose proof Hs as ((Hall & Hcm & Hct) & Hdm & Hdt).
  destruct e as [|h bytes|h|h]; cbn [step].
  - intros [= <-]. now apply settled_startCgiRequest.
  - destruct (deref (mQnam this) h) as [r|] eqn:E; [|now intros [= <-]].
    apply deref_Some in E.
    set (mid := set_mQnam (setReply h (received bytes r) (mQnam this)) this).
    assert (Hc : connected mid).
    { eapply (connected_replace this mid h r (received bytes r)); eauto; try reflexivity.
      apply Hs. }
    destruct (Hall h r E) as [(Hf & Hrr)|(Hf & Hrr)]; rewrite Hrr; cbn [emit invoke].
    + destruct (httpReadyReadModem mid) as [out|] eqn:R; [|discriminate].
      intros [= <-]. eapply settled_httpReadyReadModem; eauto.
      eapply (drained_replace this mid h _ r (received bytes r)); eauto; try reflexivity.
      intros Heq. exfalso. change (mReplyTria mid) with (mReplyTria this) in Heq.
      rewrite Heq in E. apply (slots_exclusive r); [now split|now apply Hct].
    + destruct (httpReadyReadTria mid) as [out|] eqn:R; [|discriminate].
      intros [= <-]. eapply settled_httpReadyReadTria; eauto.
      eapply (drained_replace this mid h _ r (received bytes r)); eauto; try reflexivity.
      intros Heq. exfalso. change (mReplyModem mid) with (mReplyModem this) in Heq.
      rewrite Heq in E. apply (slots_exclusive r); [now apply Hcm|now split].
  - destruct (deref (mQnam this) h) as [r|] eqn:E; [|now intros [= <-]].
    apply deref_Some in E.
    destruct (Hall h r E) as [(Hf & Hrr)|(Hf & Hrr)]; rewrite Hf; cbn [emit].
    + destruct (invoke SLOT_httpFinishedModem this) as [out|] eqn:R; [|discriminate].
      intros [= <-]. apply (settled_invoke_finished this out SLOT_httpFinishedModem); auto.
    + destruct (invoke SLOT_httpFinishedTria this) as [out|] eqn:R; [|discriminate].
      intros [= <-]. apply (settled_invoke_finished this out SLOT_httpFinishedTria); auto.
  - destruct (nth_error (mQnam this) h) as [r|] eqn:E; [|now intros [= <-]].
    destruct (lifetime r); try (now intros [= <-]).
    intros [= <-].
    eapply (settled_replace_same this _ h r (destroyed r)); eauto; reflexivity.
Qed.

Lemma settled_run (events : list Event) (this this' : SurfBeam2) :
  settled this -> run this events = Some this' -> settled this'.
Proof.
  revert this; induction events as [|e rest IH]; intros this Hs; cbn [run].
  - now intros [= <-].
  - destruct (step this e) as [mid|] eqn:E; [|discriminate].
    apply IH. eapply settled_step; eauto.
Qed.

Lemma settled_new (modem : ModemInfo.t) (tria : TriaInfo.t) : settled (SurfBeam2_new modem tria).
Proof.
  unfold SurfBeam2_new. apply settled_startCgiRequest.
  intros [|h] r; discriminate.
Qed.

(** The arrival of no bytes for a reply that is not tracked changes nothing,
    unless its slot uses a destroyed reply. *)
Lemma arrival_of_nothing (this : SurfBeam2) (h : ReplyPtr) :
  settled this -> tracked this h = false ->
  step this (Arrived h EmptyString) = if readsDeleted this h then None else Some this.
Proof.
  intros ((Hall & Hcm & Hct) & Hdm & Hdt) Htr. cbn [step]. unfold readsDeleted.
  destruct (deref (mQnam this) h) as [r|] eqn:E; [|reflexivity].
  apply deref_Some in E.
  assert (Hmid : set_mQnam (setReply h (received EmptyString r) (mQnam this)) this = this).
  { unfold setReply.
    replace (received EmptyString r) with r
      by (destruct r; unfold received; cbn; now rewrite append_empty).
    rewrite (replaceAt_same _ _ _ E). now destruct this. }
  rewrite Hmid.
  destruct (Hall h r E) as [(Hf & Hrr)|(Hf & Hrr)]; rewrite Hrr;
    cbn [emit invoke existsb slotPointer orb].
  - unfold httpReadyReadModem.
    destruct (deref (mQnam this) (mReplyModem this)) as [x|] eqn:X; [|reflexivity].
    apply deref_Some in X. cbn zeta. f_equal.
    replace (drained x) with x
      by (pose proof (Hdm _ X) as Hu; destruct x; unfold drained; cbn in Hu |- *; now rewrite Hu).
    unfold setReply. rewrite (replaceAt_same _ _ _ X), (Hdm x X), append_empty.
    now destruct this.
  - unfold httpReadyReadTria.
    destruct (deref (mQnam this) (mReplyTria this)) as [x|] eqn:X; [|reflexivity].
    apply deref_Some in X. cbn zeta. f_equal.
    replace (drained x) with x
      by (pose proof (Hdt _ X) as Hu; destruct x; unfold drained; cbn in Hu |- *; now rewrite Hu).
    unfold setReply. rewrite (replaceAt_same _ _ _ X), (Hdt x X), append_empty.
    now destruct this.
Qed.

(** Two runs that agree with a third show the same. *)
Lemma optionAgree_visible (oa ob oc : option SurfBeam2) :
  optionAgree oa oc -> optionAgree ob oc -> option_map visible oa = option_map visible ob.
Proof.
  destruct oa as [a|], ob as [b|], oc as [c|]; cbn; try contradiction; try reflexivity.
  intros (Ha & _) (Hb & _). congruence.
Qed.

(** C9 as the code has it.  In an object the event loop reaches from the
    constructor, bytes arrive for a reply that is no longer tracked.  When the
    slot the reply runs uses a pointer to a reply that still exists, the slot
    returns and nothing that is visible has changed: not the buffers, not the
    segment lists, not the records; and whatever events follow, the run shows
    what it shows without those bytes.  When the reply the pointer is on has
    been destroyed, the slot uses a destroyed reply. *)
Theorem superseded_payload_never_read (modem : ModemInfo.t) (tria : TriaInfo.t)
  (events : list Event) (reached : SurfBeam2) (h : ReplyPtr) (bytes : QByteArray) :
  run (SurfBeam2_new modem tria) events = Some reached ->
  tracked reached h = false ->
  (readsDeleted reached h = false ->
   exists after,
     step reached (Arrived h bytes) = Some after /\
     visible after = visible reached /\
     forall later, option_map visible (run after later) =
                   option_map visible (run reached later)) /\
  (readsDeleted reached h = true -> step reached (Arrived h bytes) = None).
Proof.
  intros Hrun Htr.
  assert (Hs : settled reached)
    by (apply (settled_run events (SurfBeam2_new modem tria)); auto using settled_new).
  pose proof (step_agree reached reached (Arrived h bytes) (agree_refl reached)) as Hstep.
  cbn [withoutStalePayload] in Hstep. rewrite Htr in Hstep.
  rewrite (arrival_of_nothing reached h Hs Htr) in Hstep.
  split; intros Hd; rewrite Hd in Hstep.
  - destruct (step reached (Arrived h bytes)) as [after|]; [|contradiction].
    exists after. split; [reflexivity|]. split; [apply Hstep|].
    intros later.
    apply (optionAgree_visible _ _ (runScrubbed reached later)).
    + now apply run_agree.
    + apply run_agree, agree_refl.
  - destruct (step reached (Arrived h bytes)); [contradiction|reflexivity].
Qed.

(** ** Pages and segments *)

Lemma append_assoc (a b c : string) : ((a ++ b) ++ c)%string = (a ++ (b ++ c))%string.
Proof. induction a as [|x a IH]; cbn; [reflexivity|now rewrite IH]. Qed.


(** A text without [#] is read into the current segment as it is. *)
Lemma splitFrom_plain (f rest cur : QString) :
  contains f "#" CaseSensitive = false ->
  splitFrom FIELD_DELIMITER 0 cur (f ++ rest)%string =
  splitFrom FIELD_DELIMITER 0 (cur ++ f)%string rest.
Proof.
  revert cur; induction f as [|c f IH]; intros cur H.
  - cbn [append]. now rewrite append_empty.
  - cbn [contains startsWith sameChar] in H.
    apply orb_false_iff in H. destruct H as (Hc & Hf).
    rewrite andb_true_r in Hc.
    change (String c f ++ rest)%string with (String c (f ++ rest)%string).
    cbn [splitFrom FIELD_DELIMITER startsWith sameChar]. rewrite Hc. cbn [andb].
    rewrite (IH _ Hf), append_assoc. reflexivity.
Qed.

(** Joining segments that hold no [#] and splitting the result gives the
    segments back. *)
Lemma split_concat (fs : QStringList) (f cur : QString) :
  forallb (fun x => negb (contains x "#" CaseSensitive)) (f :: fs) = true ->
  splitFrom FIELD_DELIMITER 0 cur (String.concat FIELD_DELIMITER (f :: fs)) =
  (cur ++ f)%string :: fs.
Proof.
  revert f cur; induction fs as [|g fs IH]; intros f cur H;
    cbn [forallb] in H; apply andb_true_iff in H; destruct H as (Hf & Hfs);
    apply negb_true_iff in Hf.
  - cbn [String.concat]. rewrite <- (append_empty f) at 1.
    rewrite (splitFrom_plain _ _ _ Hf). reflexivity.
  - change (String.concat FIELD_DELIMITER (f :: g :: fs))
      with (f ++ FIELD_DELIMITER ++ String.concat FIELD_DELIMITER (g :: fs))%string.
    rewrite (splitFrom_plain _ _ _ Hf).
    set (rest := String.concat FIELD_DELIMITER (g :: fs)).
    change (FIELD_DELIMITER ++ rest)%string with (String "#" (String "#" rest)).
    cbn [splitFrom FIELD_DELIMITER startsWith sameChar Ascii.eqb Bool.eqb andb
         String.length Nat.sub].
    unfold rest. rewrite (IH g EmptyString Hfs). reflexivity.
Qed.

(** Every delimiter takes two characters of the text. *)
Lemma splitFrom_length (s : QString) (skip : nat) (cur : QString) :
  (1 <= List.length (splitFrom FIELD_DELIMITER skip cur s))%nat /\
  (2 * List.length (splitFrom FIELD_DELIMITER skip cur s) <= 2 + (String.length s - skip))%nat.
Proof.
  revert skip cur; induction s as [|c s IH]; intros skip cur.
  - cbn. lia.
  - destruct skip as [|k].
    + cbn [splitFrom].
      destruct (startsWith CaseSensitive FIELD_DELIMITER (String c s)) eqn:E.
      * change (String.length FIELD_DELIMITER - 1)%nat with 1%nat.
        destruct (IH 1%nat EmptyString) as (H1 & H2).
        destruct s as [|d s]; [cbn in E; rewrite andb_false_r in E; discriminate|].
        cbn [List.length String.length] in *. lia.
      * destruct (IH 0%nat (cur ++ String c EmptyString)%string) as (H1 & H2).
        cbn [String.length]. lia.
    + cbn [splitFrom]. destruct (IH k cur) as (H1 & H2).
      cbn [String.length]. lia.
Qed.

(** What a finished-slot leaves of the segment lists and of the buffers. *)
Lemma httpFinishedModem_members (this this' : SurfBeam2) :
  httpFinishedModem this = Some this' ->
  mModemRawStringsList this' = split (mByteArrayModem this) FIELD_DELIMITER /\
  mTriaRawStringsList this' = mTriaRawStringsList this /\
  mByteArrayModem this' = mByteArrayModem this /\
  mByteArrayTria this' = mByteArrayTria this.
Proof.
  unfold httpFinishedModem. cbn zeta.
  set (decoded := set_mModemRawStringsList _ this).
  assert (Hmid : forall mid, outsideModemInfo mid = outsideModemInfo decoded ->
            match deref (mQnam mid) (mReplyModem mid) with
            | Some r => Some (set_mQnam (setReply (mReplyModem mid) (scheduled r) (mQnam mid)) mid)
            | None => None
            end = Some this' ->
            mModemRawStringsList this' = split (mByteArrayModem this) FIELD_DELIMITER /\
            mTriaRawStringsList this' = mTriaRawStringsList this /\
            mByteArrayModem this' = mByteArrayModem this /\
            mByteArrayTria this' = mByteArrayTria this).
  { intros mid H. unfold outsideModemInfo in H.
    injection H as Hl Hlt _ _ _ _ Hbm Hbt.
    destruct (deref (mQnam mid) (mReplyModem mid)); [|discriminate].
    intros [= <-]. simpl_members. rewrite Hl, Hlt, Hbm, Hbt. repeat split. }
  destruct (FIELD_COUNT_MODEM =? _)%nat.
  - apply Hmid. apply updateModemInfo_frame.
  - apply Hmid. reflexivity.
Qed.

Lemma httpFinishedTria_members (this this' : SurfBeam2) :
  httpFinishedTria this = Some this' ->
  mTriaRawStringsList this' = split (mByteArrayTria this) FIELD_DELIMITER /\
  mModemRawStringsList this' = mModemRawStringsList this /\
  mByteArrayModem this' = mByteArrayModem this /\
  mByteArrayTria this' = mByteArrayTria this.
Proof.
  unfold httpFinishedTria. cbn zeta.
  set (decoded := set_mTriaRawStringsList _ this).
  assert (Hmid : forall mid, outsideTriaInfo mid = outsideTriaInfo decoded ->
            match deref (mQnam mid) (mReplyTria mid) with
            | Some r => Some (set_mQnam (setReply (mReplyTria mid) (scheduled r) (mQnam mid)) mid)
            | None => None
            end = Some this' ->
            mTriaRawStringsList this' = split (mByteArrayTria this) FIELD_DELIMITER /\
            mModemRawStringsList this' = mModemRawStringsList this /\
            mByteArrayModem this' = mByteArrayModem this /\
            mByteArrayTria this' = mByteArrayTria this).
  { intros mid H. unfold outsideTriaInfo in H.
    injection H as Hl Hlt _ _ _ _ Hbm Hbt.
    destruct (deref (mQnam mid) (mReplyTria mid)); [|discriminate].
    intros [= <-]. simpl_members. rewrite Hl, Hlt, Hbm, Hbt. repeat split. }
  destruct (FIELD_COUNT_TRIA =? _)%nat.
  - apply Hmid. apply updateTriaInfo_frame.
  - apply Hmid. reflexivity.
Qed.

(** X4. A page made of segments that hold no [#], joined by the delimiter,
    is split into those segments again; when there are 81 of them (84 for the
    outdoor unit) the finished-slot leaves the record decoded from them. *)
Theorem page_round_trip (fields : QStringList) (this this' : SurfBeam2) :
  fields <> [] ->
  forallb (fun x => negb (contains x "#" CaseSensitive)) fields = true ->
  split (String.concat FIELD_DELIMITER fields) FIELD_DELIMITER = fields /\
  (mByteArrayModem this = String.concat FIELD_DELIMITER fields ->
   List.length fields = 81%nat ->
   httpFinishedModem this = Some this' ->
   mModemRawStringsList this' = fields /\ mModemInfo this' = modemRecordOf fields) /\
  (mByteArrayTria this = String.concat FIELD_DELIMITER fields ->
   List.length fields = 84%nat ->
   httpFinishedTria this = Some this' ->
   mTriaRawStringsList this' = fields /\ mTriaInfo this' = triaRecordOf fields).
Proof.
  intros Hne Hplain.
  assert (Hsplit : split (String.concat FIELD_DELIMITER fields) FIELD_DELIMITER = fields).
  { destruct fields as [|f fs]; [now elim Hne|].
    unfold split. now rewrite split_concat. }
  split; [exact Hsplit|]. split.
  - intros Hpage Hlen Hrun.
    destruct (httpFinishedModem_members _ _ Hrun) as (Hl & _).
    rewrite Hpage, Hsplit in Hl. split; [exact Hl|].
    rewrite (httpFinishedModem_decoded _ _ Hrun); rewrite Hpage, Hsplit; auto.
  - intros Hpage Hlen Hrun.
    destruct (httpFinishedTria_members _ _ Hrun) as (Hl & _).
    rewrite Hpage, Hsplit in Hl. split; [exact Hl|].
    rewrite (httpFinishedTria_decoded _ _ Hrun); rewrite Hpage, Hsplit; auto.
Qed.

(** X5. A text is split into at least one segment and into no more than one
    segment for every two characters, plus one.  So a modem page shorter than
    160 bytes, an outdoor-unit page shorter than 166 bytes and an empty page
    never change a record. *)
Theorem short_page_keeps_record (this this' : SurfBeam2) :
  (forall s : QString,
     (1 <= List.length (split s FIELD_DELIMITER) <= 1 + String.length s / 2)%nat) /\
  ((String.length (mByteArrayModem this) < 160)%nat ->
   httpFinishedModem this = Some this' -> mModemInfo this' = mModemInfo this) /\
  ((String.length (mByteArrayTria this) < 166)%nat ->
   httpFinishedTria this = Some this' -> mTriaInfo this' = mTriaInfo this).
Proof.
  assert (Hbound : forall s : QString,
     (1 <= List.length (split s FIELD_DELIMITER) <= 1 + String.length s / 2)%nat).
  { intros s. unfold split.
    destruct (splitFrom_length s 0 EmptyString) as (H1 & H2).
    rewrite Nat.sub_0_r in H2. split; [exact H1|].
    pose proof (Nat.div_mod_eq (String.length s) 2) as D.
    pose proof (Nat.mod_upper_bound (String.length s) 2 ltac:(lia)) as M. lia. }
  split; [exact Hbound|]. split.
  - intros Hshort Hrun. pose proof (httpFinishedModem_inv _ _ Hrun) as Hinv.
    cbn zeta in Hinv.
    destruct (Hbound (mByteArrayModem this)) as (_ & Hle).
    assert (Hdiv : (String.length (mByteArrayModem this) / 2 < 80)%nat)
      by (apply Nat.Div0.div_lt_upper_bound; lia).
    destruct (Nat.eqb_spec FIELD_COUNT_MODEM
                (List.length (split (mByteArrayModem this) FIELD_DELIMITER))) as [E|_].
    + unfold FIELD_COUNT_MODEM in E. lia.
    + now injection Hinv.
  - intros Hshort Hrun. pose proof (httpFinishedTria_inv _ _ Hrun) as Hinv.
    cbn zeta in Hinv.
    destruct (Hbound (mByteArrayTria this)) as (_ & Hle).
    assert (Hdiv : (String.length (mByteArrayTria this) / 2 < 83)%nat)
      by (apply Nat.Div0.div_lt_upper_bound; lia).
    destruct (Nat.eqb_spec FIELD_COUNT_TRIA
                (List.length (split (mByteArrayTria this) FIELD_DELIMITER))) as [E|_].
    + unfold FIELD_COUNT_TRIA in E. lia.
    + now injection Hinv.
Qed.

(** ** The 32-bit members *)

(** X7. The two symbol rates and the loss-of-sync count are held in 32 bits.
    The count is the low 32 bits of the number read from its segment.  A
    symbol rate below 2^32 is stored as it is read wherever [unsigned long]
    has at least 32 bits; a larger one is stored as 0 where [unsigned long]
    has 32 bits and by its low 32 bits where it has 64. *)
Theorem symbol_rates_by_platform (this this' : SurfBeam2) :
  httpFinishedModem this = Some this' ->
  let segments := split (mByteArrayModem this) FIELD_DELIMITER in
  List.length segments = 81%nat ->
  let up := toULongLong (nth 32 segments EmptyString) in
  let down := toULongLong (nth 50 segments EmptyString) in
  let info := mModemInfo this' in
  ((0 <= ModemInfo.UplinkSymbolRate info < 2 ^ 32)%Z /\
   (0 <= ModemInfo.DownlinkSymbolRate info < 2 ^ 32)%Z /\
   (0 <= ModemInfo.LossOfSyncCount info < 2 ^ 32)%Z) /\
  ModemInfo.LossOfSyncCount info =
    (toULongLong (nth 10 segments EmptyString) mod 2 ^ 32)%Z /\
  ((2 ^ 32 - 1 <= ULONG_MAX)%Z ->
   ((up < 2 ^ 32)%Z -> ModemInfo.UplinkSymbolRate info = up) /\
   ((down < 2 ^ 32)%Z -> ModemInfo.DownlinkSymbolRate info = down)) /\
  (ULONG_MAX = (2 ^ 32 - 1)%Z ->
   ((2 ^ 32 <= up)%Z -> ModemInfo.UplinkSymbolRate info = 0%Z) /\
   ((2 ^ 32 <= down)%Z -> ModemInfo.DownlinkSymbolRate info = 0%Z)) /\
  (ULONG_MAX = (2 ^ 64 - 1)%Z ->
   ModemInfo.UplinkSymbolRate info = (up mod 2 ^ 32)%Z /\
   ModemInfo.DownlinkSymbolRate info = (down mod 2 ^ 32)%Z).
Proof.
  intros Hrun segments Hlen up down info.
  unfold info. rewrite (httpFinishedModem_decoded _ _ Hrun Hlen). fold segments.
  cbn [modemRecordOf ModemInfo.UplinkSymbolRate ModemInfo.DownlinkSymbolRate
       ModemInfo.LossOfSyncCount].
  fold up down.
  pose proof (toULongLong_range (nth 32 segments EmptyString)) as Rup. fold up in Rup.
  pose proof (toULongLong_range (nth 50 segments EmptyString)) as Rdown. fold down in Rdown.
  unfold ULLONG_MAX in Rup, Rdown.
  assert (Hw : forall z, (0 <= wrap 32 z < 2 ^ 32)%Z)
    by (intros z; unfold wrap; apply Z.mod_pos_bound; lia).
  unfold toULong, toIntegral. cbn zeta. fold up down.
  split; [repeat split; apply Hw|]. split; [reflexivity|].
  split; [|split].
  - intros Hwide. split; intros Hfit.
    + destruct (Z.leb_spec up ULONG_MAX); [|lia]. apply wrap_small. lia.
    + destruct (Z.leb_spec down ULONG_MAX); [|lia]. apply wrap_small. lia.
  - intros ->. split; intros Hbig.
    + destruct (Z.leb_spec up (2 ^ 32 - 1)); [lia|reflexivity].
    + destruct (Z.leb_spec down (2 ^ 32 - 1)); [lia|reflexivity].
  - intros ->. split.
    + destruct (Z.leb_spec up (2 ^ 64 - 1)); [reflexivity|lia].
    + destruct (Z.leb_spec down (2 ^ 64 - 1)); [reflexivity|lia].
Qed.

(** ** A finished-slot that runs again *)

Lemma replaceAt_replaceAt {A : Type} (l : list A) (i : nat) (x y : A) :
  replaceAt i x (replaceAt i y l) = replaceAt i x l.
Proof.
  revert i; induction l as [|z l IH]; intros [|i]; cbn; try reflexivity.
  now rewrite IH.
Qed.

Lemma length_replaceAt {A : Type} (l : list A) (i : nat) (x : A) :
  List.length (replaceAt i x l) = List.length l.
Proof.
  revert i; induction l as [|z l IH]; intros [|i]; cbn; try reflexivity.
  now rewrite IH.
Qed.

(** Two objects with the same members are the same object. *)
Lemma SurfBeam2_ext (a b : SurfBeam2) :
  visible a = visible b -> mQnam a = mQnam b ->
  mReplyModem a = mReplyModem b -> mReplyTria a = mReplyTria b -> a = b.
Proof.
  destruct a, b. unfold visible. cbn. intros [= -> -> -> -> -> ->] -> -> ->. reflexivity.
Qed.

Lemma deref_scheduled (q : QNetworkAccessManager) (h : ReplyPtr) (r : QNetworkReply) :
  nth_error q h = Some r -> deref (replaceAt h (scheduled r) q) h = Some (scheduled r).
Proof.
  intros Hr. unfold deref. now rewrite nth_error_replaceAt, Nat.eqb_refl, Hr.
Qed.

(** X6. A finished-slot that has run leaves an object on which it changes
    nothing when it runs again: the same buffer gives the same segments and
    the same record, and the reply is already scheduled for deletion.  The
    second run always returns. *)
Theorem finished_slot_idempotent (this once : SurfBeam2) :
  (httpFinishedModem this = Some once -> httpFinishedModem once = Some once) /\
  (httpFinishedTria this = Some once -> httpFinishedTria once = Some once).
Proof.
  split; intros Hrun.
  - destruct (httpFinishedModem_shape _ _ Hrun) as (r & Hr & Hq & Hpm & Hpt).
    destruct (httpFinishedModem_members _ _ Hrun) as (Hl & Hlt & Hbm & Hbt).
    pose proof (httpFinishedModem_inv _ _ Hrun) as Hinv. cbn zeta in Hinv.
    assert (Hd : deref (mQnam once) (mReplyModem once) = Some (scheduled r))
      by (rewrite Hq, Hpm; now apply deref_scheduled).
    destruct (httpFinishedModem once) as [twice|] eqn:Hagain;
      [|exfalso; apply (httpFinishedModem_returns once); [congruence|exact Hagain]].
    f_equal.
    destruct (httpFinishedModem_shape _ _ Hagain) as (r2 & Hr2 & Hq2 & Hpm2 & Hpt2).
    destruct (httpFinishedModem_members _ _ Hagain) as (Hl2 & Hlt2 & Hbm2 & Hbt2).
    pose proof (httpFinishedModem_inv _ _ Hagain) as Hinv2. cbn zeta in Hinv2.
    apply deref_Some in Hd. rewrite Hd in Hr2. injection Hr2 as <-.
    apply SurfBeam2_ext; try assumption.
    + assert (Hm : mModemInfo twice = mModemInfo once).
      { destruct (Nat.eqb_spec FIELD_COUNT_MODEM
                    (List.length (split (mByteArrayModem this) FIELD_DELIMITER))) as [E|E].
        - rewrite (httpFinishedModem_decoded _ _ Hagain) by (rewrite Hbm; now symmetry).
          rewrite (httpFinishedModem_decoded _ _ Hrun) by now symmetry.
          now rewrite Hbm.
        - rewrite Hbm in Hinv2. apply Nat.eqb_neq in E. rewrite E in Hinv2.
          now injection Hinv2. }
      assert (Ht : mTriaInfo twice = mTriaInfo once)
        by (destruct (_ =? _)%nat in Hinv2; now injection Hinv2).
      unfold visible. rewrite Hm, Ht, Hl2, Hlt2, Hbm2, Hbt2, Hbm, <- Hl. reflexivity.
    + rewrite Hq2. apply replaceAt_same. exact Hd.
  - destruct (httpFinishedTria_shape _ _ Hrun) as (r & Hr & Hq & Hpm & Hpt).
    destruct (httpFinishedTria_members _ _ Hrun) as (Hl & Hlt & Hbm & Hbt).
    pose proof (httpFinishedTria_inv _ _ Hrun) as Hinv. cbn zeta in Hinv.
    assert (Hd : deref (mQnam once) (mReplyTria once) = Some (scheduled r))
      by (rewrite Hq, Hpt; now apply deref_scheduled).
    destruct (httpFinishedTria once) as [twice|] eqn:Hagain;
      [|exfalso; apply (httpFinishedTria_returns once); [congruence|exact Hagain]].
    f_equal.
    destruct (httpFinishedTria_shape _ _ Hagain) as (r2 & Hr2 & Hq2 & Hpm2 & Hpt2).
    destruct (httpFinishedTria_members _ _ Hagain) as (Hl2 & Hlt2 & Hbm2 & Hbt2).
    pose proof (httpFinishedTria_inv _ _ Hagain) as Hinv2. cbn zeta in Hinv2.
    apply deref_Some in Hd. rewrite Hd in Hr2. injection Hr2 as <-.
    apply SurfBeam2_ext; try assumption.
    + assert (Ht : mTriaInfo twice = mTriaInfo once).
      { destruct (Nat.eqb_spec FIELD_COUNT_TRIA
                    (List.length (split (mByteArrayTria this) FIELD_DELIMITER))) as [E|E].
        - rewrite (httpFinishedTria_decoded _ _ Hagain) by (rewrite Hbt; now symmetry).
          rewrite (httpFinishedTria_decoded _ _ Hrun) by now symmetry.
          now rewrite Hbt.
        - rewrite Hbt in Hinv2. apply Nat.eqb_neq in E. rewrite E in Hinv2.
          now injection Hinv2. }
      assert (Hm : mModemInfo twice = mModemInfo once)
        by (destruct (_ =? _)%nat in Hinv2; now injection Hinv2).
      unfold visible. rewrite Hm, Ht, Hl2, Hlt2, Hbm2, Hbt2, Hbt, <- Hl. reflexivity.
    + rewrite Hq2. apply replaceAt_same. exact Hd.
Qed.

(** ** Replies and pointers along a run *)

Lemma extends_refl (q : QNetworkAccessManager) : extends q q.
Proof. intros h r Hr. exists r. repeat split; auto. Qed.

Lemma extends_trans (q1 q2 q3 : QNetworkAccessManager) :
  extends q1 q2 -> extends q2 q3 -> extends q1 q3.
Proof.
  intros H12 H23 h r Hr.
  destruct (H12 h r Hr) as (r2 & Hr2 & Hf2 & Hrr2 & Hl2).
  destruct (H23 h r2 Hr2) as (r3 & Hr3 & Hf3 & Hrr3 & Hl3).
  exists r3. repeat split; try congruence. lia.
Qed.

Lemma extends_replaceAt (q : QNetworkAccessManager) (h : ReplyPtr) (r r' : QNetworkReply) :
  nth_error q h = Some r ->
  onFinished r' = onFinished r -> onReadyRead r' = onReadyRead r ->
  (lifetimeRank (lifetime r) <= lifetimeRank (lifetime r'))%nat ->
  extends q (replaceAt h r' q).
Proof.
  intros Hr Hf Hrr Hl j x Hx. rewrite nth_error_replaceAt.
  destruct (h =? j)%nat eqn:E.
  - apply Nat.eqb_eq in E. subst j. rewrite Hx. rewrite Hr in Hx. injection Hx as <-.
    exists r'. repeat split; auto.
  - exists x. repeat split; auto.
Qed.

Lemma extends_app (q ext : QNetworkAccessManager) : extends q (q ++ ext).
Proof.
  intros h r Hr. exists r. repeat split; auto.
  rewrite nth_error_app1; [exact Hr|]. apply nth_error_Some. congruence.
Qed.

(** A reply a pointer can be used on has not been destroyed. *)
Lemma deref_rank (q : QNetworkAccessManager) (h : ReplyPtr) (r : QNetworkReply) :
  deref q h = Some r -> nth_error q h = Some r /\ (lifetimeRank (lifetime r) <= 1)%nat.
Proof.
  unfold deref. destruct (nth_error q h) as [x|]; [|discriminate].
  destruct (lifetime x) eqn:L; intros [= <-]; rewrite L; cbn; auto.
Qed.

(** A finished-slot that returns has used a reply that was not destroyed. *)
Lemma httpFinished_alive (this this' : SurfBeam2) :
  (httpFinishedModem this = Some this' -> deref (mQnam this) (mReplyModem this) <> None) /\
  (httpFinishedTria this = Some this' -> deref (mQnam this) (mReplyTria this) <> None).
Proof.
  split.
  - unfold httpFinishedModem. cbn zeta.
    set (decoded := set_mModemRawStringsList _ this).
    assert (Hmid : forall mid, outsideModemInfo mid = outsideModemInfo decoded ->
              match deref (mQnam mid) (mReplyModem mid) with
              | Some r =>
                  Some (set_mQnam (setReply (mReplyModem mid) (scheduled r) (mQnam mid)) mid)
              | None => None
              end = Some this' ->
              deref (mQnam this) (mReplyModem this) <> None).
    { intros mid H. unfold outsideModemInfo in H.
      injection H as _ _ _ Hq Hm _ _ _. rewrite Hq, Hm.
      change (mQnam decoded) with (mQnam this).
      change (mReplyModem decoded) with (mReplyModem this).
      destruct (deref (mQnam this) (mReplyModem this)); discriminate. }
    destruct (FIELD_COUNT_MODEM =? _)%nat.
    + apply Hmid. apply updateModemInfo_frame.
    + apply Hmid. reflexivity.
  - unfold httpFinishedTria. cbn zeta.
    set (decoded := set_mTriaRawStringsList _ this).
    assert (Hmid : forall mid, outsideTriaInfo mid = outsideTriaInfo decoded ->
              match deref (mQnam mid) (mReplyTria mid) with
              | Some r =>
                  Some (set_mQnam (setReply (mReplyTria mid) (scheduled r) (mQnam mid)) mid)
              | None => None
              end = Some this' ->
              deref (mQnam this) (mReplyTria this) <> None).
    { intros mid H. unfold outsideTriaInfo in H.
      injection H as _ _ _ Hq _ Ht _ _. rewrite Hq, Ht.
      change (mQnam decoded) with (mQnam this).
      change (mReplyTria decoded) with (mReplyTria this).
      destruct (deref (mQnam this) (mReplyTria this)); discriminate. }
    destruct (FIELD_COUNT_TRIA =? _)%nat.
    + apply Hmid. apply updateTriaInfo_frame.
    + apply Hmid. reflexivity.
Qed.

(** What a slot leaves of the manager and of the two pointers. *)
Lemma invoke_store (s : Slot) (this this' : SurfBeam2) :
  invoke s this = Some this' ->
  mReplyModem this' = mReplyModem this /\ mReplyTria this' = mReplyTria this /\
  List.length (mQnam this') = List.length (mQnam this) /\
  extends (mQnam this) (mQnam this').
Proof.
  destruct s; cbn [invoke]; intros Hrun.
  - destruct (httpFinishedModem_shape _ _ Hrun) as (r & Hr & Hq & Hpm & Hpt).
    pose proof (proj1 (httpFinished_alive _ _) Hrun) as Ha.
    destruct (deref (mQnam this) (mReplyModem this)) as [x|] eqn:E; [|now elim Ha].
    apply deref_rank in E. destruct E as (Hx & Hrank).
    rewrite Hr in Hx. injection Hx as <-.
    rewrite Hq, length_replaceAt. repeat split; auto.
    now apply (extends_replaceAt _ _ r).
  - destruct (httpFinishedTria_shape _ _ Hrun) as (r & Hr & Hq & Hpm & Hpt).
    pose proof (proj2 (httpFinished_alive _ _) Hrun) as Ha.
    destruct (deref (mQnam this) (mReplyTria this)) as [x|] eqn:E; [|now elim Ha].
    apply deref_rank in E. destruct E as (Hx & Hrank).
    rewrite Hr in Hx. injection Hx as <-.
    rewrite Hq, length_replaceAt. repeat split; auto.
    now apply (extends_replaceAt _ _ r).
  - unfold httpReadyReadModem in Hrun.
    destruct (deref (mQnam this) (mReplyModem this)) as [r|] eqn:E; [|discriminate].
    apply deref_rank in E. destruct E as (Hr & _). injection Hrun as <-.
    simpl_members. unfold setReply. rewrite length_replaceAt. repeat split; auto.
    now apply (extends_replaceAt _ _ r).
  - unfold httpReadyReadTria in Hrun.
    destruct (deref (mQnam this) (mReplyTria this)) as [r|] eqn:E; [|discriminate].
    apply deref_rank in E. destruct E as (Hr & _). injection Hrun as <-.
    simpl_members. unfold setReply. rewrite length_replaceAt. repeat split; auto.
    now apply (extends_replaceAt _ _ r).
Qed.

Lemma emit_store (slots : list Slot) (this this' : SurfBeam2) :
  emit slots this = Some this' ->
  mReplyModem this' = mReplyModem this /\ mReplyTria this' = mReplyTria this /\
  List.length (mQnam this') = List.length (mQnam this) /\
  extends (mQnam this) (mQnam this').
Proof.
  revert this; induction slots as [|s rest IH]; intros this; cbn [emit].
  - intros [= <-]. repeat split; auto using extends_refl.
  - destruct (invoke s this) as [mid|] eqn:E; [|discriminate].
    intros Hrest. destruct (invoke_store _ _ _ E) as (A1 & A2 & A3 & A4).
    destruct (IH _ Hrest) as (B1 & B2 & B3 & B4).
    repeat split; try congruence. eapply extends_trans; eauto.
Qed.

(** What an event leaves of the manager and of the two pointers: the tick
    adds two replies and points to them, any other event keeps the pointers
    and the number of replies. *)
Lemma step_store (this this' : SurfBeam2) (e : Event) :
  step this e = Some this' ->
  extends (mQnam this) (mQnam this') /\
  match e with
  | Timeout =>
      List.length (mQnam this') = (List.length (mQnam this) + 2)%nat /\
      mReplyModem this' = List.length (mQnam this) /\
      mReplyTria this' = S (List.length (mQnam this))
  | _ =>
      List.length (mQnam this') = List.length (mQnam this) /\
      mReplyModem this' = mReplyModem this /\ mReplyTria this' = mReplyTria this
  end.
Proof.
  destruct e as [|h bytes|h|h]; cbn [step].
  - intros [= <-]. rewrite startCgiRequest_eq. cbn [mQnam mReplyModem mReplyTria].
    rewrite length_app. cbn [List.length]. repeat split; auto using extends_app.
  - destruct (deref (mQnam this) h) as [r|] eqn:E;
      [|intros [= <-]; repeat split; auto using extends_refl].
    apply deref_rank in E. destruct E as (Hr & _). intros Hemit.
    destruct (emit_store _ _ _ Hemit) as (A1 & A2 & A3 & A4).
    revert A1 A2 A3 A4. simpl_members. unfold setReply. rewrite length_replaceAt.
    intros A1 A2 A3 A4. repeat split; auto.
    eapply extends_trans; [|exact A4].
    now apply (extends_replaceAt _ _ r).
  - destruct (deref (mQnam this) h) as [r|] eqn:E;
      [|intros [= <-]; repeat split; auto using extends_refl].
    intros Hemit. destruct (emit_store _ _ _ Hemit) as (A1 & A2 & A3 & A4).
    repeat split; auto.
  - destruct (nth_error (mQnam this) h) as [r|] eqn:E;
      [|intros [= <-]; repeat split; auto using extends_refl].
    destruct (lifetime r) eqn:L; intros [= <-];
      simpl_members; unfold setReply; rewrite ?length_replaceAt;
      repeat split; auto using extends_refl.
    apply (extends_replaceAt _ _ r); auto. rewrite L. cbn. lia.
Qed.

Lemma run_store (events : list Event) (this reached : SurfBeam2) :
  run this events = Some reached ->
  extends (mQnam this) (mQnam reached) /\
  List.length (mQnam reached) = (List.length (mQnam this) + 2 * timeouts events)%nat /\
  (mReplyModem this + 2 = List.length (mQnam this) ->
   mReplyTria this + 1 = List.length (mQnam this) ->
   mReplyModem reached + 2 = List.length (mQnam reached) /\
   mReplyTria reached + 1 = List.length (mQnam reached))%nat.
Proof.
  revert this; induction events as [|e rest IH]; intros this; cbn [run].
  - intros [= <-]. cbn [timeouts]. repeat split; auto using extends_refl; lia.
  - destruct (step this e) as [mid|] eqn:E; [|discriminate].
    intros Hrest. destruct (step_store _ _ _ E) as (Hext & He).
    destruct (IH _ Hrest) as (Hext' & Hlen & Hptr).
    split; [eapply extends_trans; eauto|].
    destruct e; cbn [timeouts]; destruct He as (L & Pm & Pt);
      (split; [lia|]); intros Hm Ht; apply Hptr; lia.
Qed.

(** X8. Every tick of the timer issues two requests and no other event
    issues one: after a run from the constructor with [n] ticks, [2 (n + 1)]
    replies have been created, and the two pointers are on the two replies of
    the last tick. *)
Theorem requests_per_tick (modem : ModemInfo.t) (tria : TriaInfo.t)
  (events : list Event) (reached : SurfBeam2) :
  run (SurfBeam2_new modem tria) events = Some reached ->
  List.length (mQnam reached) = (2 * (1 + timeouts events))%nat /\
  mReplyModem reached = (2 * timeouts events)%nat /\
  mReplyTria reached = (2 * timeouts events + 1)%nat.
Proof.
  intros Hrun. destruct (run_store _ _ _ Hrun) as (_ & Hlen & Hptr).
  unfold SurfBeam2_new in Hlen, Hptr. rewrite startCgiRequest_eq in Hlen, Hptr.
  cbn [mQnam mReplyModem mReplyTria List.length app] in Hlen, Hptr.
  destruct (Hptr eq_refl eq_refl) as (Hm & Ht). lia.
Qed.

(** X9. No event disconnects a reply, removes it from the manager or takes
    it back in its life: along a run every reply keeps its position and its
    two connections, a reply scheduled for deletion stays scheduled or is
    destroyed, and a destroyed reply stays destroyed. *)
Theorem replies_are_never_disconnected (this reached : SurfBeam2) (events : list Event)
  (h : ReplyPtr) (r : QNetworkReply) :
  run this events = Some reached ->
  nth_error (mQnam this) h = Some r ->
  exists r', nth_error (mQnam reached) h = Some r' /\
             onFinished r' = onFinished r /\ onReadyRead r' = onReadyRead r /\
             (lifetime r = DeleteLater -> lifetime r' <> Alive) /\
             (lifetime r = Destroyed -> lifetime r' = Destroyed).
Proof.
  intros Hrun Hr. destruct (run_store _ _ _ Hrun) as (Hext & _).
  destruct (Hext h r Hr) as (r' & Hr' & Hf & Hrr & Hrank).
  exists r'. repeat split; auto.
  - intros L. rewrite L in Hrank. destruct (lifetime r'); cbn in Hrank; [lia|discriminate..].
  - intros L. rewrite L in Hrank. destruct (lifetime r'); cbn in Hrank; [lia..|reflexivity].
Qed.

(** X10. In an object the event loop reaches from the constructor, a signal
    of a reply a pointer is on never makes a slot use a destroyed reply; nor
    does a tick or a deferred deletion.  Only a signal of a superseded reply
    can. *)
Theorem tracked_signals_are_safe (modem : ModemInfo.t) (tria : TriaInfo.t)
  (events : list Event) (reached : SurfBeam2) (e : Event) :
  run (SurfBeam2_new modem tria) events = Some reached ->
  match e with
  | Arrived h _ | Completed h => tracked reached h = true
  | _ => True
  end ->
  step reached e <> None.
Proof.
  intros Hrun He.
  assert (Hs : settled reached)
    by (apply (settled_run events (SurfBeam2_new modem tria)); auto using settled_new).
  destruct Hs as ((Hall & Hcm & Hct) & _).
  destruct e as [|h bytes|h|h]; cbn [step].
  - discriminate.
  - destruct (deref (mQnam reached) h) as [r|] eqn:E; [|discriminate].
    pose proof E as E'. apply deref_rank in E'. destruct E' as (Hr & Hrank).
    assert (Hd : deref (setReply h (received bytes r) (mQnam reached)) h
                 = Some (received bytes r)).
    { unfold deref, setReply. rewrite nth_error_replaceAt, Nat.eqb_refl, Hr.
      cbn [received lifetime]. destruct (lifetime r); cbn in Hrank; [reflexivity..|lia]. }
    apply orb_true_iff in He. destruct He as [Hh|Hh]; apply Nat.eqb_eq in Hh; subst h.
    + destruct (Hcm r Hr) as (_ & ->). cbn [emit invoke].
      unfold httpReadyReadModem. simpl_members. rewrite Hd. discriminate.
    + destruct (Hct r Hr) as (_ & ->). cbn [emit invoke].
      unfold httpReadyReadTria. simpl_members. rewrite Hd. discriminate.
  - destruct (deref (mQnam reached) h) as [r|] eqn:E; [|discriminate].
    pose proof E as E'. apply deref_rank in E'. destruct E' as (Hr & _).
    apply orb_true_iff in He. destruct He as [Hh|Hh]; apply Nat.eqb_eq in Hh; subst h.
    + destruct (Hcm r Hr) as (-> & _). cbn [emit invoke].
      destruct (httpFinishedModem reached) eqn:R; [discriminate|].
      exfalso. apply (httpFinishedModem_returns reached); [congruence|exact R].
    + destruct (Hct r Hr) as (-> & _). cbn [emit invoke].
      destruct (httpFinishedTria reached) eqn:R; [discriminate|].
      exfalso. apply (httpFinishedTria_returns reached); [congruence|exact R].
  - destruct (nth_error (mQnam reached) h) as [r|]; [|discriminate].
    destruct (lifetime r); discriminate.
Qed.

(** ** A poll cycle without an overrun *)

Lemma concat_empty_cons (x : QByteArray) (xs : list QByteArray) :
  String.concat EmptyString (x :: xs) = (x ++ String.concat EmptyString xs)%string.
Proof.
  destruct xs; cbn [String.concat append]; [now rewrite append_empty|reflexivity].
Qed.

Lemma drained_received (r : QNetworkReply) (bytes : QByteArray) :
  unread r = EmptyString -> drained (received bytes r) = r.
Proof. destruct r; cbn. now intros ->. Qed.

Lemma deref_received (q : QNetworkAccessManager) (h : ReplyPtr) (r : QNetworkReply)
  (bytes : QByteArray) :
  deref q h = Some r ->
  deref (setReply h (received bytes r) q) h = Some (received bytes r).
Proof.
  intros E. apply deref_rank in E. destruct E as (Hr & Hrank).
  unfold deref, setReply. rewrite nth_error_replaceAt, Nat.eqb_refl, Hr.
  cbn [received lifetime]. destruct (lifetime r); cbn in Hrank; [reflexivity..|lia].
Qed.

(** Bytes that arrive on the reply a pointer is on, when the reply holds no
    unread bytes, are appended to the buffer; nothing else changes. *)
Lemma arrived_on_modem (this : SurfBeam2) (h : ReplyPtr) (r : QNetworkReply)
  (bytes : QByteArray) :
  mReplyModem this = h -> deref (mQnam this) h = Some r ->
  onReadyRead r = [SLOT_httpReadyReadModem] -> unread r = EmptyString ->
  step this (Arrived h bytes) =
  Some (set_mByteArrayModem (mByteArrayModem this ++ bytes)%string this).
Proof.
  intros <- E Hrr Hu. cbn [step]. rewrite E, Hrr. cbn [emit invoke].
  unfold httpReadyReadModem. simpl_members. rewrite (deref_received _ _ _ _ E).
  f_equal. apply deref_rank in E. destruct E as (Hr & _).
  apply SurfBeam2_ext; unfold visible; simpl_members; try reflexivity.
  - cbn [received unread]. rewrite Hu. reflexivity.
  - unfold setReply. rewrite replaceAt_replaceAt, drained_received by exact Hu.
    now apply replaceAt_same.
Qed.

Lemma arrived_on_tria (this : SurfBeam2) (h : ReplyPtr) (r : QNetworkReply)
  (bytes : QByteArray) :
  mReplyTria this = h -> deref (mQnam this) h = Some r ->
  onReadyRead r = [SLOT_httpReadyReadTria] -> unread r = EmptyString ->
  step this (Arrived h bytes) =
  Some (set_mByteArrayTria (mByteArrayTria this ++ bytes)%string this).
Proof.
  intros <- E Hrr Hu. cbn [step]. rewrite E, Hrr. cbn [emit invoke].
  unfold httpReadyReadTria. simpl_members. rewrite (deref_received _ _ _ _ E).
  f_equal. apply deref_rank in E. destruct E as (Hr & _).
  apply SurfBeam2_ext; unfold visible; simpl_members; try reflexivity.
  - cbn [received unread]. rewrite Hu. reflexivity.
  - unfold setReply. rewrite replaceAt_replaceAt, drained_received by exact Hu.
    now apply replaceAt_same.
Qed.

Lemma nth_error_deref (q : QNetworkAccessManager) (h : ReplyPtr) (r : QNetworkReply) :
  nth_error q h = Some r -> lifetime r = Alive -> deref q h = Some r.
Proof. intros Hr Hl. unfold deref. now rewrite Hr, Hl. Qed.

(** A reply that has ended delivers nothing in what follows. *)
Lemma orderly_ended_modem (modem tria : ReplyPtr) (events : list Event) (endedTria : bool) :
  orderly modem tria true endedTria events = true -> arrivedOn modem events = [].
Proof.
  revert endedTria; induction events as [|[|h bytes|h|h] rest IH]; intros et; cbn [orderly arrivedOn].
  - reflexivity.
  - discriminate.
  - destruct (h =? modem)%nat; [discriminate|].
    intros H. apply andb_true_iff in H. now apply (IH et).
  - destruct (h =? modem)%nat; [discriminate|].
    destruct (h =? tria)%nat; [|discriminate].
    intros H. apply andb_true_iff in H. now apply (IH true).
  - apply IH.
Qed.

Lemma orderly_ended_tria (modem tria : ReplyPtr) (events : list Event) (endedModem : bool) :
  modem <> tria ->
  orderly modem tria endedModem true events = true -> arrivedOn tria events = [].
Proof.
  intros Hne.
  revert endedModem; induction events as [|[|h bytes|h|h] rest IH]; intros em;
    cbn [orderly arrivedOn].
  - reflexivity.
  - discriminate.
  - destruct (Nat.eqb_spec h tria) as [->|_].
    + destruct (Nat.eqb_spec tria modem) as [E|_]; [now elim Hne|discriminate].
    + intros H. apply andb_true_iff in H. now apply (IH em).
  - destruct (Nat.eqb_spec h modem) as [->|_].
    + intros H. apply andb_true_iff in H. now apply (IH true).
    + destruct (h =? tria)%nat; discriminate.
  - apply IH.
Qed.

Lemma orderly_run (modem tria : ReplyPtr) (events : list Event) :
  modem <> tria ->
  forall (this : SurfBeam2) (endedModem endedTria : bool),
    orderly modem tria endedModem endedTria events = true ->
    mReplyModem this = modem -> mReplyTria this = tria ->
    (endedModem = false -> nth_error (mQnam this) modem = Some modemReply) ->
    (endedTria = false -> nth_error (mQnam this) tria = Some triaReply) ->
    exists final,
      run this events = Some final /\
      mByteArrayModem final =
        (mByteArrayModem this ++ String.concat EmptyString (arrivedOn modem events))%string /\
      mByteArrayTria final =
        (mByteArrayTria this ++ String.concat EmptyString (arrivedOn tria events))%string /\
      (mModemRawStringsList final, mModemInfo final) =
        shownAfter endedModem 81 modemRecordOf
          (mByteArrayModem this ++ String.concat EmptyString (arrivedOn modem events))%string
          (mModemRawStringsList this, mModemInfo this) /\
      (mTriaRawStringsList final, mTriaInfo final) =
        shownAfter endedTria 84 triaRecordOf
          (mByteArrayTria this ++ String.concat EmptyString (arrivedOn tria events))%string
          (mTriaRawStringsList this, mTriaInfo this).
Proof.
  intros Hne.
  induction events as [|e rest IH]; intros this em et Hord Hpm Hpt Hm Ht.
  - cbn [orderly] in Hord. apply andb_true_iff in Hord. destruct Hord as (-> & ->).
    exists this. cbn [run arrivedOn String.concat shownAfter]. rewrite !append_empty.
    repeat split.
  - destruct e as [|h bytes|h|h]; cbn [orderly] in Hord.
    + discriminate.
    + (* bytes arrive *)
      apply andb_true_iff in Hord. destruct Hord as (Hh & Hord).
      destruct (Nat.eqb_spec h modem) as [->|Hhm].
      * apply negb_true_iff in Hh. subst em. specialize (Hm eq_refl).
        pose proof (arrived_on_modem this modem modemReply bytes Hpm
                      (nth_error_deref _ _ _ Hm eq_refl) eq_refl eq_refl) as Hstep.
        destruct (IH (set_mByteArrayModem (mByteArrayModem this ++ bytes)%string this)
                    false et Hord Hpm Hpt (fun _ => Hm) Ht)
          as (final & Hrun & Hbm & Hbt & Hsm & Hst).
        exists final. cbn [run]. rewrite Hstep. split; [exact Hrun|].
        cbn [arrivedOn]. rewrite Nat.eqb_refl.
        destruct (Nat.eqb_spec modem tria) as [E|_]; [now elim Hne|].
        revert Hbm Hbt Hsm Hst. simpl_members.
        rewrite concat_empty_cons, <- append_assoc. auto.
      * destruct (Nat.eqb_spec h tria) as [->|Hht]; [|discriminate].
        apply negb_true_iff in Hh. subst et. specialize (Ht eq_refl).
        pose proof (arrived_on_tria this tria triaReply bytes Hpt
                      (nth_error_deref _ _ _ Ht eq_refl) eq_refl eq_refl) as Hstep.
        destruct (IH (set_mByteArrayTria (mByteArrayTria this ++ bytes)%string this)
                    em false Hord Hpm Hpt Hm (fun _ => Ht))
          as (final & Hrun & Hbm & Hbt & Hsm & Hst).
        exists final. cbn [run]. rewrite Hstep. split; [exact Hrun|].
        cbn [arrivedOn]. rewrite Nat.eqb_refl.
        destruct (Nat.eqb_spec tria modem) as [E|_]; [now elim Hne|].
        revert Hbm Hbt Hsm Hst. simpl_members.
        rewrite concat_empty_cons, <- append_assoc. auto.
    + (* a reply ends *)
      destruct (Nat.eqb_spec h modem) as [->|Hhm].
      * apply andb_true_iff in Hord. destruct Hord as (Hh & Hord).
        apply negb_true_iff in Hh. subst em. specialize (Hm eq_refl).
        pose proof (nth_error_deref _ _ _ Hm eq_refl) as Hd.
        destruct (httpFinishedModem this) as [next|] eqn:R;
          [|exfalso; apply (httpFinishedModem_returns this); [rewrite Hpm; congruence|exact R]].
        destruct (httpFinishedModem_shape _ _ R) as (r & Hr & Hq & Hpm' & Hpt').
        destruct (httpFinishedModem_members _ _ R) as (Hl & Hlt & Hbm' & Hbt').
        pose proof (httpFinishedModem_inv _ _ R) as Hinv. cbn zeta in Hinv.
        assert (Hrec : mModemInfo next =
                       if (List.length (split (mByteArrayModem this) FIELD_DELIMITER) =? 81)%nat
                       then modemRecordOf (split (mByteArrayModem this) FIELD_DELIMITER)
                       else mModemInfo this).
        { destruct (Nat.eqb_spec (List.length (split (mByteArrayModem this) FIELD_DELIMITER)) 81)
            as [E|E].
          - now apply (httpFinishedModem_decoded this next R).
          - rewrite Nat.eqb_sym in Hinv. apply Nat.eqb_neq in E.
            unfold FIELD_COUNT_MODEM in Hinv. rewrite E in Hinv. now injection Hinv. }
        assert (Hother : mTriaInfo next = mTriaInfo this)
          by (destruct (_ =? _)%nat in Hinv; now injection Hinv).
        assert (Ht' : et = false -> nth_error (mQnam next) tria = Some triaReply).
        { intros E. rewrite Hq, nth_error_replaceAt, Hpm.
          destruct (Nat.eqb_spec modem tria) as [E'|_]; [now elim Hne|auto]. }
        destruct (IH next true et Hord (eq_trans Hpm' Hpm) (eq_trans Hpt' Hpt)
                    (fun E => False_ind _ (diff_true_false E)) Ht')
          as (final & Hrun & Hbm & Hbt & Hsm & Hst).
        exists final. cbn [run step]. rewrite Hd. cbn [onFinished modemReply emit invoke].
        rewrite R. split; [exact Hrun|].
        cbn [arrivedOn]. rewrite (orderly_ended_modem _ _ _ _ Hord) in *.
        cbn [String.concat] in *. rewrite append_empty in *.
        split; [congruence|]. split; [congruence|]. split.
        -- rewrite Hsm. cbn [shownAfter snd]. now rewrite Hl, Hrec.
        -- rewrite Hst, Hbt', Hlt, Hother. reflexivity.
      * destruct (Nat.eqb_spec h tria) as [->|Hht]; [|discriminate].
        apply andb_true_iff in Hord. destruct Hord as (Hh & Hord).
        apply negb_true_iff in Hh. subst et. specialize (Ht eq_refl).
        pose proof (nth_error_deref _ _ _ Ht eq_refl) as Hd.
        destruct (httpFinishedTria this) as [next|] eqn:R;
          [|exfalso; apply (httpFinishedTria_returns this); [rewrite Hpt; congruence|exact R]].
        destruct (httpFinishedTria_shape _ _ R) as (r & Hr & Hq & Hpm' & Hpt').
        destruct (httpFinishedTria_members _ _ R) as (Hl & Hlm & Hbm' & Hbt').
        pose proof (httpFinishedTria_inv _ _ R) as Hinv. cbn zeta in Hinv.
        assert (Hrec : mTriaInfo next =
                       if (List.length (split (mByteArrayTria this) FIELD_DELIMITER) =? 84)%nat
                       then triaRecordOf (split (mByteArrayTria this) FIELD_DELIMITER)
                       else mTriaInfo this).
        { destruct (Nat.eqb_spec (List.length (split (mByteArrayTria this) FIELD_DELIMITER)) 84)
            as [E|E].
          - now apply (httpFinishedTria_decoded this next R).
          - rewrite Nat.eqb_sym in Hinv. apply Nat.eqb_neq in E.
            unfold FIELD_COUNT_TRIA in Hinv. rewrite E in Hinv. now injection Hinv. }
        assert (Hother : mModemInfo next = mModemInfo this)
          by (destruct (_ =? _)%nat in Hinv; now injection Hinv).
        assert (Hm' : em = false -> nth_error (mQnam next) modem = Some modemReply).
        { intros E. rewrite Hq, nth_error_replaceAt, Hpt.
          destruct (Nat.eqb_spec tria modem) as [E'|_]; [now elim Hne|auto]. }
        destruct (IH next em true Hord (eq_trans Hpm' Hpm) (eq_trans Hpt' Hpt)
                    Hm' (fun E => False_ind _ (diff_true_false E)))
          as (final & Hrun & Hbm & Hbt & Hsm & Hst).
        exists final. cbn [run step]. rewrite Hd. cbn [onFinished triaReply emit invoke].
        rewrite R. split; [exact Hrun|].
        cbn [arrivedOn]. rewrite (orderly_ended_tria _ _ _ _ Hne Hord) in *.
        cbn [String.concat] in *. rewrite append_empty in *.
        split; [congruence|]. split; [congruence|]. split.
        -- rewrite Hsm, Hbm', Hlm, Hother. reflexivity.
        -- rewrite Hst. cbn [shownAfter snd]. now rewrite Hl, Hrec.
    + (* a deferred deletion *)
      assert (Hstep : exists next,
                 step this (DeferredDelete h) = Some next /\
                 visible next = visible this /\
                 mReplyModem next = mReplyModem this /\ mReplyTria next = mReplyTria this /\
                 (forall j r, nth_error (mQnam this) j = Some r -> lifetime r = Alive ->
                              nth_error (mQnam next) j = Some r)).
      { cbn [step]. destruct (nth_error (mQnam this) h) as [r|] eqn:E.
        - destruct (lifetime r) eqn:L;
            [exists this; repeat split; now auto| |exists this; repeat split; now auto].
          eexists. split; [reflexivity|]. unfold visible. simpl_members.
          repeat split. intros j x Hx Hl. unfold setReply. rewrite nth_error_replaceAt.
          destruct (Nat.eqb_spec h j) as [->|_]; [|exact Hx]. congruence.
        - exists this. repeat split; now auto. }
      destruct Hstep as (next & Hstep & Hv & Hpm' & Hpt' & Hkeep).
      destruct (IH next em et Hord (eq_trans Hpm' Hpm) (eq_trans Hpt' Hpt)
                  (fun E => Hkeep _ _ (Hm E) eq_refl) (fun E => Hkeep _ _ (Ht E) eq_refl))
        as (final & Hrun & Hbm & Hbt & Hsm & Hst).
      exists final. cbn [run]. rewrite Hstep. split; [exact Hrun|].
      cbn [arrivedOn]. unfold visible in Hv. injection Hv as H1 H2 H3 H4 H5 H6.
      rewrite Hbm, Hbt, Hsm, Hst, H1, H2, H3, H4, H5, H6. repeat split.
Qed.

(** X11. A poll cycle without an overrun, from any object and in any order of
    its events: after the tick, the pieces that arrive on each of the two new
    replies are joined in the reply's buffer in the order they arrive, however
    the pages are cut and whichever reply delivers or ends first; when both
    replies have ended, each record is the one decoded from its page if the
    page has the expected number of segments, and the one held before the
    cycle if not.  The cycle always runs to its end. *)
Theorem orderly_cycle_decodes (this : SurfBeam2) (events : list Event) :
  let modem := List.length (mQnam this) in
  let tria := S modem in
  orderly modem tria false false events = true ->
  let modemPage := String.concat EmptyString (arrivedOn modem events) in
  let triaPage := String.concat EmptyString (arrivedOn tria events) in
  let modemSegments := split modemPage FIELD_DELIMITER in
  let triaSegments := split triaPage FIELD_DELIMITER in
  exists final,
    run this (Timeout :: events) = Some final /\
    mByteArrayModem final = modemPage /\ mByteArrayTria final = triaPage /\
    mModemRawStringsList final = modemSegments /\
    mTriaRawStringsList final = triaSegments /\
    mModemInfo final = (if (List.length modemSegments =? 81)%nat
                        then modemRecordOf modemSegments else mModemInfo this) /\
    mTriaInfo final = (if (List.length triaSegments =? 84)%nat
                       then triaRecordOf triaSegments else mTriaInfo this).
Proof.
  intros modem tria Hord modemPage triaPage modemSegments triaSegments.
  cbn [run step]. rewrite startCgiRequest_eq.
  set (begun := mkSurfBeam2 _ _ _ _ _ _ _ _ _).
  assert (Hm : nth_error (mQnam begun) modem = Some modemReply).
  { unfold begun, modem. simpl_members. rewrite nth_error_app2 by lia.
    now rewrite Nat.sub_diag. }
  assert (Ht : nth_error (mQnam begun) tria = Some triaReply).
  { unfold begun, tria, modem. simpl_members. rewrite nth_error_app2 by lia.
    replace (S (List.length (mQnam this)) - List.length (mQnam this))%nat with 1%nat by lia.
    reflexivity. }
  destruct (orderly_run modem tria events ltac:(unfold tria; lia) begun false false Hord
              eq_refl eq_refl (fun _ => Hm) (fun _ => Ht))
    as (final & Hrun & Hbm & Hbt & Hsm & Hst).
  exists final. split; [exact Hrun|].
  unfold begun in Hbm, Hbt, Hsm, Hst. revert Hbm Hbt Hsm Hst. simpl_members.
  cbn [append shownAfter snd]. fold modemPage triaPage modemSegments triaSegments.
  intros Hbm Hbt [= Hs1 Hs2] [= Hs3 Hs4]. repeat split; assumption.
Qed.

(** ** The shape of a printed number *)














Lemma fraction_positive (m : positive) (e a b : Z) :
  Binary64.fraction m e = (a, b) -> (0 < a)%Z /\ (0 < b)%Z.
Proof.
  unfold Binary64.fraction. destruct (Z.leb_spec 0 e) as [He|He]; intros H.
  - assert (Hp : (0 < 2 ^ e)%Z) by (apply Z.pow_pos_nonneg; lia).
    pose proof (f_equal fst H) as Ha. pose proof (f_equal snd H) as Hb.
    cbn [fst snd] in Ha, Hb. rewrite <- Ha, <- Hb.
    split; [|lia]. apply Z.mul_pos_pos; [reflexivity|exact Hp].
  - assert (Hp : (0 < 2 ^ (- e))%Z) by (apply Z.pow_pos_nonneg; lia).
    pose proof (f_equal fst H) as Ha. pose proof (f_equal snd H) as Hb.
    cbn [fst snd] in Ha, Hb. rewrite <- Ha, <- Hb.
    split; [reflexivity|exact Hp].
Qed.




(** ** The two printing functions agree

    [Binary64.number] works on the exact fraction of a binary64 number,
    [QString_number] on a real number; they print the same text for the
    same value. *)

Open Scope R_scope.

Lemma Zfloor_ratio (n b : Z) : (0 < b)%Z -> Zfloor (IZR n / IZR b) = (n / b)%Z.
Proof.
  intros Hb. apply Zfloor_eq.
  assert (Hb' : 0 < IZR b) by now apply IZR_lt.
  pose proof (Z.div_mod n b ltac:(lia)) as Hdm.
  pose proof (Z.mod_pos_bound n b Hb) as Hmod.
  assert (Hn : IZR n = IZR b * IZR (n / b) + IZR (n mod b)).
  { rewrite <- mult_IZR, <- plus_IZR. now f_equal. }
  assert (H0 : 0 <= IZR (n mod b)) by (apply IZR_le; lia).
  assert (H1 : IZR (n mod b) < IZR b) by (apply IZR_lt; lia).
  rewrite Hn. split.
  - apply Rmult_le_reg_r with (IZR b); [exact Hb'|].
    unfold Rdiv. rewrite Rmult_assoc, Rinv_l by lra. nra.
  - apply Rmult_lt_reg_r with (IZR b); [exact Hb'|].
    unfold Rdiv. rewrite Rmult_assoc, Rinv_l by lra. nra.
Qed.

Lemma roundHalfEven_ratio (n b : Z) :
  (0 < b)%Z -> roundHalfEven (IZR n / IZR b) = Binary64.roundRatio n b.
Proof.
  intros Hb. unfold roundHalfEven, Binary64.roundRatio. cbn zeta.
  rewrite (Zfloor_ratio n b Hb).
  assert (Hb' : 0 < IZR b) by now apply IZR_lt.
  pose proof (Z.div_mod n b ltac:(lia)) as Hdm.
  assert (Hn : IZR n = IZR b * IZR (n / b) + IZR (n mod b)).
  { rewrite <- mult_IZR, <- plus_IZR. now f_equal. }
  assert (Hd : IZR n / IZR b - IZR (n / b) = IZR (n mod b) / IZR b).
  { rewrite Hn at 1. field. lra. }
  rewrite Hd.
  assert (Hlt : IZR (n mod b) / IZR b < 1 / 2 <-> (2 * (n mod b) < b)%Z).
  { split; intros H.
    - apply lt_IZR. rewrite mult_IZR.
      apply Rmult_lt_compat_r with (r := IZR b) in H; [|exact Hb'].
      unfold Rdiv in H. rewrite Rmult_assoc, Rinv_l in H by lra. lra.
    - apply IZR_lt in H. rewrite mult_IZR in H.
      apply Rmult_lt_reg_r with (IZR b); [exact Hb'|].
      unfold Rdiv. rewrite Rmult_assoc, Rinv_l by lra. lra. }
  assert (Hgt : 1 / 2 < IZR (n mod b) / IZR b <-> (b < 2 * (n mod b))%Z).
  { split; intros H.
    - apply lt_IZR. rewrite mult_IZR.
      apply Rmult_lt_compat_r with (r := IZR b) in H; [|exact Hb'].
      unfold Rdiv in H. rewrite (Rmult_assoc (IZR (n mod b))), Rinv_l in H by lra. lra.
    - apply IZR_lt in H. rewrite mult_IZR in H.
      apply Rmult_lt_reg_r with (IZR b); [exact Hb'|].
      unfold Rdiv. rewrite (Rmult_assoc (IZR (n mod b))), Rinv_l by lra. lra. }
  destruct (Rlt_dec (IZR (n mod b) / IZR b) (1 / 2)) as [H|H].
  - apply Hlt in H. apply Z.ltb_lt in H. now rewrite H.
  - assert (H' : (2 * (n mod b) <? b)%Z = false) by (apply Z.ltb_ge; apply Z.le_ngt; tauto).
    rewrite H'.
    destruct (Rlt_dec (1 / 2) (IZR (n mod b) / IZR b)) as [G|G].
    + apply Hgt in G. apply Z.ltb_lt in G. now rewrite G.
    + assert (G' : (b <? 2 * (n mod b))%Z = false)
        by (apply Z.ltb_ge; apply Z.le_ngt; tauto).
      now rewrite G'.
Qed.

Lemma powerRZ_IZR (z k : Z) : (0 <= k)%Z -> powerRZ (IZR z) k = IZR (z ^ k).
Proof.
  intros Hk. rewrite <- (Z2Nat.id k Hk). rewrite <- pow_powerRZ, pow_IZR. reflexivity.
Qed.

Lemma powerRZ_IZR_neg (z k : Z) : (k < 0)%Z -> powerRZ (IZR z) k = / IZR (z ^ (- k)).
Proof.
  intros Hk. replace k with (- (- k))%Z at 1 by lia.
  rewrite powerRZ_neg', powerRZ_IZR by lia. reflexivity.
Qed.

(** The magnitude of a finite number is its fraction. *)
Lemma fraction_value (m : positive) (e a b : Z) :
  Binary64.fraction m e = (a, b) ->
  (0 < a)%Z /\ (0 < b)%Z /\ IZR (Z.pos m) * powerRZ 2 e = IZR a / IZR b.
Proof.
  intros H. destruct (fraction_positive _ _ _ _ H) as (Ha & Hb).
  split; [exact Ha|]. split; [exact Hb|].
  unfold Binary64.fraction in H. destruct (Z.leb_spec 0 e) as [He|He].
  - pose proof (f_equal fst H) as H1. pose proof (f_equal snd H) as H2.
    cbn [fst snd] in H1, H2. rewrite <- H1, <- H2.
    rewrite mult_IZR, (powerRZ_IZR 2 e He). unfold Rdiv. now rewrite Rinv_1, Rmult_1_r.
  - pose proof (f_equal fst H) as H1. pose proof (f_equal snd H) as H2.
    cbn [fst snd] in H1, H2. rewrite <- H1, <- H2.
    now rewrite (powerRZ_IZR_neg 2 e He).
Qed.

Lemma signOf_value (negative : bool) (v : R) :
  0 < v -> signOf (if negative then - v else v) = Binary64.minusSign negative /\
           Rabs (if negative then - v else v) = v.
Proof.
  intros Hv. unfold signOf. destruct negative; cbn [Binary64.minusSign].
  - destruct (Rlt_dec (- v) 0) as [_|H]; [|exfalso; lra].
    split; [reflexivity|]. rewrite Rabs_Ropp. apply Rabs_pos_eq. lra.
  - destruct (Rlt_dec v 0) as [H|_]; [exfalso; lra|].
    split; [reflexivity|]. apply Rabs_pos_eq. lra.
Qed.

Lemma roundScaled_value (a b k : Z) :
  (0 < b)%Z ->
  roundHalfEven (IZR a / IZR b * powerRZ 10 k) = Binary64.roundScaled a b k.
Proof.
  intros Hb. unfold Binary64.roundScaled.
  assert (Hb' : IZR b <> 0) by (apply not_0_IZR; lia).
  destruct (Z.leb_spec 0 k) as [Hk|Hk].
  - rewrite <- roundHalfEven_ratio by exact Hb. f_equal.
    rewrite mult_IZR, (powerRZ_IZR 10 k Hk). field. exact Hb'.
  - assert (Hp : (0 < 10 ^ (- k))%Z) by (apply Z.pow_pos_nonneg; lia).
    rewrite <- roundHalfEven_ratio by lia. f_equal.
    rewrite mult_IZR, (powerRZ_IZR_neg 10 k Hk).
    field. split; [apply not_0_IZR; lia|exact Hb'].
Qed.

(** In the fixed format, [Binary64.number] prints what [QString_number]
    prints for the value of the number. *)
Lemma number_fixed_value (x : float) (negative : bool) (m : positive) (e : Z) (prec : nat) :
  Prim2SF x = S754_finite negative m e ->
  Binary64.number x FormatF prec = QString_number (toR x) FormatF prec.
Proof.
  intros Hx. unfold Binary64.number, toR. rewrite Hx. cbn zeta.
  destruct (Binary64.fraction m e) as (a, b) eqn:F.
  destruct (fraction_value _ _ _ _ F) as (Ha & Hb & Hv).
  assert (Hpos : 0 < IZR (Z.pos m) * powerRZ 2 e).
  { rewrite Hv. apply Rdiv_lt_0_compat; apply IZR_lt; lia. }
  destruct (signOf_value negative _ Hpos) as (Hs & Habs).
  cbn [QString_number]. unfold numberF. rewrite Hs, Habs, Hv. do 2 f_equal.
  rewrite <- (roundScaled_value a b (Z.of_nat prec) Hb). f_equal. f_equal.
  now rewrite pow_powerRZ.
Qed.

(** *** The decimal exponent *)

Lemma length_string_of_uint (d : Decimal.uint) :
  String.length (NilEmpty.string_of_uint d) = Decimal.nb_digits d.
Proof. induction d; cbn; congruence. Qed.

Lemma of_lu_upper (d : Decimal.uint) :
  (DecimalPos.Unsigned.of_lu d < 10 ^ N.of_nat (Decimal.nb_digits d))%N.
Proof.
  induction d; cbn [DecimalPos.Unsigned.of_lu Decimal.nb_digits];
    rewrite ?Nnat.Nat2N.inj_succ, ?N.pow_succ_r'; cbn [N.of_nat N.pow]; lia.
Qed.

Lemma usize_digits (d : Decimal.uint) :
  DecimalPos.Unsigned.usize d = N.of_nat (Decimal.nb_digits d).
Proof.
  induction d; cbn [DecimalPos.Unsigned.usize Decimal.nb_digits];
    rewrite ?Nnat.Nat2N.inj_succ; [reflexivity|congruence..].
Qed.

Lemma of_uint_lower (d : Decimal.uint) :
  Decimal.nzhead d = d -> d <> Decimal.Nil ->
  (10 ^ N.of_nat (Nat.pred (Decimal.nb_digits d)) <= Pos.of_uint d)%N.
Proof.
  intros Hn Hd. destruct d as [|u|u|u|u|u|u|u|u|u|u]; [congruence| |..].
  { exfalso. cbn [Decimal.nzhead] in Hn.
    pose proof (DecimalFacts.nb_digits_nzhead u) as H. rewrite Hn in H.
    cbn [Decimal.nb_digits] in H. lia. }
  all: rewrite DecimalPos.Unsigned.of_uint_alt; unfold Decimal.rev;
    cbn [Decimal.revapp]; rewrite DecimalPos.Unsigned.of_lu_revapp;
    cbn [DecimalPos.Unsigned.of_lu Decimal.nb_digits Nat.pred];
    rewrite usize_digits; nia.
Qed.

(** A positive number lies between the powers of ten of its number of
    digits. *)
Lemma decimalDigits_bounds (n : Z) :
  (0 < n)%Z ->
  let len := Z.of_nat (String.length (decimalDigits n)) in
  (0 < len /\ 10 ^ (len - 1) <= n < 10 ^ len)%Z.
Proof.
  intros Hn. destruct n as [|p|p]; try lia.
  unfold decimalDigits. change (N.to_uint (Z.to_N (Z.pos p))) with (Pos.to_uint p).
  set (d := Pos.to_uint p).
  assert (Hnil : d <> Decimal.Nil) by apply DecimalPos.Unsigned.to_uint_nonnil.
  assert (Hval : Pos.of_uint d = N.pos p) by apply DecimalPos.Unsigned.of_to.
  assert (Hnorm : Decimal.unorm d = d).
  { rewrite <- (DecimalPos.Unsigned.to_of d), Hval. reflexivity. }
  assert (Hhead : Decimal.nzhead d = d).
  { unfold Decimal.unorm in Hnorm.
    destruct (Decimal.nzhead d) eqn:E; try exact Hnorm.
    exfalso. apply (DecimalPos.Unsigned.to_uint_nonzero p). symmetry. exact Hnorm. }
  assert (Hlen : String.length (NilZero.string_of_uint d) = Decimal.nb_digits d).
  { unfold NilZero.string_of_uint.
    destruct d eqn:E; [congruence|..]; apply length_string_of_uint. }
  rewrite Hlen. cbn zeta.
  assert (Hpos : (0 < Decimal.nb_digits d)%nat).
  { destruct d; [congruence|..]; cbn; lia. }
  pose proof (of_uint_lower d Hhead Hnil) as Hlo. rewrite Hval in Hlo.
  pose proof (of_lu_upper (Decimal.rev d)) as Hhi.
  rewrite <- DecimalPos.Unsigned.of_uint_alt, Hval, DecimalFacts.nb_digits_rev in Hhi.
  split; [lia|].
  replace (Z.of_nat (Decimal.nb_digits d) - 1)%Z
    with (Z.of_N (N.of_nat (Nat.pred (Decimal.nb_digits d)))) by lia.
  replace (Z.of_nat (Decimal.nb_digits d))
    with (Z.of_N (N.of_nat (Decimal.nb_digits d))) at 2 by lia.
  change 10%Z with (Z.of_N 10). rewrite <- !N2Z.inj_pow.
  change (Z.pos p) with (Z.of_N (N.pos p)). lia.
Qed.

Lemma decimalDigits_bounds_real (n : Z) :
  (0 < n)%Z ->
  let len := Z.of_nat (String.length (decimalDigits n)) in
  powerRZ 10 (len - 1) <= IZR n < powerRZ 10 len.
Proof.
  intros Hn len. destruct (decimalDigits_bounds n Hn) as (Hlen & Hlo & Hhi).
  fold len in Hlen, Hlo, Hhi.
  rewrite (powerRZ_IZR 10 (len - 1)), (powerRZ_IZR 10 len) by lia.
  split; [now apply IZR_le | now apply IZR_lt].
Qed.

Lemma powerRZ_ten_succ (k : Z) : powerRZ 10 (k + 1) = powerRZ 10 k * 10.
Proof. rewrite powerRZ_add by lra. now rewrite powerRZ_1. Qed.

(** [decimalExponent] is the decimal exponent of the fraction. *)
Lemma decimalExponent_spec (a b : Z) :
  (0 < a)%Z -> (0 < b)%Z ->
  let e := Binary64.decimalExponent a b in
  powerRZ 10 e <= IZR a / IZR b < powerRZ 10 (e + 1).
Proof.
  intros Ha Hb. unfold Binary64.decimalExponent.
  set (la := Z.of_nat (String.length (decimalDigits a))).
  set (lb := Z.of_nat (String.length (decimalDigits b))).
  destruct (decimalDigits_bounds_real a Ha) as (Hal & Hah). fold la in Hal, Hah.
  destruct (decimalDigits_bounds_real b Hb) as (Hbl & Hbh). fold lb in Hbl, Hbh.
  assert (Ha' : 0 < IZR a) by now apply IZR_lt.
  assert (Hb' : 0 < IZR b) by now apply IZR_lt.
  set (e := (la - lb)%Z).
  assert (Pe : 0 < powerRZ 10 e) by (apply powerRZ_lt; lra).
  assert (Plb : 0 < powerRZ 10 (lb - 1)) by (apply powerRZ_lt; lra).
  assert (Plb' : 0 < powerRZ 10 lb) by (apply powerRZ_lt; lra).
  assert (Ela : powerRZ 10 la = powerRZ 10 e * powerRZ 10 lb).
  { rewrite <- powerRZ_add by lra. f_equal. unfold e. lia. }
  assert (Ela' : powerRZ 10 (la - 1) * 10 = powerRZ 10 e * powerRZ 10 lb).
  { rewrite <- powerRZ_ten_succ, <- powerRZ_add by lra. f_equal. unfold e. lia. }
  assert (Elb : powerRZ 10 lb = powerRZ 10 (lb - 1) * 10).
  { rewrite <- powerRZ_ten_succ. f_equal. lia. }
  (* the quotient lies strictly between 10^(e-1) and 10^(e+1) *)
  assert (Hup : IZR a < powerRZ 10 e * 10 * IZR b) by nra.
  assert (Hdown : powerRZ 10 e * IZR b < IZR a * 10) by nra.
  assert (Hreached :
    (if (0 <=? e)%Z then (b * 10 ^ e <=? a)%Z else (b <=? a * 10 ^ (- e))%Z) = true
    <-> powerRZ 10 e * IZR b <= IZR a).
  { destruct (Z.leb_spec 0 e) as [He|He].
    - rewrite (powerRZ_IZR 10 e He), Z.leb_le, <- mult_IZR.
      split; intros H.
      + apply IZR_le. lia.
      + apply le_IZR in H. lia.
    - assert (Hp : (0 < 10 ^ (- e))%Z) by (apply Z.pow_pos_nonneg; lia).
      assert (Hp' : 0 < IZR (10 ^ (- e))) by now apply IZR_lt.
      rewrite (powerRZ_IZR_neg 10 e He), Z.leb_le.
      assert (Hq : 0 < / IZR (10 ^ (- e))) by now apply Rinv_0_lt_compat.
      assert (Hqp : / IZR (10 ^ (- e)) * IZR (10 ^ (- e)) = 1) by (apply Rinv_l; lra).
      set (q := / IZR (10 ^ (- e))) in *. set (P := IZR (10 ^ (- e))) in *.
      split; intros H.
      + apply IZR_le in H. rewrite mult_IZR in H. fold P in H.
        pose proof (Rmult_le_compat_l q _ _ (Rlt_le _ _ Hq) H) as H'.
        replace (q * (IZR a * P)) with (IZR a * (q * P)) in H' by ring.
        rewrite Hqp in H'. lra.
      + apply le_IZR. rewrite mult_IZR. fold P.
        pose proof (Rmult_le_compat_l P _ _ (Rlt_le _ _ Hp') H) as H'.
        replace (P * (q * IZR b)) with (q * P * IZR b) in H' by ring.
        rewrite Hqp in H'. lra. }
  cbn zeta.
  destruct (if (0 <=? e)%Z then (b * 10 ^ e <=? a)%Z else (b <=? a * 10 ^ (- e))%Z) eqn:R.
  - assert (H : powerRZ 10 e * IZR b <= IZR a) by now apply Hreached.
    rewrite powerRZ_ten_succ. split.
    + apply Rmult_le_reg_r with (IZR b); [exact Hb'|].
      unfold Rdiv. rewrite Rmult_assoc, Rinv_l by lra. lra.
    + apply Rmult_lt_reg_r with (IZR b); [exact Hb'|].
      unfold Rdiv. rewrite Rmult_assoc, Rinv_l by lra. lra.
  - assert (H : ~ powerRZ 10 e * IZR b <= IZR a).
    { intros H. apply Hreached in H. congruence. }
    replace (e - 1 + 1)%Z with e by lia.
    assert (E1 : powerRZ 10 e = powerRZ 10 (e - 1) * 10).
    { rewrite <- powerRZ_ten_succ. f_equal. lia. }
    assert (P1 : 0 < powerRZ 10 (e - 1)) by (apply powerRZ_lt; lra).
    split.
    + apply Rmult_le_reg_r with (IZR b); [exact Hb'|].
      unfold Rdiv. rewrite Rmult_assoc, Rinv_l by lra. nra.
    + apply Rmult_lt_reg_r with (IZR b); [exact Hb'|].
      unfold Rdiv. rewrite Rmult_assoc, Rinv_l by lra. lra.
Qed.

Lemma Zfloor_log10 (x : R) (e : Z) :
  powerRZ 10 e <= x < powerRZ 10 (e + 1) -> Zfloor (ln x / ln 10) = e.
Proof.
  intros (Hlo & Hhi).
  assert (P : 0 < powerRZ 10 e) by (apply powerRZ_lt; lra).
  assert (L10 : 0 < ln 10).
  { rewrite <- ln_1. apply ln_increasing; lra. }
  assert (Le : ln (powerRZ 10 e) = IZR e * ln 10).
  { rewrite powerRZ_Rpower by lra. apply ln_Rpower. }
  assert (Le1 : ln (powerRZ 10 (e + 1)) = (IZR e + 1) * ln 10).
  { rewrite powerRZ_Rpower by lra. rewrite ln_Rpower, plus_IZR. reflexivity. }
  assert (Hl : IZR e * ln 10 <= ln x).
  { rewrite <- Le. destruct Hlo as [Hlo|Hlo].
    - left. apply ln_increasing; assumption.
    - right. now rewrite Hlo. }
  assert (Hh : ln x < (IZR e + 1) * ln 10).
  { rewrite <- Le1. apply ln_increasing; lra. }
  apply Zfloor_eq. split.
  - apply Rmult_le_reg_r with (ln 10); [exact L10|].
    unfold Rdiv. rewrite Rmult_assoc, Rinv_l by lra. lra.
  - apply Rmult_lt_reg_r with (ln 10); [exact L10|].
    unfold Rdiv. rewrite Rmult_assoc, Rinv_l by lra. lra.
Qed.

(** In the general format as well. *)
Lemma number_general_value (x : float) (negative : bool) (m : positive) (e : Z) (prec : nat) :
  Prim2SF x = S754_finite negative m e ->
  Binary64.number x FormatG prec = QString_number (toR x) FormatG prec.
Proof.
  intros Hx. unfold Binary64.number, toR. rewrite Hx. cbn zeta.
  destruct (Binary64.fraction m e) as (a, b) eqn:F.
  destruct (fraction_value _ _ _ _ F) as (Ha & Hb & Hv).
  assert (Hpos : 0 < IZR (Z.pos m) * powerRZ 2 e).
  { rewrite Hv. apply Rdiv_lt_0_compat; apply IZR_lt; lia. }
  destruct (signOf_value negative _ Hpos) as (Hs & Habs).
  cbn [QString_number]. unfold numberG. cbn zeta.
  destruct (Req_dec_T (if negative then - (IZR (Z.pos m) * powerRZ 2 e)
                       else IZR (Z.pos m) * powerRZ 2 e) 0) as [Z0|_].
  { exfalso. destruct negative; lra. }
  rewrite Hs, Habs, Hv.
  rewrite (Zfloor_log10 _ _ (decimalExponent_spec a b Ha Hb)).
  rewrite (roundScaled_value a b _ Hb).
  unfold Binary64.generalDigits, Binary64.generalText. cbn zeta.
  destruct (10 ^ Z.of_nat match prec with O => 1%nat | _ => prec end
            <=? Binary64.roundScaled a b
                  (Z.of_nat match prec with O => 1%nat | _ => prec end - 1
                   - Binary64.decimalExponent a b))%Z; reflexivity.
Qed.

(** A finite number is printed as its value is. *)
Lemma number_value (x : float) (negative : bool) (m : positive) (e : Z)
  (format : NumberFormat) (prec : nat) :
  Prim2SF x = S754_finite negative m e ->
  Binary64.number x format prec = QString_number (toR x) format prec.
Proof.
  intros Hx. destruct format.
  - exact (number_fixed_value x negative m e prec Hx).
  - exact (number_general_value x negative m e prec Hx).
Qed.

Close Scope R_scope.

(** ** Properties of the display *)

Open Scope R_scope.

Lemma color_case (c : SatelliteStatusBeamColor)
  (on : (QLabel.t -> QLabel.t) -> Ui.t -> Ui.t) (ui : Ui.t) :
  match c with
  | SATELLITE_STATUS_BEAM_COLOR_BLUE =>
      ("Blue"%string, on (QLabel.setStyleSheet "QLabel { color : blue; }") ui)
  | SATELLITE_STATUS_BEAM_COLOR_ORANGE =>
      ("Orange"%string, on (QLabel.setStyleSheet "QLabel { color : orange; }") ui)
  | SATELLITE_STATUS_BEAM_COLOR_PURPLE =>
      ("Purple"%string, on (QLabel.setStyleSheet "QLabel { color : purple; }") ui)
  | SATELLITE_STATUS_BEAM_COLOR_GREEN =>
      ("Green"%string, on (QLabel.setStyleSheet "QLabel { color : green; }") ui)
  | _ => ("unknown"%string, on (QLabel.setStyleSheet "QLabel { color : black; }") ui)
  end = (colorName c, on (QLabel.setStyleSheet (colorStyle c)) ui).
Proof. destruct c; reflexivity. Qed.

Lemma bytes_case (bytes : uint64_t) :
  (if Rge_dec (IZR bytes) ONE_GB
   then (Binary64.number (Binary64.ofZ bytes / Binary64.ONE_GB)%float FormatF 3,
         "GBytes"%string)
   else if Rge_dec (IZR bytes) ONE_MB
   then (Binary64.number (Binary64.ofZ bytes / Binary64.ONE_MB)%float FormatF 3,
         "MBytes"%string)
   else if Rge_dec (IZR bytes) ONE_KB
   then (Binary64.number (Binary64.ofZ bytes / Binary64.ONE_KB)%float FormatF 3,
         "kBytes"%string)
   else (QString_number_unsigned bytes, "Bytes"%string)) =
  (bytesAmount bytes, bytesUnits bytes).
Proof.
  unfold bytesAmount, bytesUnits.
  repeat match goal with |- context [Rge_dec ?a ?b] => destruct (Rge_dec a b) end;
    reflexivity.
Qed.

Lemma snr_case (x : double) (ui : Ui.t) :
  (if Rge_dec x 10
   then Ui.on_rxSnrProgressbar (QProgressBar.setStyleSheet STYLE_CHUNK_GREEN) ui
   else if Rge_dec x 7
   then Ui.on_rxSnrProgressbar (QProgressBar.setStyleSheet STYLE_CHUNK_YELLOW) ui
   else if Rge_dec x 4
   then Ui.on_rxSnrProgressbar (QProgressBar.setStyleSheet STYLE_CHUNK_ORANGE) ui
   else Ui.on_rxSnrProgressbar (QProgressBar.setStyleSheet STYLE_CHUNK_RED) ui) =
  Ui.on_rxSnrProgressbar (QProgressBar.setStyleSheet (snrStyle x)) ui.
Proof.
  unfold snrStyle.
  repeat match goal with |- context [Rge_dec ?a ?b] => destruct (Rge_dec a b) end;
    reflexivity.
Qed.

Lemma updateContent_eq (this : SurfBeam2) (ui : Ui.t) :
  updateContent this ui = rendered this ui.
Proof.
  unfold updateContent. cbn zeta.
  rewrite (color_case _ Ui.on_modemColorLabel).
  cbn iota.
  rewrite (color_case _ Ui.on_triaColorLabel).
  cbn iota.
  rewrite !bytes_case. cbn iota.
  rewrite snr_case.
  destruct ui. reflexivity.
Qed.

Lemma setValue_follows (percent : Z) (w : QProgressBar.t) :
  barFollows percent w (QProgressBar.setValue percent w).
Proof.
  unfold barFollows, QProgressBar.setValue.
  destruct (Z.ltb_spec (QProgressBar.maximum w) percent);
    destruct (Z.ltb_spec percent (QProgressBar.minimum w));
    destruct (Z.eqb_spec (QProgressBar.maximum w) 0);
    destruct (Z.eqb_spec (QProgressBar.minimum w) 0);
    cbn [orb andb negb QProgressBar.minimum QProgressBar.maximum QProgressBar.value];
    repeat split; intros; try reflexivity; lia.
Qed.



(** X14. Each of the two colour labels shows the name of the record's beam
    colour in the colour of that name, and "unknown" in black for the unknown
    colour.  For a record that was decoded from a segment, the name shown
    occurs in the segment, whatever the case of its letters, and "unknown" is
    shown exactly when the segment holds none of the four colour names. *)
Theorem beam_colour_labels (this : SurfBeam2) (ui : Ui.t) :
  (Ui.modemColorLabel (updateContent this ui) =
     {| QLabel.text := colorName (ModemInfo.SatStatusBeamColor (mModemInfo this));
        QLabel.styleSheet := colorStyle (ModemInfo.SatStatusBeamColor (mModemInfo this)) |} /\
   Ui.triaColorLabel (updateContent this ui) =
     {| QLabel.text := colorName (TriaInfo.SatStatusBeamColor (mTriaInfo this));
        QLabel.styleSheet := colorStyle (TriaInfo.SatStatusBeamColor (mTriaInfo this)) |}) /\
  (forall c : SatelliteStatusBeamColor,
     In (colorName c) ["Blue"; "Orange"; "Purple"; "Green"; "unknown"]%string /\
     colorStyle c =
       ("QLabel { color : "
        ++ (if String.eqb (colorName c) "unknown" then "black" else folded (colorName c))
        ++ "; }")%string) /\
  (forall segment : QString,
     let c := beamColorFromString segment in
     (colorName c <> "unknown"%string ->
      contains segment (colorName c) CaseInsensitive = true) /\
     (colorName c = "unknown"%string <->
      forall keyword member, In (keyword, member) beamColorKeywords ->
                             contains segment keyword CaseInsensitive = false)).
Proof.
  split; [|split].
  - rewrite updateContent_eq. split; reflexivity.
  - intros c. destruct c; cbn; auto 10.
  - intros segment c. unfold c, beamColorFromString.
    pose proof (proj2 (contains_folded segment "Blue")) as Fb.
    pose proof (proj2 (contains_folded segment "Orange")) as Fo.
    pose proof (proj2 (contains_folded segment "Purple")) as Fp.
    pose proof (proj2 (contains_folded segment "Green")) as Fg.
    change (folded "Blue") with "blue"%string in Fb.
    change (folded "Orange") with "orange"%string in Fo.
    change (folded "Purple") with "purple"%string in Fp.
    change (folded "Green") with "green"%string in Fg.
    assert (Hin : forall keyword member,
              In (keyword, member) beamColorKeywords ->
              (forall k m, In (k, m) beamColorKeywords ->
                           contains segment k CaseInsensitive = false) ->
              contains segment keyword CaseInsensitive = true -> False).
    { intros keyword member Hk Hnone Ht. rewrite (Hnone _ _ Hk) in Ht. discriminate. }
    destruct (contains segment "blue" CaseInsensitive) eqn:B.
    { cbn [colorName]. split; [intros _; now rewrite <- Fb|].
      split; [discriminate|]. intros Hnone. exfalso.
      apply (Hin "blue"%string SATELLITE_STATUS_BEAM_COLOR_BLUE); cbn; auto. }
    destruct (contains segment "orange" CaseInsensitive) eqn:O.
    { cbn [colorName]. split; [intros _; now rewrite <- Fo|].
      split; [discriminate|]. intros Hnone. exfalso.
      apply (Hin "orange"%string SATELLITE_STATUS_BEAM_COLOR_ORANGE); cbn; auto. }
    destruct (contains segment "purple" CaseInsensitive) eqn:P.
    { cbn [colorName]. split; [intros _; now rewrite <- Fp|].
      split; [discriminate|]. intros Hnone. exfalso.
      apply (Hin "purple"%string SATELLITE_STATUS_BEAM_COLOR_PURPLE); cbn; auto. }
    destruct (contains segment "green" CaseInsensitive) eqn:G.
    { cbn [colorName]. split; [intros _; now rewrite <- Fg|].
      split; [discriminate|]. intros Hnone. exfalso.
      apply (Hin "green"%string SATELLITE_STATUS_BEAM_COLOR_GREEN); cbn; auto 6. }
    cbn [colorName]. split; [intros Hname; now elim Hname|].
    split; [|reflexivity]. intros _ keyword member Hk.
    repeat (destruct Hk as [[= <- <-]|Hk]; [assumption|]). destruct Hk.
Qed.

(** X15. The polarization label shows the first of left, right, horizontal
    and vertical whose keyword occurs in the record's polarization type, and
    "unknown" exactly when none occurs; the case of the letters of the type
    never matters. *)
Theorem polarization_label (this : SurfBeam2) (ui : Ui.t) :
  QLabel.text (Ui.polarizationLabel (updateContent this ui)) =
    polarizationText (TriaInfo.PolarizationType (mTriaInfo this)) /\
  (forall s : QString,
     polarizationText (folded s) = polarizationText s /\
     In (polarizationText s)
        ["Circular Left"; "Circular Right"; "Horizontal"; "Vertical"; "unknown"]%string /\
     (polarizationText s = "unknown"%string <->
      contains s "left" CaseInsensitive = false /\
      contains s "right" CaseInsensitive = false /\
      contains s "horiz" CaseInsensitive = false /\
      contains s "vert" CaseInsensitive = false) /\
     (contains s "left" CaseInsensitive = true -> polarizationText s = "Circular Left"%string) /\
     (contains s "left" CaseInsensitive = false ->
      contains s "right" CaseInsensitive = true ->
      polarizationText s = "Circular Right"%string)).
Proof.
  split; [rewrite updateContent_eq; reflexivity|].
  intros s. unfold polarizationText.
  rewrite !(proj1 (contains_folded s _)).
  destruct (contains s "left" CaseInsensitive);
    destruct (contains s "right" CaseInsensitive);
    destruct (contains s "horiz" CaseInsensitive);
    destruct (contains s "vert" CaseInsensitive);
    cbn [In]; repeat split; auto 10; try discriminate;
    intros; repeat match goal with H : _ /\ _ |- _ => destruct H end;
    try discriminate; auto.
Qed.

(** X16. [updateContent] never changes the range of a progress bar.  Each
    bar shows its percent member when the range of the bar holds it, and
    keeps the value it had when the member is outside the range.  The style
    of the signal-to-noise bar follows the level: green from 10 dB, yellow
    from 7 dB, orange from 4 dB, red below; the other five bars keep the style
    they have. *)
Theorem progress_bars_follow_percent (this : SurfBeam2) (ui : Ui.t) :
  let shown := updateContent this ui in
  let snr := ModemInfo.RxSnrDb (mModemInfo this) in
  (barFollows (ModemInfo.RxSnrPercent (mModemInfo this))
     (Ui.rxSnrProgressbar ui) (Ui.rxSnrProgressbar shown) /\
   barFollows (ModemInfo.RxPwrPercent (mModemInfo this))
     (Ui.rxRfPowerProgressbar ui) (Ui.rxRfPowerProgressbar shown) /\
   barFollows (TriaInfo.TxIfPwrPercent (mTriaInfo this))
     (Ui.txIfPowerProgressbar ui) (Ui.txIfPowerProgressbar shown) /\
   barFollows (TriaInfo.TxRfPwrPercent (mTriaInfo this))
     (Ui.txRfPowerProgressbar ui) (Ui.txRfPowerProgressbar shown) /\
   barFollows (ModemInfo.CableAttenuationPercent (mModemInfo this))
     (Ui.cableAttenuationProgressbar ui) (Ui.cableAttenuationProgressbar shown) /\
   barFollows (ModemInfo.CableResistancePercent (mModemInfo this))
     (Ui.cableResistanceProgressbar ui) (Ui.cableResistanceProgressbar shown)) /\
  ((10 <= snr -> QProgressBar.styleSheet (Ui.rxSnrProgressbar shown) = STYLE_CHUNK_GREEN) /\
   (7 <= snr < 10 -> QProgressBar.styleSheet (Ui.rxSnrProgressbar shown) = STYLE_CHUNK_YELLOW) /\
   (4 <= snr < 7 -> QProgressBar.styleSheet (Ui.rxSnrProgressbar shown) = STYLE_CHUNK_ORANGE) /\
   (snr < 4 -> QProgressBar.styleSheet (Ui.rxSnrProgressbar shown) = STYLE_CHUNK_RED)) /\
  (QProgressBar.styleSheet (Ui.rxRfPowerProgressbar shown) =
     QProgressBar.styleSheet (Ui.rxRfPowerProgressbar ui) /\
   QProgressBar.styleSheet (Ui.txIfPowerProgressbar shown) =
     QProgressBar.styleSheet (Ui.txIfPowerProgressbar ui) /\
   QProgressBar.styleSheet (Ui.txRfPowerProgressbar shown) =
     QProgressBar.styleSheet (Ui.txRfPowerProgressbar ui) /\
   QProgressBar.styleSheet (Ui.cableAttenuationProgressbar shown) =
     QProgressBar.styleSheet (Ui.cableAttenuationProgressbar ui) /\
   QProgressBar.styleSheet (Ui.cableResistanceProgressbar shown) =
     QProgressBar.styleSheet (Ui.cableResistanceProgressbar ui)).
Proof.
  intros shown snr. unfold shown. rewrite updateContent_eq.
  cbn [rendered Ui.rxSnrProgressbar Ui.rxRfPowerProgressbar Ui.txIfPowerProgressbar
       Ui.txRfPowerProgressbar Ui.cableAttenuationProgressbar Ui.cableResistanceProgressbar].
  assert (Hstyle : forall p w,
            QProgressBar.styleSheet (QProgressBar.setValue p w) = QProgressBar.styleSheet w)
    by (intros p w; unfold QProgressBar.setValue; destruct (_ && _); reflexivity).
  split; [|split].
  - repeat split; apply setValue_follows.
  - cbn [QProgressBar.setStyleSheet QProgressBar.styleSheet]. fold snr. unfold snrStyle.
    repeat split; intros;
      repeat match goal with |- context [Rge_dec ?a ?b] => destruct (Rge_dec a b) end;
      try reflexivity; lra.
  - rewrite !Hstyle. repeat split.
Qed.

(** *** The form along a run *)

Lemma updateContent_records (a b : SurfBeam2) (ui : Ui.t) :
  mModemInfo a = mModemInfo b -> mTriaInfo a = mTriaInfo b ->
  updateContent a ui = updateContent b ui.
Proof. intros Hm Ht. rewrite !updateContent_eq. unfold rendered. now rewrite Hm, Ht. Qed.

Lemma unvalued_setValue (p : Z) (w : QProgressBar.t) :
  unvalued (QProgressBar.setValue p w) = unvalued w.
Proof. unfold QProgressBar.setValue. destruct (_ && _); reflexivity. Qed.

Lemma unvalued_setStyleSheet (s : QString) (w : QProgressBar.t) :
  unvalued (QProgressBar.setStyleSheet s w) = QProgressBar.setStyleSheet s (unvalued w).
Proof. reflexivity. Qed.

(** The form with the values apart, widget by widget. *)
Lemma withoutValues_fields (ui : Ui.t) :
  withoutValues ui =
  Ui.mk (Ui.modemStateLabel ui) (Ui.onlineTimeLabel ui) (Ui.ipAddressLabel ui)
    (Ui.oduTelemetryLabel ui) (Ui.modemColorLabel ui) (Ui.modemSerialNumberLabel ui)
    (Ui.partNumberLabel ui) (Ui.hardwareVersionLabel ui) (Ui.softwareVersionLabel ui)
    (Ui.macAddressLabel ui) (Ui.symbolRateFwdLabel ui) (Ui.symbolRateReturnLabel ui)
    (Ui.modulationLabel ui) (Ui.triaSerialNumberLabel ui) (Ui.firmwareVersionLabel ui)
    (Ui.temperatureLabel ui) (Ui.polarizationLabel ui) (Ui.triaColorLabel ui)
    (Ui.txPacketsLabel ui) (Ui.txBytesLabel ui) (Ui.txBytesStatic ui) (Ui.rxPacketsLabel ui)
    (Ui.rxBytesLabel ui) (Ui.rxBytesStatic ui) (Ui.rxSnrLabel ui) (Ui.rxRfPowerLabel ui)
    (Ui.txIfPowerLabel ui) (Ui.txRfPowerLabel ui) (Ui.cableAttenuationLabel ui)
    (Ui.cableResistanceLabel ui) (unvalued (Ui.rxSnrProgressbar ui)) (unvalued
    (Ui.rxRfPowerProgressbar ui)) (unvalued (Ui.txIfPowerProgressbar ui)) (unvalued
    (Ui.txRfPowerProgressbar ui)) (unvalued (Ui.cableAttenuationProgressbar ui)) (unvalued
    (Ui.cableResistanceProgressbar ui)).
Proof. reflexivity. Qed.

Ltac simpl_form :=
  rewrite ?updateContent_eq, ?withoutValues_fields; unfold rendered;
  cbn [Ui.modemStateLabel Ui.onlineTimeLabel Ui.ipAddressLabel Ui.oduTelemetryLabel
       Ui.modemColorLabel Ui.modemSerialNumberLabel Ui.partNumberLabel
       Ui.hardwareVersionLabel Ui.softwareVersionLabel Ui.macAddressLabel
       Ui.symbolRateFwdLabel Ui.symbolRateReturnLabel Ui.modulationLabel
       Ui.triaSerialNumberLabel Ui.firmwareVersionLabel Ui.temperatureLabel
       Ui.polarizationLabel Ui.triaColorLabel Ui.txPacketsLabel Ui.txBytesLabel
       Ui.txBytesStatic Ui.rxPacketsLabel Ui.rxBytesLabel Ui.rxBytesStatic Ui.rxSnrLabel
       Ui.rxRfPowerLabel Ui.txIfPowerLabel Ui.txRfPowerLabel Ui.cableAttenuationLabel
       Ui.cableResistanceLabel Ui.rxSnrProgressbar Ui.rxRfPowerProgressbar
       Ui.txIfPowerProgressbar Ui.txRfPowerProgressbar Ui.cableAttenuationProgressbar
       Ui.cableResistanceProgressbar];
  repeat (rewrite unvalued_setStyleSheet || rewrite unvalued_setValue).

(** What [updateContent] leaves, the values of the bars apart, depends on the
    form before only through what that form is with the values apart. *)
Lemma withoutValues_updateContent (this : SurfBeam2) (u1 u2 : Ui.t) :
  withoutValues u1 = withoutValues u2 ->
  withoutValues (updateContent this u1) = withoutValues (updateContent this u2).
Proof.
  rewrite (withoutValues_fields u1), (withoutValues_fields u2).
  intros H. injection H. clear H. intros. simpl_form.
  unfold unvalued, QProgressBar.setStyleSheet.
  cbn [QProgressBar.minimum QProgressBar.maximum QProgressBar.value QProgressBar.styleSheet].
  repeat match goal with E : _ = _ |- _ => rewrite E; clear E end.
  reflexivity.
Qed.

(** A second [updateContent] overwrites what the first one set. *)
Lemma withoutValues_updateContent_twice (this before : SurfBeam2) (ui : Ui.t) :
  withoutValues (updateContent this (updateContent before ui)) =
  withoutValues (updateContent this ui).
Proof. simpl_form. reflexivity. Qed.

Lemma showsRecords_records (before : Ui.t) (this this' : SurfBeam2) (ui : Ui.t) :
  showsRecords before (this, ui) ->
  mModemInfo this' = mModemInfo this -> mTriaInfo this' = mTriaInfo this ->
  showsRecords before (this', ui).
Proof.
  intros [H|H] Hm Ht; [now left|right]. cbn [fst snd] in *.
  now rewrite (updateContent_records this' this).
Qed.

Lemma showsRecords_updateContent (before : Ui.t) (this this' : SurfBeam2) (ui : Ui.t) :
  showsRecords before (this, ui) ->
  showsRecords before (this', updateContent this' ui).
Proof.
  intros [H|H]; right; cbn [fst snd] in *.
  - now rewrite H.
  - rewrite (withoutValues_updateContent this' _ _ H).
    apply withoutValues_updateContent_twice.
Qed.

(** What a finished-slot leaves on the form: nothing new when it has not
    decoded, and what [updateContent] gives for the object it leaves when it
    has. *)
Lemma httpFinished_ui_form (this this' : SurfBeam2) (ui ui' : Ui.t) :
  (httpFinishedModem_ui (this, ui) = Some (this', ui') ->
   (ui' = ui /\ mModemInfo this' = mModemInfo this /\ mTriaInfo this' = mTriaInfo this /\
    FIELD_COUNT_MODEM <> List.length (split (mByteArrayModem this) FIELD_DELIMITER)) \/
   (ui' = updateContent this' ui /\
    FIELD_COUNT_MODEM = List.length (split (mByteArrayModem this) FIELD_DELIMITER))) /\
  (httpFinishedTria_ui (this, ui) = Some (this', ui') ->
   (ui' = ui /\ mModemInfo this' = mModemInfo this /\ mTriaInfo this' = mTriaInfo this /\
    FIELD_COUNT_TRIA <> List.length (split (mByteArrayTria this) FIELD_DELIMITER)) \/
   (ui' = updateContent this' ui /\
    FIELD_COUNT_TRIA = List.length (split (mByteArrayTria this) FIELD_DELIMITER))).
Proof.
  split.
  - unfold httpFinishedModem_ui. cbn zeta.
    set (decoded := set_mModemRawStringsList _ this).
    change (mModemRawStringsList decoded)
      with (split (mByteArrayModem this) FIELD_DELIMITER).
    destruct (Nat.eqb_spec FIELD_COUNT_MODEM
                (List.length (split (mByteArrayModem this) FIELD_DELIMITER))) as [E|E].
    + destruct (deref _ _); [|discriminate]. intros [= <- <-]. right. split; [|exact E].
      apply updateContent_records; reflexivity.
    + destruct (deref _ _); [|discriminate]. intros [= <- <-]. left. repeat split. exact E.
  - unfold httpFinishedTria_ui. cbn zeta.
    set (decoded := set_mTriaRawStringsList _ this).
    change (mTriaRawStringsList decoded)
      with (split (mByteArrayTria this) FIELD_DELIMITER).
    destruct (Nat.eqb_spec FIELD_COUNT_TRIA
                (List.length (split (mByteArrayTria this) FIELD_DELIMITER))) as [E|E].
    + destruct (deref _ _); [|discriminate]. intros [= <- <-]. right. split; [|exact E].
      apply updateContent_records; reflexivity.
    + destruct (deref _ _); [|discriminate]. intros [= <- <-]. left. repeat split. exact E.
Qed.

Lemma invoke_ui_fst (s : Slot) (w : Window) :
  option_map fst (invoke_ui s w) = invoke s (fst w).
Proof.
  destruct w as [this ui]. destruct s; cbn [invoke_ui invoke fst snd].
  - unfold httpFinishedModem_ui, httpFinishedModem. cbn zeta.
    destruct (_ =? _)%nat; destruct (deref _ _); reflexivity.
  - unfold httpFinishedTria_ui, httpFinishedTria. cbn zeta.
    destruct (_ =? _)%nat; destruct (deref _ _); reflexivity.
  - destruct (httpReadyReadModem this); reflexivity.
  - destruct (httpReadyReadTria this); reflexivity.
Qed.

Lemma emit_ui_fst (slots : list Slot) (w : Window) :
  option_map fst (emit_ui slots w) = emit slots (fst w).
Proof.
  revert w; induction slots as [|s rest IH]; intros w; cbn [emit_ui emit].
  - reflexivity.
  - rewrite <- invoke_ui_fst. destruct (invoke_ui s w) as [w'|]; cbn [option_map].
    + apply IH.
    + reflexivity.
Qed.

Lemma step_ui_fst (w : Window) (e : Event) :
  option_map fst (step_ui w e) = step (fst w) e.
Proof.
  destruct w as [this ui]. destruct e as [|h bytes|h|h]; cbn [step_ui step fst].
  - reflexivity.
  - destruct (deref (mQnam this) h); [|reflexivity]. apply emit_ui_fst.
  - destruct (deref (mQnam this) h); [|reflexivity]. apply emit_ui_fst.
  - destruct (nth_error (mQnam this) h) as [r|]; [|reflexivity].
    destruct (lifetime r); reflexivity.
Qed.

Lemma run_ui_fst (events : list Event) (w : Window) :
  option_map fst (run_ui w events) = run (fst w) events.
Proof.
  revert w; induction events as [|e rest IH]; intros w; cbn [run_ui run].
  - reflexivity.
  - rewrite <- step_ui_fst. destruct (step_ui w e) as [w'|]; cbn [option_map].
    + apply IH.
    + reflexivity.
Qed.

Lemma invoke_ui_shows (before : Ui.t) (s : Slot) (w w' : Window) :
  invoke_ui s w = Some w' -> showsRecords before w -> showsRecords before w'.
Proof.
  destruct w as [this ui], w' as [this' ui']. destruct s; cbn [invoke_ui fst snd]; intros Hrun Hs.
  - destruct (proj1 (httpFinished_ui_form _ _ _ _) Hrun) as [(-> & Hm & Ht & _)|(-> & _)].
    + now apply (showsRecords_records before this).
    + now apply (showsRecords_updateContent before this).
  - destruct (proj2 (httpFinished_ui_form _ _ _ _) Hrun) as [(-> & Hm & Ht & _)|(-> & _)].
    + now apply (showsRecords_records before this).
    + now apply (showsRecords_updateContent before this).
  - unfold httpReadyReadModem in Hrun. destruct (deref _ _); [|discriminate].
    injection Hrun as <- <-. now apply (showsRecords_records before this).
  - unfold httpReadyReadTria in Hrun. destruct (deref _ _); [|discriminate].
    injection Hrun as <- <-. now apply (showsRecords_records before this).
Qed.

Lemma emit_ui_shows (before : Ui.t) (slots : list Slot) (w w' : Window) :
  emit_ui slots w = Some w' -> showsRecords before w -> showsRecords before w'.
Proof.
  revert w; induction slots as [|s rest IH]; intros w; cbn [emit_ui].
  - now intros [= <-].
  - destruct (invoke_ui s w) as [mid|] eqn:E; [|discriminate].
    intros Hrest Hs. apply (IH _ Hrest). now apply (invoke_ui_shows before s w).
Qed.

Lemma step_ui_shows (before : Ui.t) (w w' : Window) (e : Event) :
  step_ui w e = Some w' -> showsRecords before w -> showsRecords before w'.
Proof.
  destruct w as [this ui]. destruct e as [|h bytes|h|h]; cbn [step_ui]; intros Hrun Hs.
  - injection Hrun as <-. apply (showsRecords_records before this); auto;
      rewrite startCgiRequest_eq; reflexivity.
  - destruct (deref (mQnam this) h); [|now injection Hrun as <-].
    apply (emit_ui_shows before _ _ _ Hrun).
    now apply (showsRecords_records before this).
  - destruct (deref (mQnam this) h) as [r|]; [|now injection Hrun as <-].
    now apply (emit_ui_shows before _ _ _ Hrun).
  - destruct (nth_error (mQnam this) h) as [r|]; [|now injection Hrun as <-].
    destruct (lifetime r); injection Hrun as <-;
      now apply (showsRecords_records before this).
Qed.

Lemma run_ui_shows (before : Ui.t) (events : list Event) (w w' : Window) :
  run_ui w events = Some w' -> showsRecords before w -> showsRecords before w'.
Proof.
  revert w; induction events as [|e rest IH]; intros w; cbn [run_ui].
  - now intros [= <-].
  - destruct (step_ui w e) as [mid|] eqn:E; [|discriminate].
    intros Hrest Hs. apply (IH _ Hrest). now apply (step_ui_shows before w mid e).
Qed.

(** X17. With the form, the object goes through a run as it does without,
    and the form never shows a mix of an older and a newer record: it is as
    the constructor left it, or its labels, its style sheets and the ranges of
    its bars are the ones [updateContent] gives for the two records the object
    holds at that moment. *)
Theorem form_shows_the_records (modem : ModemInfo.t) (tria : TriaInfo.t) (built : Ui.t)
  (events : list Event) (reached : SurfBeam2) (ui : Ui.t) :
  run_ui (Window_new modem tria built) events = Some (reached, ui) ->
  run (SurfBeam2_new modem tria) events = Some reached /\
  (ui = SurfBeam2_new_ui built \/
   withoutValues ui = withoutValues (updateContent reached (SurfBeam2_new_ui built))).
Proof.
  intros Hrun. split.
  - pose proof (run_ui_fst events (Window_new modem tria built)) as H.
    rewrite Hrun in H. symmetry. exact H.
  - apply (run_ui_shows (SurfBeam2_new_ui built) events _ _ Hrun). now left.
Qed.

(** *** Which member is shown where *)

(** X19. After a decode the ten labels for the modem's texts show the
    segments 0, 1, 2, 3, 4, 9, 13, 18, 22 and 51 of the modem page as they
    are, and the two labels for the outdoor unit's texts the segments 16 and
    24 of its page. *)
Theorem text_labels_show_segments (this this' : SurfBeam2) (ui ui' : Ui.t) :
  (httpFinishedModem_ui (this, ui) = Some (this', ui') ->
   let segments := split (mByteArrayModem this) FIELD_DELIMITER in
   List.length segments = 81%nat ->
   map QLabel.text
     [ Ui.ipAddressLabel ui'; Ui.macAddressLabel ui'; Ui.softwareVersionLabel ui';
       Ui.hardwareVersionLabel ui'; Ui.modemStateLabel ui'; Ui.onlineTimeLabel ui';
       Ui.modemSerialNumberLabel ui'; Ui.oduTelemetryLabel ui'; Ui.partNumberLabel ui';
       Ui.modulationLabel ui' ] =
   map (fun i => nth i segments EmptyString) [0; 1; 2; 3; 4; 9; 13; 18; 22; 51]%nat) /\
  (httpFinishedTria_ui (this, ui) = Some (this', ui') ->
   let segments := split (mByteArrayTria this) FIELD_DELIMITER in
   List.length segments = 84%nat ->
   map QLabel.text [ Ui.triaSerialNumberLabel ui'; Ui.firmwareVersionLabel ui' ] =
   map (fun i => nth i segments EmptyString) [16; 24]%nat).
Proof.
  split; intros Hrun segments Hlen.
  - assert (Hslot : httpFinishedModem this = Some this').
    { pose proof (invoke_ui_fst SLOT_httpFinishedModem (this, ui)) as H.
      cbn [invoke_ui invoke fst] in H. rewrite Hrun in H. symmetry. exact H. }
    pose proof (httpFinishedModem_decoded _ _ Hslot Hlen) as Hrec. fold segments in Hrec.
    destruct (proj1 (httpFinished_ui_form _ _ _ _) Hrun) as [(_ & _ & _ & Hne)|(-> & _)].
    { fold segments in Hne. rewrite Hlen in Hne. now elim Hne. }
    rewrite updateContent_eq. unfold rendered.
    cbn [map Ui.ipAddressLabel Ui.macAddressLabel Ui.softwareVersionLabel
         Ui.hardwareVersionLabel Ui.modemStateLabel Ui.onlineTimeLabel
         Ui.modemSerialNumberLabel Ui.oduTelemetryLabel Ui.partNumberLabel
         Ui.modulationLabel QLabel.setText QLabel.text].
    rewrite Hrec. reflexivity.
  - assert (Hslot : httpFinishedTria this = Some this').
    { pose proof (invoke_ui_fst SLOT_httpFinishedTria (this, ui)) as H.
      cbn [invoke_ui invoke fst] in H. rewrite Hrun in H. symmetry. exact H. }
    pose proof (httpFinishedTria_decoded _ _ Hslot Hlen) as Hrec. fold segments in Hrec.
    destruct (proj2 (httpFinished_ui_form _ _ _ _) Hrun) as [(_ & _ & _ & Hne)|(-> & _)].
    { fold segments in Hne. rewrite Hlen in Hne. now elim Hne. }
    rewrite updateContent_eq. unfold rendered.
    cbn [map Ui.triaSerialNumberLabel Ui.firmwareVersionLabel QLabel.setText QLabel.text].
    rewrite Hrec. reflexivity.
Qed.

(** X20. What [updateContent] shows depends on the members it reads and on
    no other: the decoded modem state, the loss-of-sync count, the two link
    types, the two proxy texts, the page load duration, the beam data table
    version, the power mode and the two vendors are decoded and never shown. *)
Theorem hidden_members_are_never_shown (a b : SurfBeam2) (ui : Ui.t)
  (state : ModemState) (count : uint32_t) (text : QString) :
  (shownMembers a = shownMembers b -> updateContent a ui = updateContent b ui) /\
  updateContent (inModemInfo (ModemInfo.set_ModemStatus state) a) ui = updateContent a ui /\
  updateContent (inModemInfo (ModemInfo.set_LossOfSyncCount count) a) ui =
    updateContent a ui /\
  updateContent (inModemInfo (ModemInfo.set_InterFacilityLinkType text) a) ui =
    updateContent a ui /\
  updateContent (inModemInfo (ModemInfo.set_ClientSideProxyStatus text) a) ui =
    updateContent a ui /\
  updateContent (inModemInfo (ModemInfo.set_ClientSideProxyHealth text) a) ui =
    updateContent a ui /\
  updateContent (inModemInfo (ModemInfo.set_LastPageLoadDuration text) a) ui =
    updateContent a ui /\
  updateContent (inModemInfo (ModemInfo.set_BeamDataTableVersion text) a) ui =
    updateContent a ui /\
  updateContent (inModemInfo (ModemInfo.set_Vendor text) a) ui = updateContent a ui /\
  updateContent (inTriaInfo (TriaInfo.set_PwrMode text) a) ui = updateContent a ui /\
  updateContent (inTriaInfo (TriaInfo.set_InterFacilityLinkType text) a) ui =
    updateContent a ui /\
  updateContent (inTriaInfo (TriaInfo.set_Vendor text) a) ui = updateContent a ui.
Proof.
  split.
  - rewrite !updateContent_eq. unfold shownMembers, rendered. cbn zeta.
    intros H. injection H. clear H. intros.
    repeat match goal with E : _ = _ |- _ => rewrite E; clear E end.
    reflexivity.
  - rewrite !updateContent_eq. repeat split.
Qed.

(** *** Numbers that are printed and read again *)

Ltac read_digit :=
  match goal with
  | |- context [digitValue ?c] =>
      let v := eval vm_compute in (digitValue c) in change (digitValue c) with v
  end; cbn iota.

Lemma readDigits_of_uint_acc (d : Decimal.uint) (acc : positive) :
  readDigits (Z.pos acc) (NilEmpty.string_of_uint d) = Some (Z.pos (Pos.of_uint_acc d acc)).
Proof.
  revert acc; induction d; intros acc;
    cbn [NilEmpty.string_of_uint readDigits Pos.of_uint_acc];
    [reflexivity|read_digit; rewrite <- IHd; f_equal; lia..].
Qed.

Lemma readDigits_of_uint (d : Decimal.uint) :
  readDigits 0 (NilEmpty.string_of_uint d) = Some (Z.of_N (Pos.of_uint d)).
Proof.
  induction d; cbn [NilEmpty.string_of_uint readDigits Pos.of_uint];
    [reflexivity|read_digit; cbn [Z.mul Z.add Z.of_N]..];
    [exact IHd|apply readDigits_of_uint_acc..].
Qed.

(** The digits of a number hold no white space and no sign. *)
Lemma digits_plain (d : Decimal.uint) :
  d <> Decimal.Nil ->
  trimmed (NilEmpty.string_of_uint d) = NilEmpty.string_of_uint d /\
  readUnsigned (NilEmpty.string_of_uint d) = readDigits 0 (NilEmpty.string_of_uint d).
Proof.
  intros Hd.
  assert (Hr : forall u, trimRight (NilEmpty.string_of_uint u) = NilEmpty.string_of_uint u).
  { induction u; cbn [NilEmpty.string_of_uint trimRight]; [reflexivity|..];
      rewrite IHu; destruct (NilEmpty.string_of_uint u); reflexivity. }
  unfold trimmed. destruct d; try (now elim Hd); (split; [|reflexivity]);
    match goal with |- trimRight (trimLeft ?s) = _ => change (trimLeft s) with s end;
    apply Hr.
Qed.

Lemma toULongLong_number (n : Z) :
  (0 <= n <= ULLONG_MAX)%Z -> toULongLong (QString_number_unsigned n) = n.
Proof.
  intros Hn. unfold QString_number_unsigned, decimalDigits.
  set (d := N.to_uint (Z.to_N n)).
  assert (Hd : d <> Decimal.Nil).
  { unfold d. destruct (Z.to_N n); [discriminate|apply DecimalPos.Unsigned.to_uint_nonnil]. }
  assert (Hs : NilZero.string_of_uint d = NilEmpty.string_of_uint d)
    by (destruct d; [now elim Hd|reflexivity..]).
  destruct (digits_plain d Hd) as (Ht & Hu).
  unfold toULongLong. rewrite Hs, Ht, Hu, readDigits_of_uint.
  change (Pos.of_uint d) with (N.of_uint d). unfold d.
  rewrite DecimalN.Unsigned.of_to, Z2N.id by lia.
  destruct (Z.leb_spec n ULLONG_MAX); [reflexivity|lia].
Qed.

(** X18. An unsigned number of up to 64 bits that is printed and read again
    is the same number.  So a packet counter that the page gives as the
    decimal digits of such a number, with or without grouping commas, is shown
    on its label as those digits without the commas. *)
Theorem packet_counters_round_trip (this this' : SurfBeam2) (ui ui' : Ui.t) :
  (forall n : Z,
     (0 <= n <= ULLONG_MAX)%Z -> toULongLong (QString_number_unsigned n) = n) /\
  (httpFinishedModem_ui (this, ui) = Some (this', ui') ->
   let segments := split (mByteArrayModem this) FIELD_DELIMITER in
   List.length segments = 81%nat ->
   forall n : Z,
     (0 <= n <= ULLONG_MAX)%Z ->
     (remove ","%char (nth 7 segments EmptyString) = QString_number_unsigned n ->
      ModemInfo.TxPackets (mModemInfo this') = n /\
      QLabel.text (Ui.txPacketsLabel ui') = remove ","%char (nth 7 segments EmptyString)) /\
     (remove ","%char (nth 5 segments EmptyString) = QString_number_unsigned n ->
      ModemInfo.RxPackets (mModemInfo this') = n /\
      QLabel.text (Ui.rxPacketsLabel ui') = remove ","%char (nth 5 segments EmptyString))).
Proof.
  split; [exact toULongLong_number|].
  intros Hrun segments Hlen n Hn.
  assert (Hslot : httpFinishedModem this = Some this').
  { pose proof (invoke_ui_fst SLOT_httpFinishedModem (this, ui)) as H.
    cbn [invoke_ui invoke fst] in H. rewrite Hrun in H. symmetry. exact H. }
  pose proof (httpFinishedModem_decoded _ _ Hslot Hlen) as Hrec. fold segments in Hrec.
  destruct (proj1 (httpFinished_ui_form _ _ _ _) Hrun) as [(_ & _ & _ & Hne)|(-> & _)].
  { fold segments in Hne. rewrite Hlen in Hne. now elim Hne. }
  rewrite updateContent_eq.
  cbn [rendered Ui.txPacketsLabel Ui.rxPacketsLabel QLabel.setText QLabel.text].
  rewrite Hrec. cbn [modemRecordOf ModemInfo.TxPackets ModemInfo.RxPackets].
  split; intros ->; rewrite toULongLong_number by exact Hn; split; reflexivity.
Qed.

Close Scope R_scope.

End Decoder.

(** ** Properties of the derived metrics *)

Open Scope R_scope.

(** The order of binary64: below excludes at-or-above. *)
Lemma compare_cont_Lt_Gt (m n : positive) :
  Pos.compare_cont Eq m n = Lt -> Pos.compare_cont Eq n m = Gt.
Proof.
  change (Pos.compare_cont Eq m n) with (Pos.compare m n).
  change (Pos.compare_cont Eq n m) with (Pos.compare n m).
  intros H. rewrite Pos.compare_antisym, H. reflexivity.
Qed.

Lemma compare_cont_Gt_Lt (m n : positive) :
  Pos.compare_cont Eq m n = Gt -> Pos.compare_cont Eq n m = Lt.
Proof.
  change (Pos.compare_cont Eq m n) with (Pos.compare m n).
  change (Pos.compare_cont Eq n m) with (Pos.compare n m).
  intros H. rewrite Pos.compare_antisym, H. reflexivity.
Qed.

Lemma SFltb_not_SFleb (a b : spec_float) : SFltb a b = true -> SFleb b a = false.
Proof.
  unfold SFltb, SFleb.
  destruct a as [sa|sa| |sa ma ea], b as [sb|sb| |sb mb eb]; cbn;
    try discriminate; try (destruct sa; discriminate || reflexivity);
    try (destruct sb; discriminate || reflexivity);
    try (destruct sa, sb; discriminate || reflexivity).
  destruct sa, sb; try discriminate; try reflexivity;
    rewrite (Z.compare_antisym ea eb); destruct (ea ?= eb)%Z; cbn;
    try discriminate; try reflexivity.
  - destruct (Pos.compare_cont Eq ma mb) eqn:E; cbn; try discriminate.
    intros _. now rewrite (compare_cont_Gt_Lt _ _ E).
  - destruct (Pos.compare_cont Eq ma mb) eqn:E; cbn; try discriminate.
    intros _. now rewrite (compare_cont_Lt_Gt _ _ E).
Qed.

Lemma ltb_not_leb (x y : float) : PrimFloat.ltb x y = true -> PrimFloat.leb y x = false.
Proof. rewrite ltb_spec, leb_spec. apply SFltb_not_SFleb. Qed.

(** C3. Each percent function returns its linear formula, with the
    coefficients of the source, for an input at or above its knee, and 0 for
    an input below it: in real arithmetic, and in binary64 arithmetic with
    the formula's operations rounded. *)
Theorem percent_formulas :
  (forall x : R,
     ((0.0 <= x -> getCableAttenuationPercent x = x * 6.66666) /\
      (x < 0.0 -> getCableAttenuationPercent x = 0)) /\
     ((-72.586 <= x -> getRxPwrPercent x = 119.42208 + x * 1.64524) /\
      (x < -72.586 -> getRxPwrPercent x = 0)) /\
     ((-3.0 <= x -> getRxSnrPercent x = 10.71429 + x * 3.57143) /\
      (x < -3.0 -> getRxSnrPercent x = 0)) /\
     ((-35.5 <= x -> getTxIfPwrPercent x = 137.86408 + x * 3.8835) /\
      (x < -35.5 -> getTxIfPwrPercent x = 0)) /\
     ((14.5 <= x -> getTxRfPwrPercent x = -56.31068 + x * 3.8835) /\
      (x < 14.5 -> getTxRfPwrPercent x = 0))) /\
  (forall x : float,
     (((0.0 <=? x) = true -> Binary64.getCableAttenuationPercent x = x * 6.66666) /\
      ((x <? 0.0) = true -> Binary64.getCableAttenuationPercent x = 0)) /\
     (((-72.586 <=? x) = true -> Binary64.getRxPwrPercent x = 119.42208 + x * 1.64524) /\
      ((x <? -72.586) = true -> Binary64.getRxPwrPercent x = 0)) /\
     (((-3.0 <=? x) = true -> Binary64.getRxSnrPercent x = 10.71429 + x * 3.57143) /\
      ((x <? -3.0) = true -> Binary64.getRxSnrPercent x = 0)) /\
     (((-35.5 <=? x) = true -> Binary64.getTxIfPwrPercent x = 137.86408 + x * 3.8835) /\
      ((x <? -35.5) = true -> Binary64.getTxIfPwrPercent x = 0)) /\
     (((14.5 <=? x) = true -> Binary64.getTxRfPwrPercent x = -56.31068 + x * 3.8835) /\
      ((x <? 14.5) = true -> Binary64.getTxRfPwrPercent x = 0)))%float.
Proof.
  split; intros x.
  - unfold getCableAttenuationPercent, getRxPwrPercent, getRxSnrPercent,
      getTxIfPwrPercent, getTxRfPwrPercent; cbn zeta.
    repeat split; intros Hx;
      match goal with |- context [Rge_dec ?a ?b] => destruct (Rge_dec a b) end;
      (reflexivity || lra).
  - unfold Binary64.getCableAttenuationPercent, Binary64.getRxPwrPercent,
      Binary64.getRxSnrPercent, Binary64.getTxIfPwrPercent, Binary64.getTxRfPwrPercent;
      cbn zeta.
    repeat split; intros Hx;
      first [now rewrite Hx | now rewrite (ltb_not_leb _ _ Hx)].
Qed.

(** C4 as the code has it.  Each percent function is monotonic non-decreasing
    on the inputs at or above its knee and is exactly 0 below the knee.  At
    the knee it returns the value of the linear formula, which is within 1e-3
    of 0 and is exactly 0 only for two of the five; getRxSnrPercent(-3.0) is
    0 and getRxSnrPercent(10.0) is within 1e-3 of 46.4286.  The values at the
    knees and at 10.0 are the same, within 1e-3, in binary64 arithmetic. *)
Theorem percent_monotone_above_knee :
  (forall x y : R,
     (0.0 <= x <= y -> getCableAttenuationPercent x <= getCableAttenuationPercent y) /\
     (-72.586 <= x <= y -> getRxPwrPercent x <= getRxPwrPercent y) /\
     (-3.0 <= x <= y -> getRxSnrPercent x <= getRxSnrPercent y) /\
     (-35.5 <= x <= y -> getTxIfPwrPercent x <= getTxIfPwrPercent y) /\
     (14.5 <= x <= y -> getTxRfPwrPercent x <= getTxRfPwrPercent y)) /\
  (forall x : R,
     (x < 0.0 -> getCableAttenuationPercent x = 0) /\
     (x < -72.586 -> getRxPwrPercent x = 0) /\
     (x < -3.0 -> getRxSnrPercent x = 0) /\
     (x < -35.5 -> getTxIfPwrPercent x = 0) /\
     (x < 14.5 -> getTxRfPwrPercent x = 0)) /\
  (getCableAttenuationPercent 0.0 = 0 /\
   getRxPwrPercent (-72.586) = 0.00068936 /\
   getRxSnrPercent (-3.0) = 0 /\
   getTxIfPwrPercent (-35.5) = -0.00017 /\
   getTxRfPwrPercent 14.5 = 0.00007) /\
  (within 1.0e-3 (getRxSnrPercent (-3.0)) 0 /\
   within 1.0e-3 (getRxSnrPercent 10.0) 46.4286) /\
  (Binary64.within 1e-3 (Binary64.getCableAttenuationPercent 0.0) 0 = true /\
   Binary64.within 1e-3 (Binary64.getRxPwrPercent (-72.586)) 0 = true /\
   Binary64.getRxSnrPercent (-3.0) = 0 /\
   Binary64.within 1e-3 (Binary64.getTxIfPwrPercent (-35.5)) 0 = true /\
   Binary64.within 1e-3 (Binary64.getTxRfPwrPercent 14.5) 0 = true /\
   Binary64.within 1e-3 (Binary64.getRxSnrPercent 10.0) 46.4286 = true)%float.
Proof.
  split; [|split; [|split; [|split]]].
  - intros x y.
    unfold getCableAttenuationPercent, getRxPwrPercent, getRxSnrPercent,
      getTxIfPwrPercent, getTxRfPwrPercent; cbn zeta.
    repeat split; intros Hx;
      repeat match goal with |- context [Rge_dec ?a ?b] => destruct (Rge_dec a b) end;
      lra.
  - intros x.
    unfold getCableAttenuationPercent, getRxPwrPercent, getRxSnrPercent,
      getTxIfPwrPercent, getTxRfPwrPercent; cbn zeta.
    repeat split; intros Hx;
      match goal with |- context [Rge_dec ?a ?b] => destruct (Rge_dec a b) end;
      lra.
  - unfold getCableAttenuationPercent, getRxPwrPercent, getRxSnrPercent,
      getTxIfPwrPercent, getTxRfPwrPercent; cbn zeta.
    repeat split;
      match goal with |- context [Rge_dec ?a ?b] => destruct (Rge_dec a b) end;
      lra.
  - unfold within, getRxSnrPercent; cbn zeta.
    split;
      match goal with |- context [Rge_dec ?a ?b] => destruct (Rge_dec a b) end;
      try lra; apply Rabs_le; lra.
  - vm_compute. repeat split.
Qed.

(** A whole negative power of ten. *)
Lemma Rpower_ten_neg (y : R) (n : nat) : y = - INR n -> Rpower 10.0 y = / 10 ^ n.
Proof.
  intros ->. replace 10.0 with 10 by lra.
  rewrite Rpower_Ropp, Rpower_pow by lra. reflexivity.
Qed.

Lemma roundHalfEven_IZR (n : Z) : roundHalfEven (IZR n) = n.
Proof.
  unfold roundHalfEven; cbn zeta. rewrite ZfloorZ.
  destruct (Rlt_dec (IZR n - IZR n) (1 / 2)) as [_|H]; [reflexivity|].
  exfalso; apply H; lra.
Qed.

(** A value that has no more than [prec] decimals is printed as it is. *)
Lemma numberF_exact (x : R) (prec : nat) (n : Z) :
  0 <= x -> x * 10 ^ prec = IZR n -> numberF x prec = fixedDigits n prec.
Proof.
  intros Hx Hn. unfold numberF, signOf.
  destruct (Rlt_dec x 0) as [H|_]; [lra|].
  now rewrite Rabs_pos_eq, Hn, roundHalfEven_IZR.
Qed.

Lemma convertDbmToWatts_30 : convertDbmToWatts 30.0 = 1.
Proof. unfold convertDbmToWatts. rewrite (Rpower_ten_neg _ 0); cbn; lra. Qed.

Lemma convertDbmToWatts_minus30 : convertDbmToWatts (-30.0) = / 10 ^ 6.
Proof. unfold convertDbmToWatts. apply Rpower_ten_neg. cbn. lra. Qed.

Lemma convertDbmToWatts_0 : convertDbmToWatts 0.0 = / 10 ^ 3.
Proof. unfold convertDbmToWatts. apply Rpower_ten_neg. cbn. lra. Qed.

Lemma convertDbmToQstring_30 : convertDbmToQstring 30.0 = "1.000 W"%string.
Proof.
  unfold convertDbmToQstring; cbn zeta. rewrite convertDbmToWatts_30.
  destruct (Rge_dec (Rabs 1) 1.0) as [_|H];
    [|exfalso; apply H; rewrite Rabs_pos_eq; lra].
  cbn [QString_number]. rewrite (numberF_exact 1 3 1000) by lra. reflexivity.
Qed.

Lemma convertDbmToQstring_minus30 :
  convertDbmToQstring (-30.0) = ("1.0 " ++ MU_SMALL ++ "W")%string.
Proof.
  unfold convertDbmToQstring; cbn zeta. rewrite convertDbmToWatts_minus30.
  assert (Ha : Rabs (/ 10 ^ 6) = / 10 ^ 6) by (apply Rabs_pos_eq; lra).
  rewrite Ha.
  destruct (Rge_dec (/ 10 ^ 6) 1.0) as [H|_]; [lra|].
  destruct (Rge_dec (/ 10 ^ 6) 1.0e-3) as [H|_]; [lra|].
  destruct (Rge_dec (/ 10 ^ 6) 1.0e-6) as [_|H]; [|lra].
  cbn [QString_number]. rewrite (numberF_exact _ 1 10) by lra. reflexivity.
Qed.

Lemma convertDbmToQstring_0 : convertDbmToQstring 0.0 = "1.0 mW"%string.
Proof.
  unfold convertDbmToQstring; cbn zeta. rewrite convertDbmToWatts_0.
  assert (Ha : Rabs (/ 10 ^ 3) = / 10 ^ 3) by (apply Rabs_pos_eq; lra).
  rewrite Ha.
  destruct (Rge_dec (/ 10 ^ 3) 1.0) as [H|_]; [lra|].
  destruct (Rge_dec (/ 10 ^ 3) 1.0e-3) as [_|H]; [|lra].
  cbn [QString_number]. rewrite (numberF_exact _ 1 10) by lra. reflexivity.
Qed.

(** C5 as the code has it.  30 dBm is 1 W and is printed "1.000 W".  -30 dBm
    is a millionth of a watt and is printed "1.0 uW", the u being the Greek
    mu; it is 0 dBm that is printed "1.0 mW". *)
Theorem dbm_conversion_examples :
  convertDbmToWatts 30.0 = 1.0 /\
  convertDbmToQstring 30.0 = "1.000 W"%string /\
  convertDbmToWatts (-30.0) = 1.0e-6 /\
  convertDbmToQstring (-30.0) = ("1.0 " ++ MU_SMALL ++ "W")%string /\
  convertDbmToQstring 0.0 = "1.0 mW"%string.
Proof.
  repeat split.
  - rewrite convertDbmToWatts_30. lra.
  - exact convertDbmToQstring_30.
  - rewrite convertDbmToWatts_minus30. lra.
  - exact convertDbmToQstring_minus30.
  - exact convertDbmToQstring_0.
Qed.

Open Scope float_scope.


Close Scope float_scope.

(** X3. Four of the percent functions are non-decreasing over the whole line
    and never negative.  [getTxIfPwrPercent] drops below 0 at its knee, to
    -0.00017, and is never lower.  None of the five is capped at 100. *)
Theorem percent_range :
  (forall x y : R,
     x <= y ->
     getCableAttenuationPercent x <= getCableAttenuationPercent y /\
     getRxPwrPercent x <= getRxPwrPercent y /\
     getRxSnrPercent x <= getRxSnrPercent y /\
     getTxRfPwrPercent x <= getTxRfPwrPercent y) /\
  (forall x : R,
     0 <= getCableAttenuationPercent x /\ 0 <= getRxPwrPercent x /\
     0 <= getRxSnrPercent x /\ 0 <= getTxRfPwrPercent x /\
     -0.00017 <= getTxIfPwrPercent x) /\
  getTxIfPwrPercent (-35.5) < getTxIfPwrPercent (-36.0) /\
  (forall x : R,
     (15.1 <= x -> 100 < getCableAttenuationPercent x) /\
     (-11.8 <= x -> 100 < getRxPwrPercent x) /\
     (25.0 <= x -> 100 < getRxSnrPercent x) /\
     (-9.7 <= x -> 100 < getTxIfPwrPercent x) /\
     (40.3 <= x -> 100 < getTxRfPwrPercent x)).
Proof.
  unfold getCableAttenuationPercent, getRxPwrPercent, getRxSnrPercent,
    getTxIfPwrPercent, getTxRfPwrPercent; cbn zeta.
  split; [|split; [|split]].
  - intros x y Hxy. repeat split;
      repeat match goal with |- context [Rge_dec ?a ?b] => destruct (Rge_dec a b) end;
      lra.
  - intros x. repeat split;
      match goal with |- context [Rge_dec ?a ?b] => destruct (Rge_dec a b) end;
      lra.
  - repeat match goal with |- context [Rge_dec ?a ?b] => destruct (Rge_dec a b) end; lra.
  - intros x. repeat split; intros Hx;
      match goal with |- context [Rge_dec ?a ?b] => destruct (Rge_dec a b) end;
      lra.
Qed.

(** C3 at sample inputs. *)
Lemma percent_formulas_witness :
  getRxSnrPercent 10.0 = 10.71429 + 10.0 * 3.57143 /\ getRxSnrPercent (-5.0) = 0 /\
   getTxRfPwrPercent 40.0 = -56.31068 + 40.0 * 3.8835 /\ getTxRfPwrPercent 0.0 = 0.
Proof.
  split; [|split; [|split]].
  - apply (proj1 (proj1 (proj2 (proj2 (proj1 percent_formulas 10.0))))). lra.
  - apply (proj2 (proj1 (proj2 (proj2 (proj1 percent_formulas (-5.0)))))). lra.
  - apply (proj1 (proj2 (proj2 (proj2 (proj2 (proj1 percent_formulas 40.0)))))). lra.
  - apply (proj2 (proj2 (proj2 (proj2 (proj2 (proj1 percent_formulas 0.0)))))). lra.
Defined.

(** C4 at sample inputs. *)
Lemma percent_monotone_above_knee_witness :
  getRxSnrPercent 0.0 <= getRxSnrPercent 10.0 /\
   getTxIfPwrPercent (-35.5) <= getTxIfPwrPercent (-10.0) /\
   getRxPwrPercent (-80.0) = 0.
Proof.
  split; [|split].
  - apply (proj1 (proj2 (proj2 (proj1 percent_monotone_above_knee 0.0 10.0)))). lra.
  - apply (proj1 (proj2 (proj2 (proj2 (proj1 percent_monotone_above_knee (-35.5) (-10.0)))))).
    lra.
  - apply (proj1 (proj2 (proj1 (proj2 percent_monotone_above_knee) (-80.0)))). lra.
Defined.

Lemma getRxSnrPercent_knee : getRxSnrPercent (-3.0) = 0.
Proof. unfold getRxSnrPercent; cbn zeta. destruct (Rge_dec _ _); lra. Qed.

Lemma getTxIfPwrPercent_knee : getTxIfPwrPercent (-35.5) = -0.00017.
Proof. unfold getTxIfPwrPercent; cbn zeta. destruct (Rge_dec _ _); lra. Qed.

(** C4 fails as stated: getRxSnrPercent(-3.0) is 0, more than 1e-3 away from
    10.71429, and at its knee getTxIfPwrPercent is not 0; in real and in
    binary64 arithmetic alike. *)
Lemma knee_values_differ :
  ~ within 1.0e-3 (getRxSnrPercent (-3.0)) 10.71429 /\
  getTxIfPwrPercent (-35.5) <> 0 /\
  (Binary64.within 1e-3 (Binary64.getRxSnrPercent (-3.0)) 10.71429 = false /\
   (Binary64.getTxIfPwrPercent (-35.5) =? 0) = false)%float.
Proof.
  rewrite getRxSnrPercent_knee, getTxIfPwrPercent_knee. unfold within.
  split; [|split].
  - intros H. rewrite Rabs_left in H; lra.
  - lra.
  - vm_compute. split; reflexivity.
Qed.

(** C5 fails as stated: -30 dBm is not printed "1.0 mW". *)
Lemma minus30_dbm_is_not_a_milliwatt : convertDbmToQstring (-30.0) <> "1.0 mW"%string.
Proof. rewrite convertDbmToQstring_minus30. discriminate. Qed.

Open Scope float_scope.


Close Scope float_scope.

(** X3 at sample values. *)
Lemma percent_range_witness :
  getRxSnrPercent (-10.0) <= getRxSnrPercent 9.5 /\ 100 < getRxSnrPercent 30.0.
Proof.
  split.
  - apply (proj1 percent_range (-10.0) 9.5). lra.
  - apply (proj2 (proj2 (proj2 percent_range)) 30.0). lra.
Defined.

Close Scope R_scope.

(** ** The theorems at sample inputs, and where the specification differs *)

Lemma orStarted_some (o : option SurfBeam2) :
  option_map (fun _ => tt) o = Some tt -> o = Some (orStarted o).
Proof. destruct o; [reflexivity|discriminate]. Defined.

(** Proves [slot this = Some (orStarted (slot this))] by running the slot. *)
Ltac by_running :=
  unfold modemPageDecoded, triaPageDecoded; apply orStarted_some; lazy; reflexivity.

Lemma modem_sample_decodes (page : QByteArray) :
  option_map (fun _ => tt)
    (httpFinishedModem plainDecimal ULONG_MAX_LP64
       (modemPageArrived plainDecimal ULONG_MAX_LP64 page)) = Some tt ->
  httpFinishedModem plainDecimal ULONG_MAX_LP64
    (modemPageArrived plainDecimal ULONG_MAX_LP64 page) =
  Some (modemPageDecoded plainDecimal ULONG_MAX_LP64 page).
Proof. intros H. unfold modemPageDecoded. now apply orStarted_some. Defined.

Lemma tria_sample_decodes (page : QByteArray) :
  option_map (fun _ => tt)
    (httpFinishedTria plainDecimal
       (triaPageArrived plainDecimal ULONG_MAX_LP64 page)) = Some tt ->
  httpFinishedTria plainDecimal
    (triaPageArrived plainDecimal ULONG_MAX_LP64 page) =
  Some (triaPageDecoded plainDecimal ULONG_MAX_LP64 page).
Proof. intros H. unfold triaPageDecoded. now apply orStarted_some. Defined.

(** C1 at sample pages: a page of two fields leaves the modem record, and the
    81-field modem page sent to the outdoor-unit pipeline leaves the
    outdoor-unit record; the 81-field page replaces the modem record. *)
Lemma schema_mismatch_keeps_record_witness :
  mModemInfo (modemPageDecoded plainDecimal ULONG_MAX_LP64 "a##b") = blankModemInfo /\
  mTriaInfo (triaPageDecoded plainDecimal ULONG_MAX_LP64 sampleModemPage) = blankTriaInfo /\
  ModemInfo.SerialNumber
    (mModemInfo (modemPageDecoded plainDecimal ULONG_MAX_LP64 sampleModemPage)) =
    "1234567890".
Proof.
  split; [|split].
  - apply (proj1 (proj1 (schema_mismatch_keeps_record plainDecimal ULONG_MAX_LP64 _ _)
                        (modem_sample_decodes "a##b" eq_refl))).
    lazy. discriminate.
  - apply (proj1 (proj1 (proj2 (schema_mismatch_keeps_record plainDecimal ULONG_MAX_LP64 _ _))
                        (tria_sample_decodes sampleModemPage eq_refl))).
    lazy. discriminate.
  - rewrite (proj2 (proj2 (proj1 (schema_mismatch_keeps_record plainDecimal ULONG_MAX_LP64 _ _)
                                 (modem_sample_decodes sampleModemPage eq_refl)))).
    + lazy. reflexivity.
    + lazy. reflexivity.
Defined.

(** C2 at sample pages: the counters of the sample page, and the page whose
    Tx-packets field is not a number. *)
Lemma grouped_counters_decode_witness :
  ModemInfo.RxPackets
    (mModemInfo (modemPageDecoded plainDecimal ULONG_MAX_LP64 sampleModemPage)) = 1234567%Z /\
  ModemInfo.TxBytes
    (mModemInfo (modemPageDecoded plainDecimal ULONG_MAX_LP64 sampleModemPage)) = 123456789%Z /\
  ModemInfo.TxPackets
    (mModemInfo (modemPageDecoded plainDecimal ULONG_MAX_LP64 (modemPageWith 7 "n/a"))) = 0%Z.
Proof.
  pose proof (grouped_counters_decode plainDecimal ULONG_MAX_LP64 _ _
                (modem_sample_decodes sampleModemPage eq_refl)) as Hs.
  pose proof (grouped_counters_decode plainDecimal ULONG_MAX_LP64 _ _
                (modem_sample_decodes (modemPageWith 7 "n/a") eq_refl)) as Hn.
  cbn zeta in Hs, Hn.
  destruct Hs as (Hs5 & _ & _ & Hs8 & _); [lazy; reflexivity|].
  destruct Hn as (_ & _ & Hn7 & _); [lazy; reflexivity|].
  rewrite Hs5, Hs8, Hn7. lazy. repeat split.
Defined.

(** C2 fails as stated: for the field [n/a] the specification's rule gives
    NumericFormatError, but the slot does not fail: it replaces the record
    (the address member is the one of the page and no longer the one held
    before) and the Tx-packets member is 0. *)
Lemma non_numeric_counter_is_zeroed :
  unsignedWithGrouping_spec "n/a" = inl NumericFormatError /\
  ModemInfo.IpAddress
    (mModemInfo (modemPageArrived plainDecimal ULONG_MAX_LP64 (modemPageWith 7 "n/a"))) = "" /\
  option_map (fun this' => (ModemInfo.TxPackets (mModemInfo this'),
                            ModemInfo.IpAddress (mModemInfo this')))
    (httpFinishedModem plainDecimal ULONG_MAX_LP64
       (modemPageArrived plainDecimal ULONG_MAX_LP64 (modemPageWith 7 "n/a"))) =
  Some (0%Z, "192.168.100.1").
Proof. lazy. repeat split. Qed.

(** C7 at sample values. *)
Lemma categorical_fields_decode_witness :
  modemStateFromString "Modem is OnLine" = MODEM_STATE_ONLINE /\
  modemStateFromString "oNLINe" = MODEM_STATE_ONLINE /\
  modemStateFromString "Rebooting" = MODEM_STATE_UNKNOWN /\
  ModemInfo.SatStatusBeamColor
    (mModemInfo (modemPageDecoded plainDecimal ULONG_MAX_LP64 sampleModemPage)) =
    SATELLITE_STATUS_BEAM_COLOR_PURPLE.
Proof.
  pose proof (categorical_fields_decode plainDecimal ULONG_MAX_LP64
                (modemPageArrived plainDecimal ULONG_MAX_LP64 sampleModemPage)
                (modemPageDecoded plainDecimal ULONG_MAX_LP64 sampleModemPage))
    as (_ & Hnone & _ & Hon & Hword & Hmodem & _).
  split; [|split; [|split]].
  - apply Hon; reflexivity.
  - apply Hword; reflexivity.
  - apply Hnone. intros keyword member Hin.
    repeat (destruct Hin as [[= <- <-]|Hin]; [reflexivity|]). destruct Hin.
  - specialize (Hmodem (modem_sample_decodes sampleModemPage eq_refl)).
    cbn zeta in Hmodem. destruct Hmodem as (_ & ->); [lazy; reflexivity|].
    lazy. reflexivity.
Defined.

(** C7 fails as stated: a status can contain ONLINE and still not be mapped
    to the Online state, because an earlier keyword matches first. *)
Lemma online_does_not_always_win :
  ~ (forall value : QString,
       contains value "ONLINE" CaseInsensitive = true ->
       modemStateFromString value = MODEM_STATE_ONLINE).
Proof.
  intros H. specialize (H "Network ONLINE" eq_refl). discriminate H.
Qed.

(** C8 at sample pages: 45% is stored as 45, and 200% as 200. *)
Lemma percent_fields_decode_witness :
  ModemInfo.RxSnrPercent
    (mModemInfo (modemPageDecoded plainDecimal ULONG_MAX_LP64 sampleModemPage)) = 45%Z /\
  ModemInfo.RxSnrPercent
    (mModemInfo (modemPageDecoded plainDecimal ULONG_MAX_LP64 (modemPageWith 12 "200%"))) =
    200%Z /\
  TriaInfo.TxRfPwrPercent
    (mTriaInfo (triaPageDecoded plainDecimal ULONG_MAX_LP64 sampleTriaPage)) = 92%Z.
Proof.
  pose proof (proj1 (percent_fields_decode plainDecimal ULONG_MAX_LP64 _ _)
                (modem_sample_decodes sampleModemPage eq_refl)) as Hs.
  pose proof (proj1 (percent_fields_decode plainDecimal ULONG_MAX_LP64 _ _)
                (modem_sample_decodes (modemPageWith 12 "200%") eq_refl)) as Hn.
  pose proof (proj1 (proj2 (percent_fields_decode plainDecimal ULONG_MAX_LP64 _ _))
                (tria_sample_decodes sampleTriaPage eq_refl)) as Ht.
  cbn zeta in Hs, Hn, Ht.
  destruct Hs as (Hs12 & _); [lazy; reflexivity|].
  destruct Hn as (Hn12 & _); [lazy; reflexivity|].
  destruct Ht as (_ & Ht26); [lazy; reflexivity|].
  rewrite Hs12, Hn12, Ht26. lazy. repeat split.
Defined.

(** C8 fails as stated: for the field [300%] the specification's rule gives
    300, the member holds 44; and for [7%5], where the [%] is not the
    trailing character, the rule gives 0 and the member holds 75. *)
Lemma percent_field_is_reduced_mod_256 :
  percentage_spec "300%" = 300%Z /\
  option_map (fun this' => ModemInfo.RxSnrPercent (mModemInfo this'))
    (httpFinishedModem plainDecimal ULONG_MAX_LP64
       (modemPageArrived plainDecimal ULONG_MAX_LP64 (modemPageWith 12 "300%"))) =
  Some 44%Z /\
  percentage_spec "7%5" = 0%Z /\
  option_map (fun this' => ModemInfo.RxSnrPercent (mModemInfo this'))
    (httpFinishedModem plainDecimal ULONG_MAX_LP64
       (modemPageArrived plainDecimal ULONG_MAX_LP64 (modemPageWith 12 "7%5"))) =
  Some 75%Z.
Proof. lazy. repeat split. Qed.

(** C10 at the sample pages. *)
Lemma decoders_keep_the_other_record_witness :
  mTriaInfo (modemPageDecoded plainDecimal ULONG_MAX_LP64 sampleModemPage) = blankTriaInfo /\
  mModemInfo (triaPageDecoded plainDecimal ULONG_MAX_LP64 sampleTriaPage) = blankModemInfo.
Proof.
  split.
  - apply (proj1 (proj2 (proj2 (decoders_keep_the_other_record plainDecimal ULONG_MAX_LP64
                                  (modemPageArrived plainDecimal ULONG_MAX_LP64 sampleModemPage))))
                 _ (modem_sample_decodes sampleModemPage eq_refl)).
  - apply (proj2 (proj2 (proj2 (decoders_keep_the_other_record plainDecimal ULONG_MAX_LP64
                                  (triaPageArrived plainDecimal ULONG_MAX_LP64 sampleTriaPage))))
                 _ (tria_sample_decodes sampleTriaPage eq_refl)).
Defined.

(** C9 at a sample run: after the second timer tick the first modem reply is
    superseded, and the page it then delivers changes nothing visible. *)
Lemma superseded_payload_never_read_witness :
  tracked (orStarted (run plainDecimal ULONG_MAX_LP64 started [Timeout])) 0 = false /\
  readsDeleted (orStarted (run plainDecimal ULONG_MAX_LP64 started [Timeout])) 0 = false /\
  exists after,
    step plainDecimal ULONG_MAX_LP64
      (orStarted (run plainDecimal ULONG_MAX_LP64 started [Timeout]))
      (Arrived 0 sampleModemPage) = Some after /\
    visible after = visible (orStarted (run plainDecimal ULONG_MAX_LP64 started [Timeout])).
Proof.
  assert (Hrun : run plainDecimal ULONG_MAX_LP64 (SurfBeam2_new blankModemInfo blankTriaInfo)
                   [Timeout] =
                 Some (orStarted (run plainDecimal ULONG_MAX_LP64 started [Timeout])))
    by (apply orStarted_some; lazy; reflexivity).
  assert (Htr : tracked (orStarted (run plainDecimal ULONG_MAX_LP64 started [Timeout])) 0
                = false) by (lazy; reflexivity).
  assert (Hd : readsDeleted (orStarted (run plainDecimal ULONG_MAX_LP64 started [Timeout])) 0
               = false) by (lazy; reflexivity).
  split; [exact Htr|]. split; [exact Hd|].
  destruct (proj1 (superseded_payload_never_read plainDecimal ULONG_MAX_LP64
                     blankModemInfo blankTriaInfo [Timeout] _ 0 sampleModemPage Hrun Htr) Hd)
    as (after & Hstep & Hvisible & _).
  exists after. split; assumption.
Defined.

(** C9 fails as stated: the run is not the run in which everything a
    superseded reply sends is discarded.  In [overrunEvents] the end of the
    superseded reply makes the slot decode the 81 fields the newer reply has
    delivered so far, and the record is replaced; with the superseded reply
    discarded the newer reply ends with 82 fields and the record is kept.
    And when the newer reply has ended and has been destroyed, bytes that
    arrive for the superseded reply make the slot use the destroyed reply. *)
Lemma superseded_reply_is_not_discarded :
  option_map records (run plainDecimal ULONG_MAX_LP64 started overrunEvents) <>
  option_map records (runDiscarding plainDecimal ULONG_MAX_LP64 started overrunEvents) /\
  option_map (fun this => ModemInfo.IpAddress (mModemInfo this))
    (run plainDecimal ULONG_MAX_LP64 started overrunEvents) = Some "192.168.100.1" /\
  option_map (fun this => ModemInfo.IpAddress (mModemInfo this))
    (runDiscarding plainDecimal ULONG_MAX_LP64 started overrunEvents) = Some "" /\
  option_map (fun this => (tracked this 0, readsDeleted this 0))
    (run plainDecimal ULONG_MAX_LP64 started [Timeout; Completed 2; DeferredDelete 2]) =
    Some (false, true) /\
  run plainDecimal ULONG_MAX_LP64 started
    [Timeout; Completed 2; DeferredDelete 2; Arrived 0 "x"] = None.
Proof.
  split; [|lazy; repeat split].
  intros H.
  apply (f_equal (option_map (fun r => ModemInfo.IpAddress (fst r)))) in H.
  lazy in H. discriminate H.
Qed.

(** X4 at the sample modem page. *)
Lemma page_round_trip_witness :
  split sampleModemPage FIELD_DELIMITER = sampleModemFields /\
  mModemRawStringsList (modemPageDecoded plainDecimal ULONG_MAX_LP64 sampleModemPage) =
    sampleModemFields.
Proof.
  assert (Hne : sampleModemFields <> []) by (lazy; discriminate).
  assert (Hplain : forallb (fun x => negb (contains x "#" CaseSensitive)) sampleModemFields
                   = true) by (vm_compute; reflexivity).
  pose proof (page_round_trip plainDecimal ULONG_MAX_LP64 sampleModemFields
                (modemPageArrived plainDecimal ULONG_MAX_LP64 sampleModemPage)
                (modemPageDecoded plainDecimal ULONG_MAX_LP64 sampleModemPage)
                Hne Hplain) as (Hsplit & Hmodem & _).
  split; [exact Hsplit|].
  apply Hmodem.
  - lazy. reflexivity.
  - lazy. reflexivity.
  - apply (modem_sample_decodes sampleModemPage eq_refl).
Defined.

(** X5 at a page of four bytes. *)
Lemma short_page_keeps_record_witness :
  mModemInfo (modemPageDecoded plainDecimal ULONG_MAX_LP64 "a##b") = blankModemInfo.
Proof.
  apply (proj1 (proj2 (short_page_keeps_record plainDecimal ULONG_MAX_LP64
                         (modemPageArrived plainDecimal ULONG_MAX_LP64 "a##b")
                         (modemPageDecoded plainDecimal ULONG_MAX_LP64 "a##b")))).
  - lazy. lia.
  - apply (modem_sample_decodes "a##b" eq_refl).
Defined.

(** X6 at the sample modem page. *)
Lemma finished_slot_idempotent_witness :
  httpFinishedModem plainDecimal ULONG_MAX_LP64
    (modemPageDecoded plainDecimal ULONG_MAX_LP64 sampleModemPage) =
  Some (modemPageDecoded plainDecimal ULONG_MAX_LP64 sampleModemPage).
Proof.
  apply (proj1 (finished_slot_idempotent plainDecimal ULONG_MAX_LP64
                  (modemPageArrived plainDecimal ULONG_MAX_LP64 sampleModemPage) _)).
  apply (modem_sample_decodes sampleModemPage eq_refl).
Defined.

(** X7 at the sample modem page, [unsigned long] of 64 bits. *)
Lemma symbol_rates_by_platform_witness :
  ModemInfo.UplinkSymbolRate
    (mModemInfo (modemPageDecoded plainDecimal ULONG_MAX_LP64 sampleModemPage)) = 625000%Z /\
  ModemInfo.DownlinkSymbolRate
    (mModemInfo (modemPageDecoded plainDecimal ULONG_MAX_LP64 sampleModemPage)) = 10000000%Z.
Proof.
  pose proof (symbol_rates_by_platform plainDecimal ULONG_MAX_LP64 _ _
                (modem_sample_decodes sampleModemPage eq_refl)) as H.
  cbn zeta in H. destruct H as (_ & _ & Hwide & _); [lazy; reflexivity|].
  destruct Hwide as (Hup & Hdown); [lazy; discriminate|].
  rewrite Hup, Hdown by (lazy; reflexivity). lazy. split; reflexivity.
Defined.

(** X8 at the sample run with one tick after the constructor. *)
Lemma requests_per_tick_witness :
  List.length (mQnam (orStarted (run plainDecimal ULONG_MAX_LP64 started overrunEvents))) = 4 /\
  mReplyModem (orStarted (run plainDecimal ULONG_MAX_LP64 started overrunEvents)) = 2.
Proof.
  assert (Hrun : run plainDecimal ULONG_MAX_LP64 (SurfBeam2_new blankModemInfo blankTriaInfo)
                   overrunEvents =
                 Some (orStarted (run plainDecimal ULONG_MAX_LP64 started overrunEvents)))
    by (apply orStarted_some; lazy; reflexivity).
  destruct (requests_per_tick plainDecimal ULONG_MAX_LP64 _ _ _ _ Hrun) as (Hlen & Hm & _).
  rewrite Hlen, Hm. split; reflexivity.
Defined.

(** X9 at a sample run: the first modem reply ends and is destroyed. *)
Lemma replies_are_never_disconnected_witness :
  exists r', nth_error (mQnam (orStarted (run plainDecimal ULONG_MAX_LP64 started
                                          [Completed 0; DeferredDelete 0; Timeout]))) 0
             = Some r' /\
             onFinished r' = [SLOT_httpFinishedModem] /\
             onReadyRead r' = [SLOT_httpReadyReadModem].
Proof.
  destruct (replies_are_never_disconnected plainDecimal ULONG_MAX_LP64 started
              (orStarted (run plainDecimal ULONG_MAX_LP64 started
                            [Completed 0; DeferredDelete 0; Timeout]))
              [Completed 0; DeferredDelete 0; Timeout] 0 modemReply)
    as (r' & Hr' & Hf & Hrr & _).
  - apply orStarted_some. lazy. reflexivity.
  - lazy. reflexivity.
  - exists r'. repeat split; assumption.
Defined.

(** X10 at a sample object: after one more tick, bytes on the new modem reply. *)
Lemma tracked_signals_are_safe_witness :
  step plainDecimal ULONG_MAX_LP64
    (orStarted (run plainDecimal ULONG_MAX_LP64 started [Timeout]))
    (Arrived 2 "192.168.100.1##") <> None.
Proof.
  apply (tracked_signals_are_safe plainDecimal ULONG_MAX_LP64 blankModemInfo blankTriaInfo
           [Timeout]).
  - apply orStarted_some. lazy. reflexivity.
  - lazy. reflexivity.
Defined.

Lemma orWindow_some (o : option Window) :
  option_map (fun _ => tt) o = Some tt -> o = Some (fst (orWindow o), snd (orWindow o)).
Proof. destruct o as [[this ui]|]; [reflexivity|discriminate]. Defined.

Lemma modem_sample_shown (page : QByteArray) :
  option_map (fun _ => tt)
    (httpFinishedModem_ui plainDecimal ULONG_MAX_LP64
       (modemPageArrived plainDecimal ULONG_MAX_LP64 page, blankUi)) = Some tt ->
  httpFinishedModem_ui plainDecimal ULONG_MAX_LP64
    (modemPageArrived plainDecimal ULONG_MAX_LP64 page, blankUi) =
  Some (fst (modemPageShown plainDecimal ULONG_MAX_LP64 page),
        snd (modemPageShown plainDecimal ULONG_MAX_LP64 page)).
Proof. intros H. unfold modemPageShown. now apply orWindow_some. Defined.

(** X11 at a sample cycle: the pieces of the two pages interleaved, the
    outdoor unit ending first. *)
Lemma orderly_cycle_decodes_witness :
  exists final,
    run plainDecimal ULONG_MAX_LP64 started
      [ Timeout; Arrived 3 "x##"; Arrived 2 "192.168"; DeferredDelete 0; Arrived 3 "y";
        Completed 3; Arrived 2 ".100.1##z"; DeferredDelete 3; Completed 2 ] = Some final /\
    mByteArrayModem final = "192.168.100.1##z" /\
    mTriaRawStringsList final = ["x"; "y"].
Proof.
  destruct (orderly_cycle_decodes plainDecimal ULONG_MAX_LP64 started
              [ Arrived 3 "x##"; Arrived 2 "192.168"; DeferredDelete 0; Arrived 3 "y";
                Completed 3; Arrived 2 ".100.1##z"; DeferredDelete 3; Completed 2 ] eq_refl)
    as (final & Hrun & Hbm & _ & _ & Hlt & _).
  exists final. split; [exact Hrun|]. split.
  - rewrite Hbm. reflexivity.
  - rewrite Hlt. reflexivity.
Defined.



(** X14 at a sample segment. *)
Lemma beam_colour_labels_witness :
  contains "PURPLE beam" (colorName (beamColorFromString "PURPLE beam")) CaseInsensitive
  = true.
Proof.
  apply (proj2 (proj2 (beam_colour_labels started blankUi)) "PURPLE beam").
  vm_compute. discriminate.
Defined.

(** X15 at a sample polarization type. *)
Lemma polarization_label_witness : polarizationText "LEFT-HAND" = "Circular Left".
Proof.
  apply (proj2 (polarization_label started blankUi) "LEFT-HAND").
  vm_compute. reflexivity.
Defined.

(** X16 at the sample page: a bar from 0 to 100 shows the 45 of the page. *)
Lemma progress_bars_follow_percent_witness :
  QProgressBar.value
    (Ui.rxSnrProgressbar
       (updateContent (modemPageDecoded plainDecimal ULONG_MAX_LP64 sampleModemPage) blankUi))
  = 45%Z.
Proof.
  pose proof (progress_bars_follow_percent
                (modemPageDecoded plainDecimal ULONG_MAX_LP64 sampleModemPage) blankUi) as H.
  cbn zeta in H. destruct H as ((Hsnr & _) & _).
  destruct Hsnr as (_ & _ & Hin & _).
  assert (Hp : ModemInfo.RxSnrPercent
                 (mModemInfo (modemPageDecoded plainDecimal ULONG_MAX_LP64 sampleModemPage))
               = 45%Z) by (lazy; reflexivity).
  rewrite Hp in Hin. apply Hin. cbn. lia.
Defined.

(** X17 at a sample run: the first modem reply delivers the sample page and
    ends. *)
Lemma form_shows_the_records_witness :
  let w := orWindow (run_ui plainDecimal ULONG_MAX_LP64
                       (Window_new blankModemInfo blankTriaInfo blankUi)
                       [Arrived 0 sampleModemPage; Completed 0]) in
  snd w = SurfBeam2_new_ui blankUi \/
  withoutValues (snd w) = withoutValues (updateContent (fst w) (SurfBeam2_new_ui blankUi)).
Proof.
  intros w.
  apply (form_shows_the_records plainDecimal ULONG_MAX_LP64 blankModemInfo blankTriaInfo
           blankUi [Arrived 0 sampleModemPage; Completed 0] (fst w) (snd w)).
  unfold w. apply orWindow_some. lazy. reflexivity.
Defined.

(** X18 at the sample page: the segment 765,432 is shown as 765432. *)
Lemma packet_counters_round_trip_witness :
  QLabel.text (Ui.txPacketsLabel (snd (modemPageShown plainDecimal ULONG_MAX_LP64
                                        sampleModemPage))) = "765432".
Proof.
  pose proof (proj2 (packet_counters_round_trip plainDecimal ULONG_MAX_LP64 _ _ _ _)
                (modem_sample_shown sampleModemPage eq_refl)) as H.
  cbn zeta in H.
  destruct (H ltac:(lazy; reflexivity) 765432%Z ltac:(unfold ULLONG_MAX; lia)) as (Htx & _).
  destruct Htx as (_ & ->); [vm_compute; reflexivity|].
  vm_compute. reflexivity.
Defined.

(** X19 at the sample modem page. *)
Lemma text_labels_show_segments_witness :
  let ui' := snd (modemPageShown plainDecimal ULONG_MAX_LP64 sampleModemPage) in
  let segments :=
    split (mByteArrayModem (modemPageArrived plainDecimal ULONG_MAX_LP64 sampleModemPage))
      FIELD_DELIMITER in
  map QLabel.text
    [ Ui.ipAddressLabel ui'; Ui.macAddressLabel ui'; Ui.softwareVersionLabel ui';
      Ui.hardwareVersionLabel ui'; Ui.modemStateLabel ui'; Ui.onlineTimeLabel ui';
      Ui.modemSerialNumberLabel ui'; Ui.oduTelemetryLabel ui'; Ui.partNumberLabel ui';
      Ui.modulationLabel ui' ] =
  map (fun i => nth i segments EmptyString) [0; 1; 2; 3; 4; 9; 13; 18; 22; 51]%nat.
Proof.
  intros ui' segments.
  apply (proj1 (text_labels_show_segments plainDecimal ULONG_MAX_LP64 _ _ _ _)
           (modem_sample_shown sampleModemPage eq_refl)).
  lazy. reflexivity.
Defined.
